(** * Graph feature generation for article separation

    A shallow embedding of
    [citlab_article_separation/gnn/input/feature_generation.py]:
    the separator classifiers (line and bounding-box strategy), the
    topology builders, the discard pass, the external-feature fallback
    chain, the ground-truth relation builder and the batch driver
    [generate_feature_jsons].

    Conventions of the embedding.
    - Python exceptions are values of [exn]; a function that may raise
      returns [result A].
    - Coordinates live in [np.int32] arrays; they are integers of [Z] and
      the arithmetic the code performs on [np.int32] scalars wraps
      ([add32], [sub32]).
    - The centre [(min + max) / 2] of a bounding box is a half-integer.  It is
      kept as its numerator over the fixed denominator 2, and whatever is
      compared with it is doubled.
    - Collaborators that live outside the repository (shapely, scipy,
      citlab_python_util, the stroke-width transform) are Section
      variables. *)

From Stdlib Require Import ZArith QArith List Bool String Lia.
From stdpp Require Import base option list strings gmap.

Local Open Scope Z_scope.
#[local] Unset Printing Records.

(** ** Exceptions *)

Inductive exn : Type :=
| KeyError
| TypeError
| ValueError
| IndexError
| AssertionError
| QhullError.

Inductive result (A : Type) : Type :=
| Ok (a : A)
| Raise (e : exn).
Arguments Ok {A} a.
Arguments Raise {A} e.

#[global] Instance result_ret : MRet result := fun _ a => Ok a.
#[global] Instance result_bind : MBind result := fun _ _ f m =>
  match m with
  | Ok a => f a
  | Raise e => Raise e
  end.
#[global] Instance result_fmap : FMap result := fun _ _ f m =>
  match m with
  | Ok a => Ok (f a)
  | Raise e => Raise e
  end.

Definition is_ok {A} (r : result A) : bool :=
  match r with Ok _ => true | Raise _ => false end.

(** ** 32-bit integers of numpy *)

Definition wrap32 (z : Z) : Z := (z + 2 ^ 31) mod 2 ^ 32 - 2 ^ 31.
Definition add32 (a b : Z) : Z := wrap32 (a + b).
Definition sub32 (a b : Z) : Z := wrap32 (a - b).
Definition in_int32 (z : Z) : Prop := - 2 ^ 31 <= z < 2 ^ 31.

(** ** Geometry *)

Definition point : Type := Z * Z.

Definition point_eqb (p q : point) : bool :=
  (p.1 =? q.1) && (p.2 =? q.2).

Definition list_min (z : Z) (zs : list Z) : Z := foldl Z.min z zs.
Definition list_max (z : Z) (zs : list Z) : Z := foldl Z.max z zs.

(** [get_bounding_box]: [np.min]/[np.max] over the two columns.  Slicing the
    columns of the array built from an empty point list raises. *)
Definition get_bounding_box (points : list point) : result (Z * Z * Z * Z) :=
  match points with
  | [] => Raise IndexError
  | p :: ps =>
      Ok (list_min p.1 (fst <$> ps), list_max p.1 (fst <$> ps),
          list_min p.2 (snd <$> ps), list_max p.2 (snd <$> ps))
  end.

(** ** Bounding-box rules *)

(** [is_vertically_separated].  [mean_x_sep] is kept as
    [mean2_x_sep = 2 * mean_x_sep]; its numerator is a sum of two [np.int32]
    scalars. *)
Definition is_vertically_separated
    (min_x_a max_x_a min_y_a max_y_a
     min_x_b max_x_b min_y_b max_y_b
     min_x_sep max_x_sep min_y_sep max_y_sep : Z) : bool :=
  let mean2_x_sep := add32 min_x_sep max_x_sep in
  (* not horizontally aligned *)
  if negb (((2 * max_x_a <=? mean2_x_sep) && (mean2_x_sep <=? 2 * min_x_b))
           || ((2 * max_x_b <=? mean2_x_sep) && (mean2_x_sep <=? 2 * min_x_a)))
  then false
  (* not atleast one vertically aligned *)
  else if negb (((max_y_a >=? min_y_sep) && (min_y_a <=? max_y_sep))
                || ((max_y_b >=? min_y_sep) && (min_y_b <=? max_y_sep)))
  then false
  else true.

Definition is_horizontally_separated
    (min_x_a max_x_a min_y_a max_y_a
     min_x_b max_x_b min_y_b max_y_b
     min_x_sep max_x_sep min_y_sep max_y_sep : Z) : bool :=
  (* not vertically aligned *)
  if negb (((min_y_a <=? min_y_sep) && (max_y_sep <=? max_y_b))
           || ((min_y_b <=? min_y_sep) && (max_y_sep <=? max_y_a)))
  then false
  (* both A & B outside of S on the same side *)
  else if ((max_x_a <=? min_x_sep) && (max_x_b <=? min_x_sep))
          || ((min_x_a >=? max_x_sep) && (min_x_b >=? max_x_sep))
  then false
  else true.

(** ** Page objects *)

Record TextLine : Type := {
  tl_id : string;
  tl_text : string;
}.

Record TextRegion : Type := {
  tr_id : string;
  tr_points : list point;          (* [points.points_list] *)
  tr_region_type : string;
  tr_text_lines : list TextLine;
}.

(** [get_orientation()] returns the custom orientation tag, or [None]. *)
Record SeparatorRegion : Type := {
  sr_id : string;
  sr_points : list point;          (* [points.points_list], a mutable list *)
  sr_orientation : option string;
}.

Definition get_orientation (s : SeparatorRegion) : option string :=
  sr_orientation s.

Definition set_points_list (s : SeparatorRegion) (pts : list point)
  : SeparatorRegion :=
  {| sr_id := sr_id s; sr_points := pts; sr_orientation := sr_orientation s |}.

#[global] Instance TextLine_eq_dec : EqDecision TextLine.
Proof. solve_decision. Defined.
#[global] Instance TextRegion_eq_dec : EqDecision TextRegion.
Proof. solve_decision. Defined.
#[global] Instance SeparatorRegion_eq_dec : EqDecision SeparatorRegion.
Proof. solve_decision. Defined.

(** [float(b)] for a Python [bool]. *)
Definition float_of_bool (b : bool) : Q := if b then 1%Q else 0%Q.

(** Height-width ratio of a separator's bounding box, both clamped below by 1.
    [float(height) / float(width) < 5] is decided on the integers: both are
    positive 32-bit values, exactly representable, and the rounded quotient
    is below 5 exactly when [height < 5 * width]. *)
Definition bb_width (min_c max_c : Z) : Z := Z.max (sub32 max_c min_c) 1.
Definition ratio_lt_5 (height width : Z) : bool := height <? 5 * width.

(** ** Separator classifier: bounding-box strategy *)

Definition bb_orientation (s : SeparatorRegion) (bb_sep : Z * Z * Z * Z)
  : string :=
  match get_orientation s with
  | Some o => o
  | None =>
      let '(min_x, max_x, min_y, max_y) := bb_sep in
      let width := bb_width min_x max_x in
      let height := bb_width min_y max_y in
      if ratio_lt_5 height width then "horizontal" else "vertical"
  end%string.

Definition bb_rule_check (bb_a bb_b bb_sep : Z * Z * Z * Z)
    (orientation : string) (h v : bool) : bool * bool :=
  let '(min_x_a, max_x_a, min_y_a, max_y_a) := bb_a in
  let '(min_x_b, max_x_b, min_y_b, max_y_b) := bb_b in
  let '(min_x_s, max_x_s, min_y_s, max_y_s) := bb_sep in
  if String.eqb orientation "vertical" then
    if is_vertically_separated min_x_a max_x_a min_y_a max_y_a
         min_x_b max_x_b min_y_b max_y_b min_x_s max_x_s min_y_s max_y_s
    then (h, true) else (h, v)
  else
    if is_horizontally_separated min_x_a max_x_a min_y_a max_y_a
         min_x_b max_x_b min_y_b max_y_b min_x_s max_x_s min_y_s max_y_s
    then (true, v) else (h, v).

(** The [for separator_region in separator_regions] loop, with its [break]. *)
Fixpoint bb_loop (bb_a bb_b : Z * Z * Z * Z)
    (separator_regions : list SeparatorRegion) (h v : bool)
  : result (bool * bool) :=
  match separator_regions with
  | [] => Ok (h, v)
  | s :: rest =>
      bb_sep ← get_bounding_box (sr_points s);
      let orientation := bb_orientation s bb_sep in
      let '(h', v') := bb_rule_check bb_a bb_b bb_sep orientation h v in
      if h' && v' then Ok (h', v') else bb_loop bb_a bb_b rest h' v'
  end.

Definition get_edge_separator_feature_bb
    (text_region_a text_region_b : TextRegion)
    (separator_regions : list SeparatorRegion) : result (list Q) :=
  bb_a ← get_bounding_box (tr_points text_region_a);
  bb_b ← get_bounding_box (tr_points text_region_b);
  '(h, v) ← bb_loop bb_a bb_b separator_regions false false;
  Ok [float_of_bool h; float_of_bool v].

(** ** Separator classifier: line strategy *)

(** A two-point [LineString]; coordinates are numerators over 2. *)
Record LineString : Type := {
  ls_start : point;
  ls_end : point;
}.

Definition line_string_of_points (p1 p2 : point) : LineString :=
  {| ls_start := (2 * p1.1, 2 * p1.2); ls_end := (2 * p2.1, 2 * p2.2) |}.

Definition ls_reverse (l : LineString) : LineString :=
  {| ls_start := ls_end l; ls_end := ls_start l |}.

(** [line.bounds = (minx, miny, maxx, maxy)]. *)
Definition bounds (l : LineString) : Z * Z * Z * Z :=
  (Z.min (ls_start l).1 (ls_end l).1, Z.min (ls_start l).2 (ls_end l).2,
   Z.max (ls_start l).1 (ls_end l).1, Z.max (ls_start l).2 (ls_end l).2).

Definition line_in_bounding_box (line : LineString)
    (min_x max_x min_y max_y : Z) : bool :=
  let '(x1, y1, x2, y2) := bounds line in
  if (x1 >? 2 * min_x) && (x2 <? 2 * max_x)
     && (y1 >? 2 * min_y) && (y2 <? 2 * max_y)
  then true else false.

(** Pairs [(polygon[i], polygon[i + 1])] for [i in range(len(polygon) - 1)]. *)
Fixpoint polygon_segments (polygon : list point) : list (point * point) :=
  match polygon with
  | p1 :: ((p2 :: _) as tl) => (p1, p2) :: polygon_segments tl
  | _ => []
  end.

(** [==] between a [SeparatorRegion] object and a [str]: the class defines no
    [__eq__], the comparison falls back to identity. *)
Definition separator_region_eq_str (s : SeparatorRegion) (tag : string)
  : bool := false.

Section LineStrategy.

(** shapely's [line.intersects(segment)]. *)
Variable intersects : LineString -> LineString -> bool.

(** [line_poly_intersection] appends to the list it is given: besides the
    answer it returns the list as the call leaves it. *)
Definition line_poly_intersection (line : LineString) (polygon : list point)
  : result (bool * list point) :=
  match polygon with
  | [] => Raise IndexError
  | p0 :: _ =>
      let polygon' :=
        if negb (point_eqb p0 (List.last polygon p0))
        then polygon ++ [p0] else polygon in
      Ok (existsb (fun '(p1, p2) => intersects line (line_string_of_points p1 p2))
            (polygon_segments polygon'),
          polygon')
  end.

(** Body of the loop over the separator regions: the flags after this
    separator, whether the inner intersection test hit, and the separator
    as the iteration leaves it. *)
Definition line_step (tr_segment : LineString) (s : SeparatorRegion)
    (h v : bool) : result (bool * bool * bool * SeparatorRegion) :=
  '(min_x_s, max_x_s, min_y_s, max_y_s) ← get_bounding_box (sr_points s);
  let width := bb_width min_x_s max_x_s in
  let height := bb_width min_y_s max_y_s in
  let s1 := (min_x_s, min_y_s) in
  let s2 := (max_x_s, min_y_s) in
  let s3 := (min_x_s, max_y_s) in
  let s4 := (max_x_s, max_y_s) in
  '(prior, _) ← line_poly_intersection tr_segment [s1; s2; s3; s4];
  if prior || line_in_bounding_box tr_segment min_x_s max_x_s min_y_s max_y_s
  then
    '(hit, pts) ← line_poly_intersection tr_segment (sr_points s);
    let s' := set_points_list s pts in
    if (hit : bool) then
      let sep_orientation := get_orientation s' in
      if bool_decide (sep_orientation = Some "horizontal"%string)
      then Ok (true, v, true, s')
      else if separator_region_eq_str s' "vertical"
      then Ok (h, true, true, s')
      else if ratio_lt_5 height width
      then Ok (true, v, true, s')
      else Ok (h, true, true, s')
    else Ok (h, v, false, s')
  else Ok (h, v, false, s).

Fixpoint line_loop (tr_segment : LineString)
    (separator_regions : list SeparatorRegion) (h v : bool)
  : result (bool * bool * list SeparatorRegion) :=
  match separator_regions with
  | [] => Ok (h, v, [])
  | s :: rest =>
      '(h', v', hit, s') ← line_step tr_segment s h v;
      if hit && (h' && v') then Ok (h', v', s' :: rest)
      else
        '(h'', v'', rest') ← line_loop tr_segment rest h' v';
        Ok (h'', v'', s' :: rest')
  end.

(** Returns the feature and the separator regions as the call leaves
    them. *)
Definition get_edge_separator_feature_line
    (text_region_a text_region_b : TextRegion)
    (separator_regions : list SeparatorRegion)
  : result (list Q * list SeparatorRegion) :=
  '(min_x_a, max_x_a, min_y_a, max_y_a) ←
    get_bounding_box (tr_points text_region_a);
  '(min_x_b, max_x_b, min_y_b, max_y_b) ←
    get_bounding_box (tr_points text_region_b);
  let center2_x_a := add32 min_x_a max_x_a in
  let center2_y_a := add32 min_y_a max_y_a in
  let center2_x_b := add32 min_x_b max_x_b in
  let center2_y_b := add32 min_y_b max_y_b in
  let tr_segment :=
    {| ls_start := (center2_x_a, center2_y_a);
       ls_end := (center2_x_b, center2_y_b) |} in
  '(h, v, separator_regions') ←
    line_loop tr_segment separator_regions false false;
  Ok ([float_of_bool h; float_of_bool v], separator_regions').

End LineStrategy.

(** Exact intersection of two closed segments, used to run the line strategy
    on concrete pages.  It stands for shapely's [intersects] on segments of
    positive length, the only ones the examples hand to it; for a segment
    whose two ends coincide shapely answers differently. *)
Definition cross (o a b : point) : Z :=
  (a.1 - o.1) * (b.2 - o.2) - (a.2 - o.2) * (b.1 - o.1).

Definition in_box (p q r : point) : bool :=
  (Z.min p.1 q.1 <=? r.1) && (r.1 <=? Z.max p.1 q.1)
  && (Z.min p.2 q.2 <=? r.2) && (r.2 <=? Z.max p.2 q.2).

Definition segments_intersect (l s : LineString) : bool :=
  let '(p1, q1) := (ls_start l, ls_end l) in
  let '(p2, q2) := (ls_start s, ls_end s) in
  let o1 := Z.sgn (cross p1 q1 p2) in
  let o2 := Z.sgn (cross p1 q1 q2) in
  let o3 := Z.sgn (cross p2 q2 p1) in
  let o4 := Z.sgn (cross p2 q2 q1) in
  (negb (o1 =? o2) && negb (o3 =? o4))
  || ((o1 =? 0) && in_box p1 q1 p2)
  || ((o2 =? 0) && in_box p1 q1 q2)
  || ((o3 =? 0) && in_box p2 q2 p1)
  || ((o4 =? 0) && in_box p2 q2 q1).

(** ** Topology builder *)

Definition edge : Type := nat * nat.

Definition arange (n : nat) : list nat := seq 0 n.

(** [np.tile(row, [reps, 1])]. *)
Definition tile (row : list nat) (reps : nat) : list (list nat) :=
  replicate reps row.

(** [np.transpose] of a matrix with [ncols] columns. *)
Definition transpose (ncols : nat) (m : list (list nat)) : list (list nat) :=
  (fun j => (fun row => nth j row 0%nat) <$> m) <$> seq 0 ncols.

(** [np.stack([a, b], axis=2).reshape([-1, 2])]: the rows of pairs, row after
    row. *)
Definition stack_reshape (a b : list (list nat)) : list edge :=
  concat (zip_with (zip_with pair) a b).

(** [np.delete(arr, indices, axis=0)]. *)
Definition np_delete {A} (arr : list A) (indices : list nat) : list A :=
  snd <$> filter (fun kx => kx.1 ∉ indices) (imap pair arr).

Definition fully_connected_edges (num_nodes : nat) : list edge :=
  let node_indices := tile (arange num_nodes) num_nodes in
  let node_indices_t := transpose num_nodes node_indices in
  (* fully-connected *)
  let interacting_nodes := stack_reshape node_indices_t node_indices in
  (* remove self-loops *)
  let del_indices := (fun k => k * (num_nodes + 1))%nat <$> arange num_nodes in
  np_delete interacting_nodes del_indices.

(** The order the specification gives for the same edge set: outer loop over
    the source, inner loop over the target, self-pairs left out. *)
Definition fully_connected_nested_loops (num_nodes : nat) : list edge :=
  i ← seq 0 num_nodes;
  j ← seq 0 num_nodes;
  if bool_decide (i = j) then [] else [(i, j)].

Section Delaunay.

(** Node positions are pairs of floats; the triangulation is scipy's. *)
Variable position : Type.
(** [round_by_precision_and_base(node_positions, base=50)]. *)
Variable round_base : list position -> list position.
(** [Delaunay(points).vertex_neighbor_vertices], or the exception the
    constructor raises. *)
Variable Delaunay : list position -> result (list nat * list nat).

(** [indices[indice_pointer[v]:indice_pointer[v + 1]]] paired with [v]. *)
Definition delaunay_interaction (indice_pointer indices : list nat)
    (v : nat) : result (list edge) :=
  match indice_pointer !! v, indice_pointer !! S v with
  | Some lo, Some hi =>
      Ok (pair v <$> take (hi - lo) (drop lo indices))
  | _, _ => Raise IndexError
  end.

Definition delaunay_edges (num_nodes : nat) (node_positions : list position)
  : result (list edge) :=
  let node_positions_smooth := round_base node_positions in
  '(indice_pointer, indices) ←
    match Delaunay node_positions_smooth with
    | Raise QhullError => Delaunay node_positions
    | r => r
    end;
  interacting_nodes ←
    mapM (delaunay_interaction indice_pointer indices) (seq 0 num_nodes);
  (* [np.concatenate] needs at least one array *)
  if bool_decide (num_nodes = 0%nat) then Raise ValueError
  else Ok (concat interacting_nodes).

End Delaunay.

(** ** Discard pass *)

(** [list.remove(x)]: drops the first element equal to [x]. *)
Fixpoint list_remove `{EqDecision A} (x : A) (l : list A) : result (list A) :=
  match l with
  | [] => Raise ValueError
  | y :: l' =>
      if decide (y = x) then Ok l'
      else l'' ← list_remove x l'; Ok (y :: l'')
  end.

Section Discard.

(** [(width, height)] of [tr.points.to_polygon().get_bounding_box()]. *)
Variable polygon_bounding_box : list point -> Z * Z.

Definition has_no_text (tr : TextRegion) : bool :=
  match tr_text_lines tr with
  | [] => true
  | lines => forallb (fun text_line => String.eqb (tl_text text_line) "") lines
  end.

Definition too_small (tr : TextRegion) : bool :=
  let '(width, height) := polygon_bounding_box (tr_points tr) in
  (width <? 10) || (height <? 10).

(** State of the loop: the list being edited in place, the ids collected
    in [text_lines_to_remove], and the counter. *)
Record discard_state : Type := {
  ds_text_regions : list TextRegion;
  ds_text_lines_to_remove : list string;
  ds_discard : nat;
}.

(** One iteration of [for tr in text_regions.copy()].  [text_lines_given]
    is the truth value of [text_lines]. *)
Definition discard_step (text_lines_given : bool) (st : discard_state)
    (tr : TextRegion) : result discard_state :=
  if has_no_text tr then
    trs ← list_remove tr (ds_text_regions st);
    Ok {| ds_text_regions := trs;
          ds_text_lines_to_remove := ds_text_lines_to_remove st;
          ds_discard := S (ds_discard st) |}
  else if too_small tr then
    trs ← list_remove tr (ds_text_regions st);
    Ok {| ds_text_regions := trs;
          ds_text_lines_to_remove :=
            if text_lines_given
            then ds_text_lines_to_remove st ++ (tl_id <$> tr_text_lines tr)
            else ds_text_lines_to_remove st;
          ds_discard := S (ds_discard st) |}
  else Ok st.

Fixpoint discard_loop (text_lines_given : bool) (st : discard_state)
    (copy : list TextRegion) : result discard_state :=
  match copy with
  | [] => Ok st
  | tr :: rest =>
      st' ← discard_step text_lines_given st tr;
      discard_loop text_lines_given st' rest
  end.

Definition truthy_list {A} (l : option (list A)) : bool :=
  match l with
  | Some (_ :: _) => true
  | _ => false
  end.

Definition discard_text_regions_and_lines
    (text_regions : list TextRegion) (text_lines : option (list TextLine))
  : result (list TextRegion * option (list TextLine)) :=
  st ← discard_loop (truthy_list text_lines)
         {| ds_text_regions := text_regions;
            ds_text_lines_to_remove := [];
            ds_discard := 0 |}
         text_regions;
  let text_lines' :=
    match ds_text_lines_to_remove st with
    | [] => text_lines
    | to_remove =>
        filter (fun line => tl_id line ∉ to_remove) <$> text_lines
    end in
  Ok (ds_text_regions st, text_lines').

(** A region survives when it has text and is large enough. *)
Definition survives (tr : TextRegion) : bool :=
  negb (has_no_text tr) && negb (too_small tr).

(** The line ids the loop collects from a list of regions. *)
Definition collected_ids (text_lines_given : bool)
    (trs : list TextRegion) : list string :=
  tr ← trs;
  if has_no_text tr then []
  else if too_small tr
  then (if text_lines_given then tl_id <$> tr_text_lines tr else [])
  else [].

(** The region invariant of the specification. *)
Definition has_text_line (tr : TextRegion) : Prop :=
  ∃ line, line ∈ tr_text_lines tr ∧ tl_text line ≠ ""%string.

Definition large_enough (tr : TextRegion) : Prop :=
  10 <= (polygon_bounding_box (tr_points tr)).1
  ∧ 10 <= (polygon_bounding_box (tr_points tr)).2.

End Discard.

(** ** Values loaded from JSON *)

(** A [dict] is the list of its items in insertion order, keys distinct. *)
#[warnings="-register-all"] Inductive pyval : Type :=
| PNone
| PBool (b : bool)
| PNum (q : Q)
| PStr (s : string)
| PList (l : list pyval)
| PDict (d : list (string * pyval)).

Fixpoint dict_get (d : list (string * pyval)) (k : string) : option pyval :=
  match d with
  | [] => None
  | (k', v) :: d' => if String.eqb k' k then Some v else dict_get d' k
  end.

(** [v[k]] for a string key. *)
Definition py_getitem (v : pyval) (k : string) : result pyval :=
  match v with
  | PDict d =>
      match dict_get d k with
      | Some x => Ok x
      | None => Raise KeyError
      end
  | _ => Raise TypeError
  end.

Fixpoint str_contains (needle hay : string) : bool :=
  String.prefix needle hay
  || match hay with
     | EmptyString => false
     | String _ hay' => str_contains needle hay'
     end.

(** [k in v] for a string [k]. *)
Definition py_contains (k : string) (v : pyval) : result bool :=
  match v with
  | PDict d => Ok (bool_decide (is_Some (dict_get d k)))
  | PList l =>
      Ok (existsb (fun x => match x with PStr s => String.eqb s k | _ => false end) l)
  | PStr s => Ok (str_contains k s)
  | _ => Raise TypeError
  end.

(** The items [list.extend(v)] appends. *)
Definition py_iter (v : pyval) : result (list pyval) :=
  match v with
  | PList l => Ok l
  | PDict d => Ok ((fun kv => PStr kv.1) <$> d)
  | PStr s => Ok ((fun c => PStr (String c EmptyString)) <$> list_ascii_of_string s)
  | _ => Raise TypeError
  end.

Definition py_extend (feature : list pyval) (v : pyval)
  : result (list pyval) :=
  items ← py_iter v; Ok (feature ++ items).

(** Truth value of a Python object. *)
Definition py_truthy (v : pyval) : bool :=
  match v with
  | PNone => false
  | PBool b => b
  | PNum q => negb (Qeq_bool q 0)
  | PStr s => negb (String.eqb s "")
  | PList l => match l with [] => false | _ => true end
  | PDict d => match d with [] => false | _ => true end
  end.

(** [try: body except KeyError: handler]. *)
Definition except_KeyError {A} (body : result A) (handler : result A)
  : result A :=
  match body with
  | Raise KeyError => handler
  | r => r
  end.

(** [try: body except (KeyError, TypeError): handler]. *)
Definition except_KeyError_TypeError {A} (body : result A)
    (handler : result A) : result A :=
  match body with
  | Raise KeyError | Raise TypeError => handler
  | r => r
  end.

(** ** External feature blocks *)

(** Body of [for ext in external_data] in the node loop; [page_key] is
    [os.path.basename(page_path)]. *)
Definition node_external_step (page_key region_id : string) (ext : pyval)
    (node_feature : list pyval) : result (list pyval) :=
  match py_getitem ext page_key with
  | Raise KeyError => Ok node_feature
  | Raise e => Raise e
  | Ok ext_page =>
      has ← py_contains "node_features" ext_page;
      if (has : bool) then
        except_KeyError
          (table ← py_getitem ext_page "node_features";
           entry ← py_getitem table region_id;
           py_extend node_feature entry)
          (except_KeyError
             (table ← py_getitem ext_page "node_features";
              default ← py_getitem table "default";
              Ok (node_feature ++ [default]))
             (Ok (node_feature ++ [PNum 0])))
      else Ok node_feature
  end.

Fixpoint node_external_features (page_key region_id : string)
    (external_data : list pyval) (node_feature : list pyval)
  : result (list pyval) :=
  match external_data with
  | [] => Ok node_feature
  | ext :: rest =>
      node_feature' ← node_external_step page_key region_id ext node_feature;
      node_external_features page_key region_id rest node_feature'
  end.

(** Body of [for ext in external_data] in the edge loop. *)
Definition edge_external_step (page_key id_a id_b : string) (ext : pyval)
    (edge_feature : list pyval) : result (list pyval) :=
  match py_getitem ext page_key with
  | Raise KeyError => Ok edge_feature
  | Raise e => Raise e
  | Ok ext_page =>
      has ← py_contains "edge_features" ext_page;
      if (has : bool) then
        except_KeyError_TypeError
          (table ← py_getitem ext_page "edge_features";
           row ← py_getitem table id_a;
           entry ← py_getitem row id_b;
           py_extend edge_feature entry)
          (except_KeyError
             (table ← py_getitem ext_page "edge_features";
              default ← py_getitem table "default";
              py_extend edge_feature default)
             (Ok (edge_feature ++ [PNum (1 # 2)])))
      else Ok edge_feature
  end.

Fixpoint edge_external_features (page_key id_a id_b : string)
    (external_data : list pyval) (edge_feature : list pyval)
  : result (list pyval) :=
  match external_data with
  | [] => Ok edge_feature
  | ext :: rest =>
      edge_feature' ← edge_external_step page_key id_a id_b ext edge_feature;
      edge_external_features page_key id_a id_b rest edge_feature'
  end.

(** The text block similarity block of the edge loop. *)
Definition edge_similarity_feature (id_a id_b : string) (tb_sim_dict : pyval)
    (edge_feature : list pyval) : result (list pyval) :=
  except_KeyError
    (table ← py_getitem tb_sim_dict "edge_features";
     row ← py_getitem table id_a;
     entry ← py_getitem row id_b;
     py_extend edge_feature entry)
    (except_KeyError
       (table ← py_getitem tb_sim_dict "edge_features";
        default ← py_getitem table "default";
        py_extend edge_feature default)
       (Ok (edge_feature ++ [PNum (1 # 2)]))).

(** What it means for a source to miss both the specific entry and the
    default, for a node and for an edge. *)
Definition node_entries_missing (page_key region_id : string) (ext : pyval)
  : Prop :=
  ∃ ext_page table,
    py_getitem ext page_key = Ok (PDict ext_page)
    ∧ dict_get ext_page "node_features" = Some (PDict table)
    ∧ dict_get table region_id = None
    ∧ dict_get table "default" = None.

Definition edge_entries_missing (page_key id_a id_b : string) (ext : pyval)
  : Prop :=
  ∃ ext_page table,
    py_getitem ext page_key = Ok (PDict ext_page)
    ∧ dict_get ext_page "edge_features" = Some (PDict table)
    ∧ (dict_get table id_a = None
       ∨ ∃ row, dict_get table id_a = Some (PDict row)
                ∧ dict_get row id_b = None)
    ∧ dict_get table "default" = None.

(** ** Ground-truth relations *)

(** An entry of the region-to-article dictionary. *)
Inductive article_ids : Type :=
| NoArticle
| Single (a : string)
| Multiple (l : list string).

#[global] Instance article_ids_eq_dec : EqDecision article_ids.
Proof. solve_decision. Defined.

(** The id appended to [tr_gt_article_ids] for one region. *)
Definition effective_id (tr_article_ids : article_ids) : article_ids :=
  match tr_article_ids with
  | Multiple (assign_id :: _ :: _) => Single assign_id
  | other => other
  end.

Fixpoint tr_gt_article_ids (article_dict : gmap string article_ids)
    (text_regions : list TextRegion) : result (list article_ids) :=
  match text_regions with
  | [] => Ok []
  | text_region :: rest =>
      match article_dict !! tr_id text_region with
      | None => Raise KeyError
      | Some tr_article_ids =>
          ids ← tr_gt_article_ids article_dict rest;
          Ok (effective_id tr_article_ids :: ids)
      end
  end.

(** A relation [[1, i, j]]. *)
Definition relation : Type := nat * nat * nat.

Definition build_gt (ids : list article_ids) : list relation :=
  concat (imap (fun i i_id =>
    concat (imap (fun j j_id =>
      if bool_decide (i_id = j_id) then [(1%nat, i, j)] else []) ids)) ids).

Definition ground_truth_relations (article_dict : gmap string article_ids)
    (text_regions : list TextRegion) : result (list relation) :=
  ids ← tr_gt_article_ids article_dict text_regions;
  Ok (build_gt ids).

(** ** Input and target of one page *)

(** What [get_data_from_pagexml] extracts.  The two region lists are the
    entries of the region dictionary under ['TextRegion'] and
    ['SeparatorRegion'], [None] when the key is absent. *)
Record PageData : Type := {
  pd_text_regions : option (list TextRegion);
  pd_separator_regions : option (list SeparatorRegion);
  pd_text_lines : list TextLine;
  pd_article_dict : gmap string article_ids;
  pd_resolution : Z * Z;
}.

(** The outputs of [build_input_and_target] that do not come from the visual
    region builder. *)
Record GraphData : Type := {
  num_nodes : nat;
  interacting_nodes : list edge;
  num_interacting_nodes : nat;
  node_features : list (list pyval);
  edge_features : list (list pyval);
  gt_relations : list relation;
  gt_num_relations : nat;
}.

Definition str_in (s : string) (choices : list string) : bool :=
  existsb (String.eqb s) choices.

Section BuildInputAndTarget.

(** Collaborators outside the repository. *)
Variable get_data_from_pagexml : string -> result PageData.
Variable basename : string -> string.
Variable get_img_from_page_path : string -> option string.
(** The distance transform with the per-line stroke widths and heights and
    their maxima. *)
Variable swt_data : Type.
Variable stroke_width_transform : string -> list TextLine -> result swt_data.
(** The 15 geometric, baseline, stroke width, text height and heading
    features of a region (floating point). *)
Variable base_node_feature :
  PageData -> swt_data -> TextRegion -> result (list pyval).
Variable position : Type.
Variable round_base : list position -> list position.
Variable Delaunay : list position -> result (list nat * list nat).
(** Columns 2:4 of the node features, scaled back by the resolution. *)
Variable node_centers : PageData -> list (list pyval) -> list position.
Variable intersects : LineString -> LineString -> bool.
Variable polygon_bounding_box : list point -> Z * Z.
(** [np.array(rows, dtype=np.float32)]. *)
Variable np_array_float32 : list (list pyval) -> result (list (list pyval)).

Definition get_textline_stroke_widths_heights_dist_trafo
    (page_path : string) (text_lines : option (list TextLine))
    (img_path : option string) : result swt_data :=
  let img_path :=
    match img_path with
    | None => get_img_from_page_path page_path
    | Some p => Some p
    end in
  match img_path with
  | None | Some EmptyString => Raise ValueError
  | Some p =>
      match text_lines with
      | Some lines => stroke_width_transform p lines
      | None => Raise TypeError
      end
  end.

(** Body of [for text_region in text_regions] that builds one row of
    [node_features]. *)
Definition node_feature_row (page_path : string) (page : PageData)
    (swt : swt_data) (external_data : list pyval)
    (text_region : TextRegion) : result (list pyval) :=
  node_feature ← base_node_feature page swt text_region;
  node_external_features (basename page_path) (tr_id text_region)
    external_data node_feature.

(** The edge set: lines 728-733.  In the delaunay branch the rows are
    converted to an array before the centres are cut out of it. *)
Definition build_interacting_nodes (interaction : string) (page : PageData)
    (num_nodes : nat) (node_features : list (list pyval))
  : result (list edge) :=
  if String.eqb interaction "fully" || (num_nodes <? 4)%nat
  then Ok (fully_connected_edges num_nodes)
  else
    node_features_array ← np_array_float32 node_features;
    delaunay_edges position round_base Delaunay num_nodes
      (node_centers page node_features_array).

(** The separator block of one edge; the separator regions are handed on
    as the classifier leaves them. *)
Definition edge_separator_feature (separators : string)
    (text_region_a text_region_b : TextRegion)
    (separator_regions : option (list SeparatorRegion))
  : result (list pyval * option (list SeparatorRegion)) :=
  match separator_regions with
  | Some ((_ :: _) as seps) =>
      if String.eqb separators "line" then
        '(feature, seps') ←
          get_edge_separator_feature_line intersects
            text_region_a text_region_b seps;
        Ok (PNum <$> (feature : list Q), Some seps')
      else
        feature ← get_edge_separator_feature_bb
                    text_region_a text_region_b seps;
        Ok (PNum <$> (feature : list Q), separator_regions)
  | _ => Ok ([PNum 0; PNum 0], separator_regions)
  end.

Definition py_index {A} (l : list A) (i : nat) : result A :=
  match l !! i with
  | Some x => Ok x
  | None => Raise IndexError
  end.

(** [for i in range(num_interacting_nodes)]: one row of [edge_features] per
    edge. *)
Fixpoint edge_features_loop (page_path separators : string)
    (text_regions : list TextRegion) (tb_sim_dict : option pyval)
    (external_data : list pyval) (edges : list edge)
    (separator_regions : option (list SeparatorRegion))
  : result (list (list pyval)) :=
  match edges with
  | [] => Ok []
  | (node_a, node_b) :: rest =>
      text_region_a ← py_index text_regions node_a;
      text_region_b ← py_index text_regions node_b;
      '(edge_feature, separator_regions') ←
        edge_separator_feature separators text_region_a text_region_b
          separator_regions;
      edge_feature ←
        match tb_sim_dict with
        | Some d =>
            if py_truthy d
            then edge_similarity_feature (tr_id text_region_a)
                   (tr_id text_region_b) d edge_feature
            else Ok edge_feature
        | None => Ok edge_feature
        end;
      edge_feature ←
        edge_external_features (basename page_path) (tr_id text_region_a)
          (tr_id text_region_b) external_data edge_feature;
      rows ← edge_features_loop page_path separators text_regions
               tb_sim_dict external_data rest separator_regions';
      Ok (edge_feature :: rows)
  end.

(** The regions of a page that survive the discard pass. *)
Definition surviving_regions (page : PageData) : list TextRegion :=
  match pd_text_regions page with
  | Some text_regions =>
      filter (λ tr, survives polygon_bounding_box tr) text_regions
  | None => []
  end.

(** [build_input_and_target] called with [visual_regions=False], its
    default: the two visual-region blocks (lines 793-820) are not entered.
    [sim_feat_extractor], when given, is run on the surviving regions and
    yields its feature dictionary. *)
Definition build_input_and_target (page_path interaction separators : string)
    (external_data : list pyval)
    (sim_feat_extractor : option (list TextRegion -> result pyval))
  : result (option GraphData) :=
  if negb (str_in interaction ["fully"; "delaunay"]%string)
  then Raise AssertionError
  else if negb (str_in separators ["line"; "bb"]%string)
  then Raise AssertionError
  else
    page ← get_data_from_pagexml page_path;
    match pd_text_regions page with
    | None => Ok None
    | Some text_regions =>
        '(text_regions, text_lines) ←
          discard_text_regions_and_lines polygon_bounding_box
            text_regions (Some (pd_text_lines page));
        let num_nodes := length text_regions in
        if (num_nodes <=? 1)%nat then Ok None
        else
          swt ← get_textline_stroke_widths_heights_dist_trafo
                  page_path text_lines None;
          node_features ←
            mapM (node_feature_row page_path page swt external_data)
              text_regions;
          interacting_nodes ←
            build_interacting_nodes interaction page num_nodes node_features;
          let num_interacting_nodes := length interacting_nodes in
          tb_sim_dict ←
            match sim_feat_extractor with
            | Some run => Some <$> run text_regions
            | None => Ok None
            end;
          edge_features ←
            edge_features_loop page_path separators text_regions
              tb_sim_dict external_data interacting_nodes
              (pd_separator_regions page);
          gt_relations ←
            ground_truth_relations (pd_article_dict page) text_regions;
          node_features ← np_array_float32 node_features;
          edge_features ← np_array_float32 edge_features;
          Ok (Some {| num_nodes := num_nodes;
                      interacting_nodes := interacting_nodes;
                      num_interacting_nodes := num_interacting_nodes;
                      node_features := node_features;
                      edge_features := edge_features;
                      gt_relations := gt_relations;
                      gt_num_relations := length gt_relations |})
    end.

End BuildInputAndTarget.

(** ** The batch driver *)

(** The json files written so far and the pages recorded in
    [skipped_pages]. *)
Record batch_state : Type := {
  written : list (string * GraphData);
  skipped_pages : list string;
}.

Definition batch_app (st st' : batch_state) : batch_state :=
  {| written := written st ++ written st';
     skipped_pages := skipped_pages st ++ skipped_pages st' |}.

Section GenerateFeatureJsons.

(** [build_input_and_target] with the arguments the driver passes. *)
Variable build : string -> result (option GraphData).

(** [for page_path in page_paths]: the state when the loop ends, and how it
    ends. *)
Fixpoint feature_json_loop (page_paths : list string) (st : batch_state)
  : batch_state * result unit :=
  match page_paths with
  | [] => (st, Ok ())
  | page_path :: rest =>
      match build page_path with
      | Raise e => (st, Raise e)
      | Ok (Some graph) =>
          feature_json_loop rest
            {| written := written st ++ [(page_path, graph)];
               skipped_pages := skipped_pages st |}
      | Ok None =>
          feature_json_loop rest
            {| written := written st;
               skipped_pages := skipped_pages st ++ [page_path] |}
      end
  end.

Definition generate_feature_jsons (page_paths : list string)
  : batch_state * result unit :=
  feature_json_loop page_paths {| written := []; skipped_pages := [] |}.

(** The batch behaviour the specification asks for: the driver returns
    normally, a page whose build fails is among the skipped pages, and
    every page that builds is written. *)
Definition skips_failing_pages (page_paths : list string) : Prop :=
  let '(st, outcome) := generate_feature_jsons page_paths in
  outcome = Ok ()
  ∧ ∀ page_path, page_path ∈ page_paths →
      (is_ok (build page_path) = false → page_path ∈ skipped_pages st)
      ∧ (∀ graph, build page_path = Ok (Some graph) →
                  (page_path, graph) ∈ written st).

(** The batch behaviour of the code: the pages written and skipped among
    [page_paths] when none of them raises, and the place of the first
    page that raises. *)
Definition returns_None (page_path : string) : bool :=
  match build page_path with
  | Ok None => true
  | _ => false
  end.

Definition batch_of (page_paths : list string) : batch_state :=
  {| written :=
       omap (λ page_path,
               match build page_path with
               | Ok (Some graph) => Some (page_path, graph)
               | _ => None
               end) page_paths;
     skipped_pages := filter (λ page_path, returns_None page_path) page_paths |}.

Fixpoint first_raise (page_paths : list string)
  : option (list string * exn) :=
  match page_paths with
  | [] => None
  | page_path :: rest =>
      match build page_path with
      | Raise e => Some ([], e)
      | Ok _ =>
          match first_raise rest with
          | Some (before, e) => Some (page_path :: before, e)
          | None => None
          end
      end
  end.

End GenerateFeatureJsons.

(** ** The bounding-box rules in the words of the specification *)

(** Closed ranges [lo1, hi1] and [lo2, hi2] overlap. *)
Definition ranges_overlap (lo1 hi1 lo2 hi2 : Z) : Prop :=
  hi1 >= lo2 ∧ lo1 <= hi2.

(** Vertical separation as the specification words it: the midpoint of the
    separator (here doubled) strictly between the x-ranges, and a y-overlap
    with one of the regions. *)
Definition vertically_separated_strict
    (min_x_a max_x_a min_y_a max_y_a
     min_x_b max_x_b min_y_b max_y_b
     min_x_sep max_x_sep min_y_sep max_y_sep : Z) : Prop :=
  ((2 * max_x_a < min_x_sep + max_x_sep ∧ min_x_sep + max_x_sep < 2 * min_x_b)
   ∨ (2 * max_x_b < min_x_sep + max_x_sep
      ∧ min_x_sep + max_x_sep < 2 * min_x_a))
  ∧ (ranges_overlap min_y_a max_y_a min_y_sep max_y_sep
     ∨ ranges_overlap min_y_b max_y_b min_y_sep max_y_sep).

(** Both regions entirely left of, or both entirely right of, the
    separator's x-range. *)
Definition both_on_one_side
    (min_x_a max_x_a min_x_b max_x_b min_x_sep max_x_sep : Z) : Prop :=
  (max_x_a <= min_x_sep ∧ max_x_b <= min_x_sep)
  ∨ (min_x_a >= max_x_sep ∧ min_x_b >= max_x_sep).

(** Horizontal separation as the specification words it: the y-range of the
    separator strictly between the y-ranges of the regions. *)
Definition horizontally_separated_strict
    (min_x_a max_x_a min_y_a max_y_a
     min_x_b max_x_b min_y_b max_y_b
     min_x_sep max_x_sep min_y_sep max_y_sep : Z) : Prop :=
  ((max_y_a < min_y_sep ∧ max_y_sep < min_y_b)
   ∨ (max_y_b < min_y_sep ∧ max_y_sep < min_y_a))
  ∧ ¬ both_on_one_side min_x_a max_x_a min_x_b max_x_b min_x_sep max_x_sep.

(** The same rules with the comparisons the code makes. *)
Definition vertically_separated_rule
    (min_x_a max_x_a min_y_a max_y_a
     min_x_b max_x_b min_y_b max_y_b
     min_x_sep max_x_sep min_y_sep max_y_sep : Z) : Prop :=
  ((2 * max_x_a <= min_x_sep + max_x_sep
    ∧ min_x_sep + max_x_sep <= 2 * min_x_b)
   ∨ (2 * max_x_b <= min_x_sep + max_x_sep
      ∧ min_x_sep + max_x_sep <= 2 * min_x_a))
  ∧ (ranges_overlap min_y_a max_y_a min_y_sep max_y_sep
     ∨ ranges_overlap min_y_b max_y_b min_y_sep max_y_sep).

Definition horizontally_separated_rule
    (min_x_a max_x_a min_y_a max_y_a
     min_x_b max_x_b min_y_b max_y_b
     min_x_sep max_x_sep min_y_sep max_y_sep : Z) : Prop :=
  ((min_y_a <= min_y_sep ∧ max_y_sep <= max_y_b)
   ∨ (min_y_b <= min_y_sep ∧ max_y_sep <= max_y_a))
  ∧ ¬ both_on_one_side min_x_a max_x_a min_x_b max_x_b min_x_sep max_x_sep.

(** ** Effect of the line strategy on a separator region *)

(** A separator comes back with its own point list or with its first point
    appended. *)
Definition closed_or_same (s s' : SeparatorRegion) : Prop :=
  s' = s
  ∨ ∃ p0, head (sr_points s) = Some p0
          ∧ s' = set_points_list s (sr_points s ++ [p0]).

(** ** A page fragment used in the examples *)

(** Two text blocks side by side and a vertical bar between them, tagged
    ['vertical'], 4 pixels wide and 12 pixels high. *)
Definition example_line (id text : string) : TextLine :=
  {| tl_id := id; tl_text := text |}.

Definition example_region_a : TextRegion :=
  {| tr_id := "r1";
     tr_points := [(0, 0); (10, 0); (10, 10); (0, 10)];
     tr_region_type := "paragraph";
     tr_text_lines := [example_line "r1l1" "Lorem"] |}.

Definition example_region_b : TextRegion :=
  {| tr_id := "r2";
     tr_points := [(40, 0); (50, 0); (50, 10); (40, 10)];
     tr_region_type := "paragraph";
     tr_text_lines := [example_line "r2l1" "ipsum"] |}.

Definition example_vertical_bar : SeparatorRegion :=
  {| sr_id := "s1";
     sr_points := [(24, 0); (28, 0); (28, 12); (24, 12)];
     sr_orientation := Some "vertical"%string |}.

(** A block whose centre lies inside the bounding box of a wide bar. *)
Definition example_region_on_bar : TextRegion :=
  {| tr_id := "r5";
     tr_points := [(17, 45); (27, 45); (27, 55); (17, 55)];
     tr_region_type := "paragraph";
     tr_text_lines := [example_line "r5l1" "dolor"] |}.

Definition example_region_left : TextRegion :=
  {| tr_id := "r6";
     tr_points := [(0, 45); (10, 45); (10, 55); (0, 55)];
     tr_region_type := "paragraph";
     tr_text_lines := [example_line "r6l1" "sit"] |}.

Definition example_wide_bar : SeparatorRegion :=
  {| sr_id := "s4";
     sr_points := [(20, 0); (30, 0); (30, 100); (20, 100)];
     sr_orientation := Some "horizontal"%string |}.

(** A region whose only line carries no text, with that line. *)
Definition example_empty_line : TextLine := example_line "r0l1" "".

Definition example_empty_region : TextRegion :=
  {| tr_id := "r0";
     tr_points := [(0, 20); (50, 20); (50, 40); (0, 40)];
     tr_region_type := "paragraph";
     tr_text_lines := [example_empty_line] |}.

(** An external source that knows the page but neither region [r1] nor the
    pair [(r1, r2)], and has no defaults. *)
Definition example_external_source : pyval :=
  PDict [("page1.xml",
          PDict [("node_features", PDict [("r9", PList [PNum (3 # 10)])]);
                 ("edge_features",
                  PDict [("r1", PDict [("r3", PList [PNum (7 # 10)])])])])]%string.

(** ** The ground truth in the words of the specification *)

(** The effective article id of a region as the specification words it:
    for a multi-id list, a list of more than one id, the first id of the
    list; every other entry is its own effective id.  A list of one id
    is therefore not the id it holds. *)
Definition spec_effective_id (entry : article_ids) : article_ids :=
  match entry with
  | Multiple ids =>
      if bool_decide (1 < length ids)%nat
      then from_option Single entry (head ids)
      else entry
  | _ => entry
  end.

(** Regions [i] and [j] of the page have equal effective article ids. *)
Definition same_article (article_dict : gmap string article_ids)
    (text_regions : list TextRegion) (i j : nat) : Prop :=
  ∃ tr_i tr_j ids_i ids_j,
    text_regions !! i = Some tr_i ∧ text_regions !! j = Some tr_j
    ∧ article_dict !! tr_id tr_i = Some ids_i
    ∧ article_dict !! tr_id tr_j = Some ids_j
    ∧ spec_effective_id ids_i = spec_effective_id ids_j.

(** Article assignments for the example page: [r1] is ambiguous. *)
Definition example_article_dict : gmap string article_ids :=
  {[ "r1"%string := Multiple ["a1"; "a2"]%string;
     "r2"%string := Single "a1"%string ]}.

(** ** Example collaborators and pages *)

(** Stand-ins for the collaborators, enough to run the model: the bounding
    box of a polygon by its extent, no floating-point features, a
    triangulation that always fails, float conversion as the identity. *)
Definition example_polygon_bounding_box (points : list point) : Z * Z :=
  match get_bounding_box points with
  | Ok (min_x, max_x, min_y, max_y) => (max_x - min_x, max_y - min_y)
  | Raise _ => (0, 0)
  end.

Definition example_region (id : string) (x y : Z) : TextRegion :=
  {| tr_id := id;
     tr_points := [(x, y); (x + 10, y); (x + 10, y + 10); (x, y + 10)];
     tr_region_type := "paragraph";
     tr_text_lines := [example_line (id ++ "l1") "text"] |}.

Definition example_page (text_regions : list TextRegion) : PageData :=
  {| pd_text_regions := Some text_regions;
     pd_separator_regions := Some [example_vertical_bar];
     pd_text_lines := text_regions ≫= tr_text_lines;
     pd_article_dict :=
       list_to_map ((λ tr, (tr_id tr, Single "a1"%string)) <$> text_regions);
     pd_resolution := (100, 100) |}.

Definition example_page1 : PageData :=
  example_page [example_region_a; example_region_b; example_region "r3" 0 40].

(** [page1.xml] has three regions, [page4.xml] four, [page_no_image.xml]
    two and no image file beside it, [page_empty.xml] no text region. *)
Definition example_get_data_from_pagexml (page_path : string)
  : result PageData :=
  if String.eqb page_path "page1.xml" then Ok example_page1
  else if String.eqb page_path "page4.xml" then
    Ok (example_page [example_region_a; example_region_b;
                      example_region "r3" 0 40; example_region "r4" 40 40])
  else if String.eqb page_path "page_no_image.xml" then
    Ok (example_page [example_region_a; example_region_b])
  else if String.eqb page_path "page_empty.xml" then
    Ok {| pd_text_regions := None; pd_separator_regions := None;
          pd_text_lines := []; pd_article_dict := ∅;
          pd_resolution := (100, 100) |}
  else Raise ValueError.

Definition example_get_img_from_page_path (page_path : string)
  : option string :=
  if String.eqb page_path "page_no_image.xml" then None
  else Some "image.jpg"%string.

Definition example_build (interaction separators : string)
    (page_path : string) : result (option GraphData) :=
  build_input_and_target
    example_get_data_from_pagexml (λ path, path)
    example_get_img_from_page_path unit (λ _ _, Ok ())
    (λ _ _ _, Ok []) unit (λ positions, positions)
    (λ _, Raise QhullError) (λ _ _, [])
    segments_intersect example_polygon_bounding_box (λ rows, Ok rows)
    page_path interaction separators [] None.

(** An external source that has two values for region [r1] of the page
    and nothing for the other regions, and no default. *)
Definition example_external_wide : pyval :=
  PDict [("page1.xml",
          PDict [("node_features",
                  PDict [("r1", PList [PNum (3 # 10); PNum (4 # 10)])])])]%string.

(** [np.array(rows, dtype=np.float32)] on rows of numbers: rows of unequal
    length have no common shape, and the conversion raises
    [ValueError]. *)
Definition example_np_array_float32 (rows : list (list pyval))
  : result (list (list pyval)) :=
  match rows with
  | [] => Ok []
  | row :: rest =>
      if forallb (λ r, (length r =? length row)%nat) rest then Ok rows
      else Raise ValueError
  end.

(** The build of a page with external data, all nodes connected and the
    bounding-box strategy, the rows converted as above. *)
Definition example_build_external (external_data : list pyval)
    (page_path : string) : result (option GraphData) :=
  build_input_and_target
    example_get_data_from_pagexml (λ path, path)
    example_get_img_from_page_path unit (λ _ _, Ok ())
    (λ _ _ _, Ok []) unit (λ positions, positions)
    (λ _, Raise QhullError) (λ _ _, [])
    segments_intersect example_polygon_bounding_box example_np_array_float32
    page_path "fully" "bb" external_data None.

(** ** Further definitions: the separator rules of one separator region *)

(** The two rules on boxes given as tuples. *)
Definition vertical_rule (bb_a bb_b bb_sep : Z * Z * Z * Z) : bool :=
  let '(min_x_a, max_x_a, min_y_a, max_y_a) := bb_a in
  let '(min_x_b, max_x_b, min_y_b, max_y_b) := bb_b in
  let '(min_x_s, max_x_s, min_y_s, max_y_s) := bb_sep in
  is_vertically_separated min_x_a max_x_a min_y_a max_y_a
    min_x_b max_x_b min_y_b max_y_b min_x_s max_x_s min_y_s max_y_s.

Definition horizontal_rule (bb_a bb_b bb_sep : Z * Z * Z * Z) : bool :=
  let '(min_x_a, max_x_a, min_y_a, max_y_a) := bb_a in
  let '(min_x_b, max_x_b, min_y_b, max_y_b) := bb_b in
  let '(min_x_s, max_x_s, min_y_s, max_y_s) := bb_sep in
  is_horizontally_separated min_x_a max_x_a min_y_a max_y_a
    min_x_b max_x_b min_y_b max_y_b min_x_s max_x_s min_y_s max_y_s.

(** Separator [s] on its own sets the horizontal (vertical) flag of the
    bounding-box strategy: it resolves to an orientation other than (equal
    to) ['vertical'] and the matching rule holds. *)
Definition bb_sets_horizontal (bb_a bb_b : Z * Z * Z * Z)
    (s : SeparatorRegion) : bool :=
  match get_bounding_box (sr_points s) with
  | Ok bb_sep =>
      negb (String.eqb (bb_orientation s bb_sep) "vertical")
      && horizontal_rule bb_a bb_b bb_sep
  | Raise _ => false
  end.

Definition bb_sets_vertical (bb_a bb_b : Z * Z * Z * Z)
    (s : SeparatorRegion) : bool :=
  match get_bounding_box (sr_points s) with
  | Ok bb_sep =>
      String.eqb (bb_orientation s bb_sep) "vertical"
      && vertical_rule bb_a bb_b bb_sep
  | Raise _ => false
  end.

(** The x-ranges of two boxes share more than a boundary point. *)
Definition x_ranges_overlap (bb_a bb_b : Z * Z * Z * Z) : Prop :=
  bb_b.1.1.1 < bb_a.1.1.2 ∧ bb_a.1.1.1 < bb_b.1.1.2.

(** ** Further definitions: closing a separator polygon *)

(** A polygon whose first and last point coincide. *)
Definition closed_polygon (polygon : list point) : Prop :=
  ∃ p0, head polygon = Some p0 ∧ List.last polygon p0 = p0.

(** The list [line_poly_intersection] leaves behind. *)
Definition close_polygon (polygon : list point) : list point :=
  match polygon with
  | [] => []
  | p0 :: _ =>
      if negb (point_eqb p0 (List.last polygon p0))
      then polygon ++ [p0] else polygon
  end.

Definition close_separator (s : SeparatorRegion) : SeparatorRegion :=
  set_points_list s (close_polygon (sr_points s)).

(** [s'] is [s], or [s] with its polygon closed. *)
Definition closes (s s' : SeparatorRegion) : Prop :=
  s' = s ∨ s' = close_separator s.

(** ** Further definitions: the tiers of the external feature lookup *)

(** What a feature step may do: extend the vector, or raise a
    [TypeError]. *)
Definition extends_or_TypeError (feature : list pyval)
    (r : result (list pyval)) : Prop :=
  match r with
  | Ok feature' => feature `prefix_of` feature'
  | Raise e => e = TypeError
  end.

(** The source has the page, and the page has the table [name] as a
    dictionary. *)
Definition has_feature_table (ext : pyval) (page_key name : string)
    (table : list (string * pyval)) : Prop :=
  ∃ ext_page,
    py_getitem ext page_key = Ok (PDict ext_page)
    ∧ dict_get ext_page name = Some (PDict table).

(** The lookup [table[id_a][id_b]] fails with an exception the edge loop
    catches: a key is missing, or the row is not a dictionary. *)
Definition pair_lookup_fails (table : list (string * pyval))
    (id_a id_b : string) : Prop :=
  match dict_get table id_a with
  | None => True
  | Some (PDict row) => dict_get row id_b = None
  | Some _ => True
  end.

(** ** Further definitions: the rows of the edge loop *)

(** Row [row] was built for edge [(i, j)] of the page: it begins with the
    feature the line strategy computes for the two regions on the separator
    regions [seps]. *)
Definition line_row (intersects : LineString -> LineString -> bool)
    (text_regions : list TextRegion) (seps : list SeparatorRegion)
    (e : edge) (row : list pyval) : Prop :=
  ∃ tr_a tr_b feature seps',
    text_regions !! e.1 = Some tr_a ∧ text_regions !! e.2 = Some tr_b
    ∧ get_edge_separator_feature_line intersects tr_a tr_b seps
      = Ok (feature, seps')
    ∧ (PNum <$> feature) `prefix_of` row.

(** ** Further example data *)

(** An untagged bar between the two example blocks, five times as high as
    wide, with its polygon open as read from the page. *)
Definition example_open_bar : SeparatorRegion :=
  {| sr_id := "s2";
     sr_points := [(24, 0); (28, 0); (28, 20); (24, 20)];
     sr_orientation := None |}.

(** A triangulation of three points in compressed-row form; it fails on
    an empty list of positions. *)
Definition example_Delaunay (positions : list nat)
  : result (list nat * list nat) :=
  match positions with
  | [] => Raise QhullError
  | _ => Ok ([0; 2; 4; 6]%nat, [1; 2; 0; 2; 0; 1]%nat)
  end.

(** An external source that knows region [r1] and the pair [(r1, r2)] of
    the page and has a default in both tables. *)
Definition example_external_full : pyval :=
  PDict [("page1.xml",
          PDict [("node_features",
                  PDict [("r1", PList [PNum (3 # 10)]);
                         ("default", PNum (1 # 4))]);
                 ("edge_features",
                  PDict [("r1", PDict [("r2", PList [PNum (7 # 10)])]);
                         ("default", PList [PNum (1 # 2)])])])]%string.

(** An untagged rule below the upper example blocks, across the page. *)
Definition example_horizontal_rule : SeparatorRegion :=
  {| sr_id := "s5";
     sr_points := [(0, 14); (50, 14); (50, 16); (0, 16)];
     sr_orientation := None |}.

(** The graph of [page1.xml] with all nodes connected and the line
    strategy. *)
Definition example_graph1 : GraphData :=
  {| num_nodes := 3;
     interacting_nodes := [(0, 1); (0, 2); (1, 0); (1, 2); (2, 0); (2, 1)]%nat;
     num_interacting_nodes := 6;
     node_features := [[]; []; []];
     edge_features :=
       [[PNum 1; PNum 0]; [PNum 0; PNum 0]; [PNum 1; PNum 0];
        [PNum 0; PNum 0]; [PNum 0; PNum 0]; [PNum 0; PNum 0]];
     gt_relations :=
       [(1, 0, 0); (1, 0, 1); (1, 0, 2); (1, 1, 0); (1, 1, 1); (1, 1, 2);
        (1, 2, 0); (1, 2, 1); (1, 2, 2)]%nat;
     gt_num_relations := 9 |}.

(** ** Regions aligned with a horizontal separator *)

(** [aligned[separator_region.id]]: the ids of the text regions whose
    bounding box overlaps the x-range of the separator. *)
Fixpoint aligned_text_regions (min_x_s max_x_s : Z)
    (text_regions : list TextRegion) : result (list string) :=
  match text_regions with
  | [] => Ok []
  | text_region :: rest =>
      '(min_x_a, max_x_a, _, _) ← get_bounding_box (tr_points text_region);
      ids ← aligned_text_regions min_x_s max_x_s rest;
      (* horizontally aligned *)
      if (max_x_a >=? min_x_s) && (min_x_a <=? max_x_s)
      then Ok (tr_id text_region :: ids) else Ok ids
  end.

(** The loop of [get_separator_aligned_regions] over the separator
    regions; [aligned] is the dictionary built so far. *)
Fixpoint separator_aligned_loop (separator_regions : list SeparatorRegion)
    (text_regions : list TextRegion) (aligned : gmap string (list string))
  : result (gmap string (list string)) :=
  match separator_regions with
  | [] => Ok aligned
  | s :: rest =>
      let orientation := get_orientation s in
      if decide (orientation = Some "vertical"%string)
      then separator_aligned_loop rest text_regions aligned
      else
        '(min_x_s, max_x_s, min_y_s, max_y_s) ←
          get_bounding_box (sr_points s);
        (* ratio check of bounding box *)
        if match orientation with
           | None =>
               let width := bb_width min_x_s max_x_s in
               let height := bb_width min_y_s max_y_s in
               negb (ratio_lt_5 height width)
           | Some _ => false
           end
        then separator_aligned_loop rest text_regions aligned
        else
          ids ← aligned_text_regions min_x_s max_x_s text_regions;
          separator_aligned_loop rest text_regions (<[sr_id s := ids]> aligned)
  end.

Definition get_separator_aligned_regions
    (separator_regions : list SeparatorRegion)
    (text_regions : list TextRegion) : result (gmap string (list string)) :=
  separator_aligned_loop separator_regions text_regions ∅.

(** The two rule checks of [is_aligned_horizontally_separated]. *)
Definition aligned_rule_check (bb_a bb_b bb_s : Z * Z * Z * Z) : bool :=
  let '(min_x_a, max_x_a, min_y_a, max_y_a) := bb_a in
  let '(min_x_b, max_x_b, min_y_b, max_y_b) := bb_b in
  let '(min_x_s, max_x_s, min_y_s, max_y_s) := bb_s in
  (* not vertically aligned *)
  if negb (((min_y_a <=? min_y_s) && (max_y_s <=? max_y_b))
           || ((min_y_b <=? min_y_s) && (max_y_s <=? max_y_a)))
  then false
  (* not horizontally aligned *)
  else if negb (((max_x_a >=? min_x_s) && (max_x_b >=? min_x_s))
                && ((min_x_a <=? max_x_s) && (min_x_b <=? max_x_s)))
  then false
  else true.

(** The loop of [is_aligned_horizontally_separated]: [Some true] is
    [return True], [None] the end of the function body. *)
Fixpoint aligned_loop (bb_a bb_b : Z * Z * Z * Z)
    (separator_regions : list SeparatorRegion) : result (option bool) :=
  match separator_regions with
  | [] => Ok None
  | s :: rest =>
      bb_s ← get_bounding_box (sr_points s);
      let orientation := bb_orientation s bb_s in
      (* we only care about horizontal separators *)
      if String.eqb orientation "vertical" then aligned_loop bb_a bb_b rest
      else if aligned_rule_check bb_a bb_b bb_s then Ok (Some true)
      else aligned_loop bb_a bb_b rest
  end.

Definition is_aligned_horizontally_separated
    (text_region_a text_region_b : TextRegion)
    (separator_regions : list SeparatorRegion) : result (option bool) :=
  bb_a ← get_bounding_box (tr_points text_region_a);
  bb_b ← get_bounding_box (tr_points text_region_b);
  aligned_loop bb_a bb_b separator_regions.

Section Heading.

(** [str.lower]. *)
Variable lower : string -> string.

Definition is_heading (text_region : TextRegion) : bool :=
  String.eqb (lower (tr_region_type text_region)) "heading".

Definition is_aligned_heading_separated
    (text_region_a text_region_b : TextRegion) : result bool :=
  let heading_a := is_heading text_region_a in
  let heading_b := is_heading text_region_b in
  (* both headings present *)
  if heading_a && heading_b then Ok false
  (* no heading present *)
  else if negb (heading_a || heading_b) then Ok false
  else
    '(min_x_a, max_x_a, min_y_a, max_y_a) ←
      get_bounding_box (tr_points text_region_a);
    '(min_x_b, max_x_b, min_y_b, max_y_b) ←
      get_bounding_box (tr_points text_region_b);
    (* not horizontally aligned *)
    if negb ((min_x_a <=? max_x_b) && (min_x_b <=? max_x_a)) then Ok false
    (* heading not vertically lower *)
    else if heading_a && negb (min_y_a >=? max_y_b) then Ok false
    else if heading_b && negb (min_y_b >=? max_y_a) then Ok false
    else Ok true.

End Heading.

(** The separator is treated as horizontal: it carries a tag other than
    ['vertical'], or no tag and a bounding box less than five times as
    high as wide. *)
Definition horizontal_separator (s : SeparatorRegion)
    (bb_s : Z * Z * Z * Z) : Prop :=
  get_bounding_box (sr_points s) = Ok bb_s
  ∧ bb_orientation s bb_s ≠ "vertical"%string.

(** The x-range of the box meets the x-range of the separator. *)
Definition x_aligned (bb bb_s : Z * Z * Z * Z) : Prop :=
  bb_s.1.1.1 ≤ bb.1.1.2 ∧ bb.1.1.1 ≤ bb_s.1.1.2.

(** The separator lies between the upper edge of one box and the lower
    edge of the other. *)
Definition y_between (bb_a bb_b bb_s : Z * Z * Z * Z) : Prop :=
  (bb_a.1.2 ≤ bb_s.1.2 ∧ bb_s.2 ≤ bb_b.2)
  ∨ (bb_b.1.2 ≤ bb_s.1.2 ∧ bb_s.2 ≤ bb_a.2).


(** * Properties *)

(** ** 32-bit arithmetic *)

Lemma wrap32_in_range z : in_int32 z -> wrap32 z = z.
Proof.
  unfold in_int32, wrap32. intros Hz.
  rewrite Z.mod_small by lia. lia.
Qed.

Lemma add32_comm a b : add32 a b = add32 b a.
Proof. unfold add32. f_equal. lia. Qed.

(** ** Bounding-box rules *)

Lemma is_vertically_separated_true
    min_x_a max_x_a min_y_a max_y_a min_x_b max_x_b min_y_b max_y_b
    min_x_sep max_x_sep min_y_sep max_y_sep :
  is_vertically_separated min_x_a max_x_a min_y_a max_y_a
    min_x_b max_x_b min_y_b max_y_b min_x_sep max_x_sep min_y_sep max_y_sep
  = true
  <-> ((2 * max_x_a <= add32 min_x_sep max_x_sep
        ∧ add32 min_x_sep max_x_sep <= 2 * min_x_b)
       ∨ (2 * max_x_b <= add32 min_x_sep max_x_sep
          ∧ add32 min_x_sep max_x_sep <= 2 * min_x_a))
      ∧ (ranges_overlap min_y_a max_y_a min_y_sep max_y_sep
         ∨ ranges_overlap min_y_b max_y_b min_y_sep max_y_sep).
Proof.
  unfold is_vertically_separated, ranges_overlap.
  generalize (add32 min_x_sep max_x_sep). intros m.
  repeat match goal with
         | |- context [ (?a <=? ?b) ] => destruct (Z.leb_spec a b)
         | |- context [ (?a >=? ?b) ] => destruct (Z.geb_spec a b)
         end; simpl; split; try done; try lia.
Qed.

Lemma is_horizontally_separated_true
    min_x_a max_x_a min_y_a max_y_a min_x_b max_x_b min_y_b max_y_b
    min_x_sep max_x_sep min_y_sep max_y_sep :
  is_horizontally_separated min_x_a max_x_a min_y_a max_y_a
    min_x_b max_x_b min_y_b max_y_b min_x_sep max_x_sep min_y_sep max_y_sep
  = true
  <-> horizontally_separated_rule min_x_a max_x_a min_y_a max_y_a
        min_x_b max_x_b min_y_b max_y_b min_x_sep max_x_sep min_y_sep max_y_sep.
Proof.
  unfold is_horizontally_separated, horizontally_separated_rule,
    both_on_one_side.
  repeat match goal with
         | |- context [ (?a <=? ?b) ] => destruct (Z.leb_spec a b)
         | |- context [ (?a >=? ?b) ] => destruct (Z.geb_spec a b)
         end; simpl; split; try done; try lia.
Qed.

(** C3, as amended: with the separator's midpoint computed without 32-bit
    overflow, [is_vertically_separated] holds iff the midpoint lies between
    the x-ranges of the two regions, bounds included, in either order, and
    one of the regions overlaps the separator's y-range;
    [is_horizontally_separated] holds iff one region starts at or above the
    separator's top while the other ends at or below its bottom, and the
    regions are not both left of or both right of the separator. *)
Theorem bb_rules_iff
    min_x_a max_x_a min_y_a max_y_a min_x_b max_x_b min_y_b max_y_b
    min_x_sep max_x_sep min_y_sep max_y_sep :
  in_int32 (min_x_sep + max_x_sep) ->
  (is_vertically_separated min_x_a max_x_a min_y_a max_y_a
     min_x_b max_x_b min_y_b max_y_b min_x_sep max_x_sep min_y_sep max_y_sep
   = true
   <-> vertically_separated_rule min_x_a max_x_a min_y_a max_y_a
         min_x_b max_x_b min_y_b max_y_b
         min_x_sep max_x_sep min_y_sep max_y_sep)
  ∧ (is_horizontally_separated min_x_a max_x_a min_y_a max_y_a
       min_x_b max_x_b min_y_b max_y_b min_x_sep max_x_sep min_y_sep max_y_sep
     = true
     <-> horizontally_separated_rule min_x_a max_x_a min_y_a max_y_a
           min_x_b max_x_b min_y_b max_y_b
           min_x_sep max_x_sep min_y_sep max_y_sep).
Proof.
  intros Hsum. split.
  - rewrite is_vertically_separated_true. unfold vertically_separated_rule.
    unfold add32. by rewrite (wrap32_in_range _ Hsum).
  - apply is_horizontally_separated_true.
Qed.

Lemma bb_rules_iff_witness :
  in_int32 (14 + 16)
  ∧ (is_vertically_separated 0 10 0 100 20 30 0 100 14 16 0 100 = true
     <-> vertically_separated_rule 0 10 0 100 20 30 0 100 14 16 0 100)
  ∧ (is_horizontally_separated 0 10 0 100 20 30 0 100 14 16 0 100 = true
     <-> horizontally_separated_rule 0 10 0 100 20 30 0 100 14 16 0 100).
Proof.
  split; [unfold in_int32; lia |].
  apply (bb_rules_iff 0 10 0 100 20 30 0 100 14 16 0 100).
  unfold in_int32; lia.
Defined.

(** The claim of C3 fails as worded: a separator whose midpoint touches the
    right edge of region A separates vertically, and a separator inside the
    common y-range of two regions separates them horizontally. *)
Lemma bb_rules_not_strict :
  (is_vertically_separated 0 10 0 100 20 30 0 100 10 10 0 100 = true
   ∧ ¬ vertically_separated_strict 0 10 0 100 20 30 0 100 10 10 0 100)
  ∧ (is_horizontally_separated 0 10 0 100 0 10 0 100 0 10 40 50 = true
     ∧ ¬ horizontally_separated_strict 0 10 0 100 0 10 0 100 0 10 40 50).
Proof.
  repeat split; try reflexivity.
  - unfold vertically_separated_strict. lia.
  - unfold horizontally_separated_strict. lia.
Qed.

(** Beyond the pixel range the midpoint wraps: a separator at x = 2^30 has
    the computed midpoint -2^30. *)
Remark is_vertically_separated_wraps :
  is_vertically_separated (- 2 ^ 30) (- 2 ^ 30) 0 10 0 10 0 10
    (2 ^ 30) (2 ^ 30) 0 10 = true.
Proof. reflexivity. Qed.

(** ** Separator classifier: the line strategy *)

(** C1: on the example page the segment between the two centres crosses the
    bar tagged ['vertical']; the line strategy answers [1.0, 0.0], the
    horizontal flag, where the tag asks for the vertical one. *)
Theorem line_strategy_vertical_tag_example :
  fst <$> get_edge_separator_feature_line segments_intersect
            example_region_a example_region_b [example_vertical_bar]
  = Ok [1%Q; 0%Q].
Proof. vm_compute. reflexivity. Qed.

(** C4: the same call leaves the bar's point list one point longer than it
    found it. *)
Theorem line_strategy_appends_to_points_list :
  snd <$> get_edge_separator_feature_line segments_intersect
            example_region_a example_region_b [example_vertical_bar]
  = Ok [set_points_list example_vertical_bar
          [(24, 0); (28, 0); (28, 12); (24, 12); (24, 0)]]
  ∧ sr_points example_vertical_bar
    = [(24, 0); (28, 0); (28, 12); (24, 12)].
Proof. split; vm_compute; reflexivity. Qed.

(** Reduction of the binds of [result] and nothing else. *)
Ltac res_simpl :=
  cbn [mbind result_bind mret result_ret fmap result_fmap].

(** Case analysis on the two calls of [line_poly_intersection] in
    [line_step]: the prior test on the corners of the box, and the test on
    the polygon itself. *)
Ltac case_box_test hit pts :=
  match goal with
  | |- context [ line_poly_intersection ?i ?l (?p :: ?ps) ] =>
      destruct (line_poly_intersection i l (p :: ps)) as [[hit pts]|];
      res_simpl
  end.

Ltac case_polygon_test s hit pts H :=
  destruct (line_poly_intersection _ _ (sr_points s)) as [[hit pts]|] eqn:H;
  res_simpl.

(** A separator tagged ['vertical'] is classified by the ratio rule: whenever
    the step hits such a separator whose box has ratio below 5, it is the
    horizontal flag that is set. *)
Lemma line_step_vertical_tag intersects tr_segment s h v h' v' s'
    min_x max_x min_y max_y :
  sr_orientation s = Some "vertical"%string ->
  get_bounding_box (sr_points s) = Ok (min_x, max_x, min_y, max_y) ->
  ratio_lt_5 (bb_width min_y max_y) (bb_width min_x max_x) = true ->
  line_step intersects tr_segment s h v = Ok (h', v', true, s') ->
  h' = true ∧ v' = v.
Proof.
  intros Htag Hbb Hratio. unfold line_step. rewrite Hbb. res_simpl.
  case_box_test prior box; [|done].
  destruct (prior || _); [|by inversion 1].
  case_polygon_test s hit pts Hpoly; [|done].
  destruct hit; [|by inversion 1].
  unfold get_orientation, set_points_list, separator_region_eq_str.
  cbn [sr_orientation]. rewrite Htag, Hratio.
  rewrite bool_decide_eq_false_2 by discriminate. by inversion 1.
Qed.

Lemma set_points_list_same s : set_points_list s (sr_points s) = s.
Proof. by destruct s. Qed.

Lemma line_poly_intersection_frame intersects line polygon hit polygon' :
  line_poly_intersection intersects line polygon = Ok (hit, polygon') ->
  polygon' = polygon
  ∨ ∃ p0, head polygon = Some p0 ∧ polygon' = polygon ++ [p0].
Proof.
  unfold line_poly_intersection. destruct polygon as [|p0 ps]; [done|].
  destruct (negb _); inversion 1; subst; eauto.
Qed.

Lemma line_step_frame intersects tr_segment s h v h' v' hit s' :
  line_step intersects tr_segment s h v = Ok (h', v', hit, s') ->
  closed_or_same s s'.
Proof.
  unfold line_step.
  destruct (get_bounding_box _) as [[[[min_x max_x] min_y] max_y]|];
    res_simpl; [|done].
  case_box_test prior box; [|done].
  destruct (prior || _); [|inversion 1; by left].
  case_polygon_test s hit' pts Hpoly; [|done].
  apply line_poly_intersection_frame in Hpoly.
  intros Hstep.
  assert (s' = set_points_list s pts) as ->.
  { destruct hit'; [|by inversion Hstep].
    repeat match type of Hstep with
           | (if ?c then _ else _) = _ => destruct c
           end; by inversion Hstep. }
  destruct Hpoly as [->|(p0 & Hhd & ->)].
  - left. apply set_points_list_same.
  - right. eauto.
Qed.

(** The line strategy only ever closes a polygon. *)
Lemma line_loop_frame intersects tr_segment seps :
  ∀ h v h' v' seps',
    line_loop intersects tr_segment seps h v = Ok (h', v', seps') ->
    Forall2 closed_or_same seps seps'.
Proof.
  induction seps as [|s rest IH]; intros h v h' v' seps'; simpl.
  - inversion 1. constructor.
  - destruct (line_step _ _ _ _ _) as [[[[h1 v1] hit] s']|] eqn:Hstep; simpl;
      [|done].
    apply line_step_frame in Hstep.
    destruct (hit && (h1 && v1)).
    + inversion 1; subst. constructor; [done|].
      apply Forall2_same_length_lookup_2; [done|].
      intros i x y Hx Hy. rewrite Hx in Hy. inversion Hy. by left.
    + destruct (line_loop _ _ rest h1 v1) as [[[h2 v2] rest']|] eqn:Hloop;
        simpl; [|done].
      inversion 1; subst. constructor; [done|]. by eapply IH.
Qed.

(** ** Symmetry of the separator classifiers *)

(** The only exception [get_bounding_box] raises. *)
Lemma get_bounding_box_raise points e :
  get_bounding_box points = Raise e -> e = IndexError.
Proof. destruct points; simpl; congruence. Qed.

Ltac raise_index_error :=
  repeat match goal with
         | H : get_bounding_box _ = Raise _ |- _ =>
             apply get_bounding_box_raise in H; subst
         end.

Lemma is_vertically_separated_sym
    min_x_a max_x_a min_y_a max_y_a min_x_b max_x_b min_y_b max_y_b
    min_x_sep max_x_sep min_y_sep max_y_sep :
  is_vertically_separated min_x_a max_x_a min_y_a max_y_a
    min_x_b max_x_b min_y_b max_y_b min_x_sep max_x_sep min_y_sep max_y_sep
  = is_vertically_separated min_x_b max_x_b min_y_b max_y_b
      min_x_a max_x_a min_y_a max_y_a min_x_sep max_x_sep min_y_sep max_y_sep.
Proof.
  unfold is_vertically_separated.
  generalize (add32 min_x_sep max_x_sep). intros m.
  repeat match goal with
         | |- context [ (?a <=? ?b) ] => destruct (a <=? b)
         | |- context [ (?a >=? ?b) ] => destruct (a >=? b)
         end; reflexivity.
Qed.

Lemma is_horizontally_separated_sym
    min_x_a max_x_a min_y_a max_y_a min_x_b max_x_b min_y_b max_y_b
    min_x_sep max_x_sep min_y_sep max_y_sep :
  is_horizontally_separated min_x_a max_x_a min_y_a max_y_a
    min_x_b max_x_b min_y_b max_y_b min_x_sep max_x_sep min_y_sep max_y_sep
  = is_horizontally_separated min_x_b max_x_b min_y_b max_y_b
      min_x_a max_x_a min_y_a max_y_a min_x_sep max_x_sep min_y_sep max_y_sep.
Proof.
  unfold is_horizontally_separated.
  repeat match goal with
         | |- context [ (?a <=? ?b) ] => destruct (a <=? b)
         | |- context [ (?a >=? ?b) ] => destruct (a >=? b)
         end; reflexivity.
Qed.

Lemma bb_rule_check_sym bb_a bb_b bb_sep orientation h v :
  bb_rule_check bb_a bb_b bb_sep orientation h v
  = bb_rule_check bb_b bb_a bb_sep orientation h v.
Proof.
  destruct bb_a as [[[? ?] ?] ?], bb_b as [[[? ?] ?] ?],
    bb_sep as [[[? ?] ?] ?]. unfold bb_rule_check.
  by rewrite is_vertically_separated_sym, is_horizontally_separated_sym.
Qed.

Lemma bb_loop_sym bb_a bb_b seps :
  ∀ h v, bb_loop bb_a bb_b seps h v = bb_loop bb_b bb_a seps h v.
Proof.
  induction seps as [|s rest IH]; intros h v; simpl; [done|].
  destruct (get_bounding_box (sr_points s)) as [bb_sep|]; simpl; [|done].
  rewrite bb_rule_check_sym.
  destruct (bb_rule_check _ _ _ _ _ _) as [h' v'].
  destruct (h' && v'); [done|apply IH].
Qed.

Lemma get_edge_separator_feature_bb_sym a b seps :
  get_edge_separator_feature_bb a b seps
  = get_edge_separator_feature_bb b a seps.
Proof.
  unfold get_edge_separator_feature_bb.
  destruct (get_bounding_box (tr_points a)) as [bb_a|] eqn:Ha,
    (get_bounding_box (tr_points b)) as [bb_b|] eqn:Hb; res_simpl;
    rewrite ?Ha, ?Hb; res_simpl; raise_index_error; try done.
  by rewrite bb_loop_sym.
Qed.

Lemma existsb_pointwise {A} (f g : A -> bool) l :
  (∀ x, f x = g x) -> existsb f l = existsb g l.
Proof. intros Hfg. induction l as [|x l IH]; simpl; [done|]. by rewrite Hfg, IH. Qed.

Lemma line_in_bounding_box_reverse l min_x max_x min_y max_y :
  line_in_bounding_box (ls_reverse l) min_x max_x min_y max_y
  = line_in_bounding_box l min_x max_x min_y max_y.
Proof.
  unfold line_in_bounding_box, bounds, ls_reverse; simpl.
  by rewrite (Z.min_comm (ls_end l).1), (Z.min_comm (ls_end l).2),
    (Z.max_comm (ls_end l).1), (Z.max_comm (ls_end l).2).
Qed.

Section LineSymmetry.

Variable intersects : LineString -> LineString -> bool.
(** The intersection test does not depend on the direction in which the
    first line is given. *)
Hypothesis intersects_reverse :
  ∀ l s, intersects (ls_reverse l) s = intersects l s.

Lemma line_poly_intersection_reverse l polygon :
  line_poly_intersection intersects (ls_reverse l) polygon
  = line_poly_intersection intersects l polygon.
Proof.
  unfold line_poly_intersection. destruct polygon as [|p0 ps]; [done|].
  do 2 f_equal. apply existsb_pointwise. intros [p1 p2].
  apply intersects_reverse.
Qed.

Lemma line_step_reverse l s h v :
  line_step intersects (ls_reverse l) s h v = line_step intersects l s h v.
Proof.
  unfold line_step.
  destruct (get_bounding_box _) as [[[[min_x max_x] min_y] max_y]|];
    res_simpl; [|done].
  by rewrite !line_poly_intersection_reverse, line_in_bounding_box_reverse.
Qed.

Lemma line_loop_reverse l seps :
  ∀ h v, line_loop intersects (ls_reverse l) seps h v
         = line_loop intersects l seps h v.
Proof.
  induction seps as [|s rest IH]; intros h v; simpl; [done|].
  rewrite line_step_reverse.
  destruct (line_step _ _ _ _ _) as [[[[h1 v1] hit] s']|]; simpl; [|done].
  destruct (hit && (h1 && v1)); [done|]. by rewrite IH.
Qed.

Lemma get_edge_separator_feature_line_sym a b seps :
  get_edge_separator_feature_line intersects a b seps
  = get_edge_separator_feature_line intersects b a seps.
Proof.
  unfold get_edge_separator_feature_line.
  destruct (get_bounding_box (tr_points a))
    as [[[[min_x_a max_x_a] min_y_a] max_y_a]|] eqn:Ha,
    (get_bounding_box (tr_points b))
    as [[[[min_x_b max_x_b] min_y_b] max_y_b]|] eqn:Hb; res_simpl;
    rewrite ?Ha, ?Hb; res_simpl; raise_index_error; try done.
  rewrite <- (line_loop_reverse
                {| ls_start := (add32 min_x_b max_x_b, add32 min_y_b max_y_b);
                   ls_end := (add32 min_x_a max_x_a, add32 min_y_a max_y_a) |}).
  reflexivity.
Qed.

End LineSymmetry.

(** C6: both strategies give the same answer for (A, B) and for (B, A); the
    line strategy for any intersection test that ignores the direction of
    the segment, and with the same effect on the separator regions. *)
Theorem separator_feature_symmetric
    (intersects : LineString -> LineString -> bool) a b seps :
  (∀ l s, intersects (ls_reverse l) s = intersects l s) ->
  get_edge_separator_feature_line intersects a b seps
  = get_edge_separator_feature_line intersects b a seps
  ∧ get_edge_separator_feature_bb a b seps
    = get_edge_separator_feature_bb b a seps.
Proof.
  intros Hrev. split.
  - by apply get_edge_separator_feature_line_sym.
  - apply get_edge_separator_feature_bb_sym.
Qed.

(** The exact intersection test ignores the direction of the segment. *)
Lemma cross_swap p q x : cross q p x = - cross p q x.
Proof. unfold cross. ring. Qed.

Lemma in_box_swap p q r : in_box q p r = in_box p q r.
Proof.
  unfold in_box.
  by rewrite (Z.min_comm q.1), (Z.min_comm q.2), (Z.max_comm q.1),
    (Z.max_comm q.2).
Qed.

Lemma eqb_opp a b : (- a =? - b) = (a =? b).
Proof. destruct (Z.eqb_spec a b), (Z.eqb_spec (- a) (- b)); lia. Qed.

Lemma eqb_opp_0 a : (- a =? 0) = (a =? 0).
Proof. destruct (Z.eqb_spec a 0), (Z.eqb_spec (- a) 0); lia. Qed.

Lemma segments_intersect_reverse l s :
  segments_intersect (ls_reverse l) s = segments_intersect l s.
Proof.
  destruct l as [p1 q1], s as [p2 q2].
  unfold segments_intersect, ls_reverse; cbn [ls_start ls_end].
  rewrite !(cross_swap q1 p1), !Z.sgn_opp, eqb_opp, !eqb_opp_0.
  rewrite !(in_box_swap q1 p1).
  rewrite (Z.eqb_sym (Z.sgn (cross p2 q2 q1))).
  repeat match goal with
         | |- context [ (?a =? ?b) ] => generalize (a =? b); intros ?
         | |- context [ in_box ?a ?b ?c ] => generalize (in_box a b c); intros ?
         end.
  repeat match goal with b : bool |- _ => destruct b end; reflexivity.
Qed.

Lemma separator_feature_symmetric_witness :
  (∀ l s, segments_intersect (ls_reverse l) s = segments_intersect l s)
  ∧ get_edge_separator_feature_line segments_intersect
      example_region_a example_region_b [example_vertical_bar]
    = get_edge_separator_feature_line segments_intersect
        example_region_b example_region_a [example_vertical_bar]
  ∧ get_edge_separator_feature_bb
      example_region_a example_region_b [example_vertical_bar]
    = get_edge_separator_feature_bb
        example_region_b example_region_a [example_vertical_bar].
Proof.
  split; [exact segments_intersect_reverse|].
  apply (separator_feature_symmetric segments_intersect).
  exact segments_intersect_reverse.
Defined.

(** On the example page the bounding-box strategy reads the tag and sets the
    vertical flag, and so does the line strategy once the bar carries no
    tag and is five times as high as wide. *)
Example bb_strategy_vertical_tag_example :
  get_edge_separator_feature_bb
    example_region_a example_region_b [example_vertical_bar]
  = Ok [0%Q; 1%Q].
Proof. vm_compute. reflexivity. Qed.

Example line_strategy_ratio_example :
  fst <$> get_edge_separator_feature_line segments_intersect
            example_region_a example_region_b
            [{| sr_id := "s2";
                sr_points := [(24, 0); (28, 0); (28, 20); (24, 20)];
                sr_orientation := None |}]
  = Ok [0%Q; 1%Q].
Proof. vm_compute. reflexivity. Qed.

(** A bar beyond both regions is not hit. *)
Example line_strategy_miss_example :
  get_edge_separator_feature_line segments_intersect
    example_region_a example_region_b
    [{| sr_id := "s3";
        sr_points := [(60, 0); (64, 0); (64, 12); (60, 12)];
        sr_orientation := Some "vertical"%string |}]
  = Ok ([0%Q; 0%Q],
        [{| sr_id := "s3";
            sr_points := [(60, 0); (64, 0); (64, 12); (60, 12)];
            sr_orientation := Some "vertical"%string |}]).
Proof. vm_compute. reflexivity. Qed.

(** The prior test walks the corners of the box in the order s1, s2, s3, s4:
    the upper side, a diagonal, the lower side and the other diagonal.  A
    segment that crosses the left side of the bar and ends before the
    diagonals passes neither it nor the containment test, and the bar is
    not classified although the segment meets its polygon. *)
Example line_strategy_prior_test_miss :
  (fst <$> line_poly_intersection segments_intersect
             {| ls_start := (10, 100); ls_end := (44, 100) |}
             (sr_points example_wide_bar)) = Ok true
  ∧ get_edge_separator_feature_line segments_intersect
      example_region_left example_region_on_bar [example_wide_bar]
    = Ok ([0%Q; 0%Q], [example_wide_bar]).
Proof. split; vm_compute; reflexivity. Qed.

(** ** Topology builder *)

Lemma transpose_tile N :
  transpose N (tile (arange N) N) = (λ i, replicate N i) <$> seq 0 N.
Proof.
  unfold transpose, tile, arange. apply list_fmap_ext. intros k j Hj.
  apply lookup_seq in Hj as [-> Hk]. rewrite fmap_replicate. f_equal.
  by rewrite seq_nth.
Qed.

Lemma stack_reshape_rows N :
  stack_reshape ((λ i, replicate N i) <$> seq 0 N) (tile (arange N) N)
  = concat ((λ i, pair i <$> seq 0 N) <$> seq 0 N).
Proof.
  unfold stack_reshape, tile, arange. f_equal.
  rewrite zip_with_replicate_r_eq by by rewrite length_fmap, length_seq.
  rewrite <- list_fmap_compose. apply list_fmap_ext. intros k i _.
  unfold flip, compose. apply zip_with_replicate_l. by rewrite length_seq.
Qed.

Lemma imap_seq_diag {B} (f : nat → nat → B) n :
  imap f (seq 0 n) = (λ j, f j j) <$> seq 0 n.
Proof.
  apply list_eq. intros i. rewrite list_lookup_imap, list_lookup_fmap.
  destruct (seq 0 n !! i) as [j|] eqn:Hj; simpl; [|done].
  by apply lookup_seq in Hj as [-> _].
Qed.

Lemma length_rows N M :
  length (concat ((λ i : nat, pair i <$> seq 0 N) <$> seq 0 M)) = (M * N)%nat.
Proof.
  induction M as [|M IH]; [done|].
  rewrite seq_S, fmap_app, concat_app, length_app, IH. simpl.
  rewrite length_app, length_fmap, length_seq. simpl. lia.
Qed.

(** The deleted indices are those of the diagonal. *)
Lemma del_index_iff N i j :
  (i < N)%nat → (j < N)%nat →
  (i * N + j)%nat ∈ (λ k, k * (N + 1))%nat <$> seq 0 N ↔ i = j.
Proof.
  intros Hi Hj. rewrite list_elem_of_fmap. split.
  - intros (k & Heq & Hk). apply elem_of_seq in Hk.
    assert (i = k) as -> by nia. nia.
  - intros <-. exists i. split; [lia|]. apply elem_of_seq. lia.
Qed.

Lemma np_delete_row N i (l : list nat) :
  (i < N)%nat → Forall (λ j, j < N)%nat l →
  snd <$> filter (λ kx : nat * edge, kx.1 ∉ (λ k, k * (N + 1))%nat <$> seq 0 N)
            ((λ j, ((i * N + j)%nat, (i, j))) <$> l)
  = l ≫= (λ j, if bool_decide (i = j) then [] else [(i, j)]).
Proof.
  intros Hi. induction 1 as [|j l Hj _ IH]; [done|].
  rewrite fmap_cons, filter_cons, bind_cons. cbn [fst].
  case_decide as Hin; rewrite (del_index_iff N i j Hi Hj) in Hin.
  - rewrite bool_decide_eq_false_2 by done. rewrite fmap_cons.
    cbn [snd app]. f_equal. exact IH.
  - rewrite bool_decide_eq_true_2 by done.
    exact IH.
Qed.

Lemma np_delete_rows N M :
  (M ≤ N)%nat →
  np_delete (concat ((λ i, pair i <$> seq 0 N) <$> seq 0 M))
    ((λ k, k * (N + 1))%nat <$> seq 0 N)
  = seq 0 M ≫= (λ i, seq 0 N ≫=
                       (λ j, if bool_decide (i = j) then [] else [(i, j)])).
Proof.
  induction M as [|M IH]; intros HM; [done|].
  rewrite seq_S, fmap_app, concat_app, bind_app, bind_singleton.
  rewrite <- IH by lia. unfold np_delete.
  rewrite imap_app, filter_app, fmap_app. f_equal.
  rewrite length_rows. simpl. rewrite app_nil_r, imap_fmap, imap_seq_diag.
  apply (np_delete_row N M (seq 0 N)); [lia|].
  apply Forall_forall. intros j Hj. apply elem_of_seq in Hj. lia.
Qed.

Lemma fully_connected_edges_nested_loops N :
  fully_connected_edges N = fully_connected_nested_loops N.
Proof.
  unfold fully_connected_edges, fully_connected_nested_loops.
  rewrite transpose_tile, stack_reshape_rows. unfold arange.
  by apply np_delete_rows.
Qed.

(** A row of the nested loops has one edge per target other than the
    source. *)
Lemma length_nested_row i a n :
  length (seq a n ≫= (λ j, if bool_decide (i = j) then [] else [(i, j)]))
  = (n - (if bool_decide (a ≤ i < a + n)%nat then 1 else 0))%nat.
Proof.
  revert a. induction n as [|n IH]; intros a.
  - simpl. by case_bool_decide.
  - cbn [seq]. rewrite bind_cons, length_app, IH.
    repeat case_bool_decide; simpl; lia.
Qed.

Lemma length_nested_loops N M :
  (M ≤ N)%nat →
  length (seq 0 M ≫= (λ i, seq 0 N ≫=
            (λ j, if bool_decide (i = j) then [] else [(i, j)])))
  = (M * (N - 1))%nat.
Proof.
  induction M as [|M IH]; intros HM; [done|].
  rewrite seq_S, bind_app, bind_singleton, length_app, IH by lia.
  rewrite length_nested_row. rewrite bool_decide_eq_true_2 by lia. simpl. lia.
Qed.

Lemma elem_of_nested_loops N i j :
  (i, j) ∈ fully_connected_nested_loops N ↔ (i < N ∧ j < N ∧ i ≠ j)%nat.
Proof.
  unfold fully_connected_nested_loops. rewrite list_elem_of_bind. split.
  - intros (i' & Hin & Hi'). apply list_elem_of_bind in Hin as (j' & Hin & Hj').
    apply elem_of_seq in Hi', Hj'. case_bool_decide; [by apply elem_of_nil in Hin|].
    apply list_elem_of_singleton in Hin. inversion Hin; subst. lia.
  - intros (Hi & Hj & Hne). exists i. split; [|apply elem_of_seq; lia].
    apply list_elem_of_bind. exists j. split; [|apply elem_of_seq; lia].
    rewrite bool_decide_eq_false_2 by done. apply list_elem_of_singleton. done.
Qed.

(** C7: the fully connected edge set has N(N-1) edges, no self-loop, and
    lists them source by source, target by target, the self-pairs left
    out. *)
Theorem fully_connected_edges_spec N :
  length (fully_connected_edges N) = (N * (N - 1))%nat
  ∧ (∀ i j, (i, j) ∈ fully_connected_edges N → i ≠ j)
  ∧ fully_connected_edges N = fully_connected_nested_loops N.
Proof.
  rewrite fully_connected_edges_nested_loops. split; [|split; [|done]].
  - by apply length_nested_loops.
  - intros i j Hin. apply elem_of_nested_loops in Hin. lia.
Qed.

Example fully_connected_edges_3 :
  fully_connected_edges 3 = [(0, 1); (0, 2); (1, 0); (1, 2); (2, 0); (2, 1)]%nat.
Proof. vm_compute. reflexivity. Qed.

(** ** Discard pass *)

Lemma list_remove_first `{EqDecision A} (x : A) l1 l2 :
  x ∉ l1 → list_remove x (l1 ++ x :: l2) = Ok (l1 ++ l2).
Proof.
  induction l1 as [|y l1 IH]; intros Hnotin; simpl.
  - by rewrite decide_True.
  - apply not_elem_of_cons in Hnotin as [Hne Hnotin].
    rewrite decide_False by done. by rewrite IH.
Qed.

Section DiscardProperties.

Variable polygon_bounding_box : list point -> Z * Z.

Lemma discard_loop_spec text_lines_given rest :
  ∀ pre ids n,
    ∃ n',
      discard_loop polygon_bounding_box text_lines_given
        {| ds_text_regions := filter (λ tr, survives polygon_bounding_box tr) pre ++ rest;
           ds_text_lines_to_remove := ids;
           ds_discard := n |} rest
      = Ok {| ds_text_regions := filter (λ tr, survives polygon_bounding_box tr) (pre ++ rest);
              ds_text_lines_to_remove :=
                ids ++ collected_ids polygon_bounding_box text_lines_given rest;
              ds_discard := n' |}.
Proof.
  induction rest as [|tr rest IH]; intros pre ids n.
  - exists n. simpl. unfold collected_ids. simpl. by rewrite !app_nil_r.
  - assert (survives polygon_bounding_box tr = false →
            list_remove tr (filter (λ tr, survives polygon_bounding_box tr) pre ++ tr :: rest)
            = Ok (filter (λ tr, survives polygon_bounding_box tr) pre ++ rest)) as Hremove.
    { intros Hdead. apply list_remove_first.
      rewrite list_elem_of_filter. intros [Hlive _].
      by rewrite Hdead in Hlive. }
    assert (filter (λ tr, survives polygon_bounding_box tr) (pre ++ tr :: rest)
            = filter (λ tr, survives polygon_bounding_box tr) ((pre ++ [tr]) ++ rest)) as Hsnoc.
    { by rewrite <- app_assoc. }
    cbn [discard_loop]. unfold discard_step, collected_ids.
    rewrite bind_cons. fold (collected_ids polygon_bounding_box text_lines_given rest).
    cbn [ds_text_regions ds_text_lines_to_remove ds_discard].
    unfold survives in Hremove at 1.
    destruct (has_no_text tr) eqn:Hno.
    + rewrite Hremove by done. res_simpl.
      destruct (IH (pre ++ [tr]) ids (S n)) as [n' Hloop]. exists n'.
      rewrite filter_app, filter_cons, filter_nil in Hloop.
      rewrite decide_False in Hloop
        by (unfold survives; rewrite Hno; simpl; auto).
      rewrite app_nil_r in Hloop. rewrite Hsnoc. exact Hloop.
    + destruct (too_small polygon_bounding_box tr) eqn:Hsmall.
      * rewrite Hremove by done. res_simpl.
        destruct (IH (pre ++ [tr])
                    (if text_lines_given
                     then ids ++ (tl_id <$> tr_text_lines tr) else ids)
                    (S n)) as [n' Hloop]. exists n'.
        rewrite filter_app, filter_cons, filter_nil in Hloop.
        rewrite decide_False in Hloop
          by (unfold survives; rewrite Hno, Hsmall; simpl; auto).
        rewrite app_nil_r in Hloop. rewrite Hsnoc.
        etrans; [exact Hloop|].
        destruct text_lines_given; cbn [app]; by rewrite <- ?app_assoc.
      * res_simpl.
        destruct (IH (pre ++ [tr]) ids n) as [n' Hloop]. exists n'.
        rewrite filter_app, filter_cons, filter_nil in Hloop.
        rewrite decide_True in Hloop
          by (unfold survives; rewrite Hno, Hsmall; simpl; auto).
        rewrite <- app_assoc in Hloop. rewrite Hsnoc. exact Hloop.
Qed.

(** The pass never raises; it keeps the surviving regions in order and
    drops the collected line ids from the line list. *)
Lemma discard_text_regions_and_lines_spec text_regions text_lines :
  discard_text_regions_and_lines polygon_bounding_box text_regions text_lines
  = Ok (filter (λ tr, survives polygon_bounding_box tr) text_regions,
        match collected_ids polygon_bounding_box (truthy_list text_lines) text_regions with
        | [] => text_lines
        | to_remove =>
            filter (λ line, tl_id line ∉ to_remove) <$> text_lines
        end).
Proof.
  unfold discard_text_regions_and_lines.
  destruct (discard_loop_spec (truthy_list text_lines) text_regions [] [] 0%nat)
    as [n' Hloop].
  simpl in Hloop. rewrite Hloop. res_simpl. done.
Qed.

Lemma has_no_text_false tr :
  has_no_text tr = false → has_text_line tr.
Proof.
  unfold has_no_text, has_text_line. intros Hno.
  assert (forallb (λ text_line, String.eqb (tl_text text_line) "")
            (tr_text_lines tr) = false) as Hall.
  { destruct (tr_text_lines tr); [done|exact Hno]. }
  clear Hno. induction (tr_text_lines tr) as [|line lines IH]; [done|].
  simpl in Hall. apply andb_false_iff in Hall as [Hline|Hrest].
  - exists line. split; [left|]. by apply String.eqb_neq.
  - destruct (IH Hrest) as (line' & Hin & Htext).
    exists line'. split; [by right|done].
Qed.

(** The region invariant: a region that comes out of the pass has a line
    with text and a bounding box of at least 10 by 10. *)
Lemma discard_survivors text_regions text_lines text_regions' text_lines' :
  discard_text_regions_and_lines polygon_bounding_box text_regions text_lines
  = Ok (text_regions', text_lines') →
  ∀ tr, tr ∈ text_regions' →
        tr ∈ text_regions
        ∧ has_text_line tr ∧ large_enough polygon_bounding_box tr.
Proof.
  rewrite discard_text_regions_and_lines_spec. inversion 1; subst.
  intros tr Hin. apply list_elem_of_filter in Hin as [Hlive Hin].
  unfold survives in Hlive. apply Is_true_true, andb_true_iff in Hlive.
  destruct Hlive as [Hno Hsmall]. apply negb_true_iff in Hno, Hsmall.
  split; [done|]. split; [by apply has_no_text_false|].
  unfold too_small, large_enough in *.
  destruct (polygon_bounding_box (tr_points tr)) as [width height].
  apply orb_false_iff in Hsmall as [Hw Hh]. simpl. lia.
Qed.

(** C10: a region without text is discarded, but its line stays in the
    line list that goes on to the stroke width computation. *)
Theorem discard_keeps_lines_of_textless_region :
  discard_text_regions_and_lines polygon_bounding_box
    [example_empty_region] (Some [example_empty_line])
  = Ok ([], Some [example_empty_line]).
Proof. vm_compute. reflexivity. Qed.

End DiscardProperties.

(** The sibling case: a region that is too small takes its lines with it. *)
Example discard_removes_lines_of_small_region :
  discard_text_regions_and_lines (λ _, (5, 5))
    [example_region_a] (Some [example_empty_line; example_line "r1l1" "Lorem"])
  = Ok ([], Some [example_empty_line]).
Proof. vm_compute. reflexivity. Qed.

(** ** External feature blocks *)

Lemma py_contains_key d k v :
  dict_get d k = Some v → py_contains k (PDict d) = Ok true.
Proof.
  intros Hget. unfold py_contains. rewrite Hget.
  by rewrite bool_decide_eq_true_2.
Qed.

Lemma node_external_step_fallback page_key region_id ext node_feature :
  node_entries_missing page_key region_id ext →
  node_external_step page_key region_id ext node_feature
  = Ok (node_feature ++ [PNum 0]).
Proof.
  intros (ext_page & table & Hpage & Htable & Hentry & Hdefault).
  unfold node_external_step. rewrite Hpage.
  rewrite (py_contains_key _ _ _ Htable). res_simpl.
  unfold py_getitem. rewrite Htable. res_simpl.
  by rewrite Hentry, Hdefault.
Qed.

Lemma edge_external_step_fallback page_key id_a id_b ext edge_feature :
  edge_entries_missing page_key id_a id_b ext →
  edge_external_step page_key id_a id_b ext edge_feature
  = Ok (edge_feature ++ [PNum (1 # 2)]).
Proof.
  intros (ext_page & table & Hpage & Htable & Hentry & Hdefault).
  unfold edge_external_step. rewrite Hpage.
  rewrite (py_contains_key _ _ _ Htable). res_simpl.
  unfold py_getitem. rewrite Htable. res_simpl. rewrite Hdefault.
  destruct Hentry as [Hrow|(row & Hrow & Hcell)]; rewrite Hrow; res_simpl;
    [done|by rewrite Hcell].
Qed.

(** C9, as amended: a source that knows the page and has the node table,
    but neither the entry of the region nor a default, contributes the
    scalar 0.0 to the node feature, and the lookup raises nothing;
    independently, a source that has the edge table, but neither the entry
    of the pair nor a default, contributes 0.5 to the edge feature.  The
    row grows by one value whatever the width of the other entries of the
    table; nothing is said of the conversion of the rows that follows. *)
Theorem external_fallback_scalars
    page_key region_id id_a id_b ext node_feature edge_feature :
  (node_entries_missing page_key region_id ext →
   node_external_step page_key region_id ext node_feature
   = Ok (node_feature ++ [PNum 0]))
  ∧ (edge_entries_missing page_key id_a id_b ext →
     edge_external_step page_key id_a id_b ext edge_feature
     = Ok (edge_feature ++ [PNum (1 # 2)])).
Proof.
  split.
  - intros Hnode. by apply node_external_step_fallback.
  - intros Hedge. by apply edge_external_step_fallback.
Qed.

Lemma example_node_entries_missing :
  node_entries_missing "page1.xml" "r1" example_external_source.
Proof.
  eexists _, _. split; [reflexivity|]. split; [reflexivity|].
  split; reflexivity.
Defined.

Lemma example_edge_entries_missing :
  edge_entries_missing "page1.xml" "r1" "r2" example_external_source.
Proof.
  eexists _, _. split; [reflexivity|]. split; [reflexivity|].
  split; [|reflexivity]. right. eexists. split; reflexivity.
Defined.

Lemma external_fallback_scalars_witness :
  node_entries_missing "page1.xml" "r1" example_external_source
  ∧ edge_entries_missing "page1.xml" "r1" "r2" example_external_source
  ∧ node_external_step "page1.xml" "r1" example_external_source [PNum 1]
    = Ok ([PNum 1] ++ [PNum 0])
  ∧ edge_external_step "page1.xml" "r1" "r2" example_external_source
      [PNum 0; PNum 1]
    = Ok ([PNum 0; PNum 1] ++ [PNum (1 # 2)]).
Proof.
  split; [exact example_node_entries_missing|].
  split; [exact example_edge_entries_missing|].
  destruct (external_fallback_scalars "page1.xml" "r1" "r1" "r2"
              example_external_source [PNum 1] [PNum 0; PNum 1])
    as [Hnode Hedge].
  split.
  - apply Hnode. exact example_node_entries_missing.
  - apply Hedge. exact example_edge_entries_missing.
Defined.

(** The claim of C9 fails for the page as a whole.  The source has two
    values for [r1] and nothing for [r2] and [r3], and no default: the
    lookup for [r2] falls back to 0.0 and raises nothing, but the rows of
    the page have unequal length and the conversion of the node features
    raises, so the build of the page ends with a [ValueError].  Without
    the source the same page builds. *)
Lemma external_fallback_raises_ValueError :
  node_entries_missing "page1.xml" "r2" example_external_wide
  ∧ node_external_features "page1.xml" "r1" [example_external_wide] []
    = Ok [PNum (3 # 10); PNum (4 # 10)]
  ∧ node_external_features "page1.xml" "r2" [example_external_wide] []
    = Ok [PNum 0]
  ∧ example_build_external [example_external_wide] "page1.xml"
    = Raise ValueError
  ∧ is_ok (example_build_external [] "page1.xml") = true.
Proof.
  split.
  { eexists _, _. split; [reflexivity|]. split; [reflexivity|].
    split; reflexivity. }
  repeat split; vm_compute; reflexivity.
Qed.

(** With every source in that state the loops append one scalar per source
    and return normally. *)
Lemma node_external_features_fallback page_key region_id external_data :
  ∀ node_feature,
    Forall (node_entries_missing page_key region_id) external_data →
    node_external_features page_key region_id external_data node_feature
    = Ok (node_feature ++ replicate (length external_data) (PNum 0)).
Proof.
  induction external_data as [|ext rest IH]; intros node_feature Hall; simpl.
  - by rewrite app_nil_r.
  - inversion Hall as [|? ? Hext Hrest]; subst.
    rewrite (node_external_step_fallback _ _ _ _ Hext). res_simpl.
    rewrite IH by done. by rewrite <- app_assoc.
Qed.

Lemma edge_external_features_fallback page_key id_a id_b external_data :
  ∀ edge_feature,
    Forall (edge_entries_missing page_key id_a id_b) external_data →
    edge_external_features page_key id_a id_b external_data edge_feature
    = Ok (edge_feature ++ replicate (length external_data) (PNum (1 # 2))).
Proof.
  induction external_data as [|ext rest IH]; intros edge_feature Hall; simpl.
  - by rewrite app_nil_r.
  - inversion Hall as [|? ? Hext Hrest]; subst.
    rewrite (edge_external_step_fallback _ _ _ _ _ Hext). res_simpl.
    rewrite IH by done. by rewrite <- app_assoc.
Qed.

(** A source without the page, or a page without the table, contributes
    nothing. *)
Lemma node_external_step_no_page page_key region_id d node_feature :
  dict_get d page_key = None →
  node_external_step page_key region_id (PDict d) node_feature
  = Ok node_feature.
Proof. intros Hget. unfold node_external_step, py_getitem. by rewrite Hget. Qed.

Lemma node_external_step_no_table page_key region_id d ext_page node_feature :
  dict_get d page_key = Some (PDict ext_page) →
  dict_get ext_page "node_features" = None →
  node_external_step page_key region_id (PDict d) node_feature
  = Ok node_feature.
Proof.
  intros Hget Htable. unfold node_external_step, py_getitem, py_contains.
  rewrite Hget, Htable. res_simpl.
  rewrite bool_decide_eq_false_2; [done|]. by intros [? ?].
Qed.

(** The second tier: the region is missing and the table has a default. *)
Example node_external_step_default :
  node_external_step "page1.xml" "r1"
    (PDict [("page1.xml",
             PDict [("node_features", PDict [("default", PNum (1 # 4))])])])
    [PNum 1]
  = Ok [PNum 1; PNum (1 # 4)].
Proof. vm_compute. reflexivity. Qed.

(** ** Ground-truth relations *)

Lemma elem_of_concat_imap {A B} (f : nat → A → list B) (l : list A) x :
  x ∈ concat (imap f l) ↔ ∃ i a, l !! i = Some a ∧ x ∈ f i a.
Proof.
  rewrite list_elem_of_In, in_concat. split.
  - intros (y & Hy & Hx). apply list_elem_of_In, list_elem_of_lookup in Hy.
    destruct Hy as [i Hi]. rewrite list_lookup_imap in Hi.
    destruct (l !! i) as [a|] eqn:Ha; [|done]. inversion Hi; subst.
    exists i, a. by rewrite list_elem_of_In.
  - intros (i & a & Ha & Hx). exists (f i a). split; [|by apply list_elem_of_In].
    apply list_elem_of_In, list_elem_of_lookup. exists i.
    by rewrite list_lookup_imap, Ha.
Qed.

Lemma elem_of_build_gt ids l i j :
  (l, i, j) ∈ build_gt ids
  ↔ l = 1%nat ∧ ∃ a, ids !! i = Some a ∧ ids !! j = Some a.
Proof.
  unfold build_gt. rewrite elem_of_concat_imap. split.
  - intros (i' & a & Ha & Hin). apply elem_of_concat_imap in Hin.
    destruct Hin as (j' & b & Hb & Hin). case_bool_decide; subst.
    + apply list_elem_of_singleton in Hin. inversion Hin; subst. eauto.
    + by apply elem_of_nil in Hin.
  - intros (-> & a & Hi & Hj). exists i, a. split; [done|].
    apply elem_of_concat_imap. exists j, a. split; [done|].
    rewrite bool_decide_eq_true_2 by done. by apply list_elem_of_singleton.
Qed.

Lemma tr_gt_article_ids_lookup article_dict text_regions :
  ∀ ids, tr_gt_article_ids article_dict text_regions = Ok ids →
         ∀ k, ids !! k
              = text_regions !! k
                ≫= λ tr, effective_id <$> article_dict !! tr_id tr.
Proof.
  induction text_regions as [|tr rest IH]; intros ids; simpl.
  - inversion 1. by intros [|k].
  - destruct (article_dict !! tr_id tr) as [e|] eqn:He; [|done].
    destruct (tr_gt_article_ids article_dict rest) as [ids'|]; [|done].
    res_simpl. inversion 1; subst. intros [|k]; simpl.
    + by rewrite He.
    + by apply IH.
Qed.

(** The builder returns as soon as every surviving region has an entry in
    the article dictionary. *)
Lemma tr_gt_article_ids_total article_dict text_regions :
  Forall (λ tr, is_Some (article_dict !! tr_id tr)) text_regions →
  ∃ ids, tr_gt_article_ids article_dict text_regions = Ok ids.
Proof.
  induction 1 as [|tr rest [e He] _ [ids IH]]; simpl; [by eexists|].
  rewrite He, IH. res_simpl. by eexists.
Qed.

Lemma ground_truth_relations_total article_dict text_regions :
  Forall (λ tr, is_Some (article_dict !! tr_id tr)) text_regions →
  ∃ rels, ground_truth_relations article_dict text_regions = Ok rels.
Proof.
  intros Hall. destruct (tr_gt_article_ids_total _ _ Hall) as [ids Hids].
  unfold ground_truth_relations. rewrite Hids. res_simpl. by eexists.
Qed.

(** The id the loop of lines 826-836 appends is the effective id of the
    specification: the first id when the entry is a list of more than one
    id, the entry itself otherwise. *)
Lemma effective_id_first_of_multi entry :
  effective_id entry = spec_effective_id entry.
Proof.
  destruct entry as [|a|[|first_id [|second_id ids]]]; try done;
    unfold effective_id, spec_effective_id;
    case_bool_decide; simpl in *; (done || lia).
Qed.

Lemma elem_of_ground_truth_relations article_dict text_regions rels l i j :
  ground_truth_relations article_dict text_regions = Ok rels →
  (l, i, j) ∈ rels ↔ l = 1%nat ∧ same_article article_dict text_regions i j.
Proof.
  unfold ground_truth_relations.
  destruct (tr_gt_article_ids article_dict text_regions) as [ids|] eqn:Hids;
    [|done].
  res_simpl. inversion 1; subst. rewrite elem_of_build_gt.
  pose proof (tr_gt_article_ids_lookup _ _ _ Hids) as Hlookup.
  unfold same_article. split.
  - intros (-> & a & Hi & Hj). split; [done|].
    rewrite Hlookup in Hi, Hj.
    destruct (text_regions !! i) as [tr_i|]; [|done].
    destruct (text_regions !! j) as [tr_j|]; [|done]. simpl in Hi, Hj.
    destruct (article_dict !! tr_id tr_i) as [ids_i|] eqn:Hdi; [|done].
    destruct (article_dict !! tr_id tr_j) as [ids_j|] eqn:Hdj; [|done].
    simpl in Hi, Hj. exists tr_i, tr_j, ids_i, ids_j.
    repeat split; try done.
    rewrite <- !effective_id_first_of_multi. congruence.
  - intros (-> & tr_i & tr_j & ids_i & ids_j & Hi & Hj & Hdi & Hdj & Heq).
    split; [done|]. exists (effective_id ids_i).
    rewrite !Hlookup, Hi, Hj. simpl. rewrite Hdi, Hdj. simpl.
    by rewrite !effective_id_first_of_multi, Heq.
Qed.

Lemma NoDup_concat_imap {A B} (l : list A) :
  ∀ f : nat → A → list B,
    (∀ i a, l !! i = Some a → NoDup (f i a)) →
    (∀ i i' a a' x, l !! i = Some a → l !! i' = Some a' →
                    x ∈ f i a → x ∈ f i' a' → i = i') →
    NoDup (concat (imap f l)).
Proof.
  induction l as [|a l IH]; intros f Hrow Hdisjoint; [constructor|].
  rewrite imap_cons. cbn [concat]. apply NoDup_app. split; [|split].
  - by apply (Hrow 0%nat).
  - intros x Hx Hx'. apply elem_of_concat_imap in Hx' as (i & a' & Ha' & Hx').
    by specialize (Hdisjoint 0%nat (S i) a a' x eq_refl Ha' Hx Hx').
  - apply IH.
    + intros i a' Ha'. by apply (Hrow (S i)).
    + intros i i' a1 a2 x H1 H2 Hx1 Hx2.
      by specialize (Hdisjoint (S i) (S i') a1 a2 x H1 H2 Hx1 Hx2) as [= ->].
Qed.

Lemma NoDup_build_gt ids : NoDup (build_gt ids).
Proof.
  unfold build_gt. apply NoDup_concat_imap.
  - intros i a _. apply NoDup_concat_imap.
    + intros j b _. case_bool_decide; [apply NoDup_singleton|constructor].
    + intros j j' b b' x _ _ Hx Hx'.
      repeat case_bool_decide; try by apply elem_of_nil in Hx.
      * apply list_elem_of_singleton in Hx, Hx'. congruence.
      * by apply elem_of_nil in Hx'.
  - intros i i' a a' x _ _ Hx Hx'.
    apply elem_of_concat_imap in Hx as (j & b & _ & Hx).
    apply elem_of_concat_imap in Hx' as (j' & b' & _ & Hx').
    repeat case_bool_decide; try by apply elem_of_nil in Hx.
    + apply list_elem_of_singleton in Hx, Hx'. congruence.
    + by apply elem_of_nil in Hx'.
Qed.

(** C5: the relation list holds (1, i, j) exactly for the pairs of
    surviving regions with equal effective article ids, once each, the
    effective id of a multi-id list being its first id and that of any
    other entry the entry itself; it is reflexive on the surviving regions
    and symmetric. *)
Theorem ground_truth_relations_spec article_dict text_regions rels :
  ground_truth_relations article_dict text_regions = Ok rels →
  (∀ l i j, (l, i, j) ∈ rels
            ↔ l = 1%nat ∧ same_article article_dict text_regions i j)
  ∧ NoDup rels
  ∧ (∀ i, (i < length text_regions)%nat → (1%nat, i, i) ∈ rels)
  ∧ (∀ i j, (1%nat, i, j) ∈ rels ↔ (1%nat, j, i) ∈ rels).
Proof.
  intros Hgt.
  assert (NoDup rels) as Hnodup.
  { unfold ground_truth_relations in Hgt.
    destruct (tr_gt_article_ids article_dict text_regions); [|done].
    inversion Hgt. apply NoDup_build_gt. }
  assert (∀ l i j, (l, i, j) ∈ rels
                   ↔ l = 1%nat ∧ same_article article_dict text_regions i j)
    as Hin by (intros; by apply elem_of_ground_truth_relations).
  split; [done|]. split; [done|]. split.
  - intros i Hi. apply Hin. split; [done|].
    apply lookup_lt_is_Some in Hi as [tr Htr].
    unfold ground_truth_relations in Hgt.
    destruct (tr_gt_article_ids article_dict text_regions) as [ids|] eqn:Hids;
      [|done].
    pose proof (tr_gt_article_ids_lookup _ _ _ Hids i) as Hlookup.
    rewrite Htr in Hlookup. simpl in Hlookup.
    destruct (article_dict !! tr_id tr) as [e|] eqn:He.
    + by exists tr, tr, e, e.
    + simpl in Hlookup. apply lookup_ge_None in Hlookup.
      assert (length ids = length text_regions) as Hlen.
      { clear -Hids. revert ids Hids.
        induction text_regions as [|tr' rest IH]; intros ids; simpl.
        - by inversion 1.
        - destruct (article_dict !! tr_id tr'); [|done].
          destruct (tr_gt_article_ids article_dict rest); [|done].
          res_simpl. inversion 1; subst. simpl. f_equal. by apply IH. }
      apply lookup_lt_Some in Htr. lia.
  - intros i j. rewrite !Hin. unfold same_article. split.
    + intros (_ & tr_i & tr_j & ids_i & ids_j & ? & ? & ? & ? & ?).
      split; [done|]. exists tr_j, tr_i, ids_j, ids_i. by repeat split.
    + intros (_ & tr_j & tr_i & ids_j & ids_i & ? & ? & ? & ? & ?).
      split; [done|]. exists tr_i, tr_j, ids_i, ids_j. by repeat split.
Qed.

Example ground_truth_relations_example :
  ground_truth_relations example_article_dict
    [example_region_a; example_region_b]
  = Ok [(1, 0, 0); (1, 0, 1); (1, 1, 0); (1, 1, 1)]%nat.
Proof. vm_compute. reflexivity. Qed.

Lemma ground_truth_relations_spec_witness :
  ground_truth_relations example_article_dict
    [example_region_a; example_region_b]
  = Ok [(1, 0, 0); (1, 0, 1); (1, 1, 0); (1, 1, 1)]%nat
  ∧ ((∀ l i j, (l, i, j) ∈ [(1, 0, 0); (1, 0, 1); (1, 1, 0); (1, 1, 1)]%nat
               ↔ l = 1%nat
                 ∧ same_article example_article_dict
                     [example_region_a; example_region_b] i j)
     ∧ NoDup [(1, 0, 0); (1, 0, 1); (1, 1, 0); (1, 1, 1)]%nat
     ∧ (∀ i, (i < length [example_region_a; example_region_b])%nat →
             (1%nat, i, i) ∈ [(1, 0, 0); (1, 0, 1); (1, 1, 0); (1, 1, 1)]%nat)
     ∧ (∀ i j, (1%nat, i, j) ∈ [(1, 0, 0); (1, 0, 1); (1, 1, 0); (1, 1, 1)]%nat
               ↔ (1%nat, j, i)
                 ∈ [(1, 0, 0); (1, 0, 1); (1, 1, 0); (1, 1, 1)]%nat)).
Proof.
  split; [vm_compute; reflexivity|].
  apply (ground_truth_relations_spec example_article_dict
           [example_region_a; example_region_b]).
  vm_compute. reflexivity.
Defined.

(** A one-element list is not unpacked: it differs from the bare id, and
    two regions assigned [['a1']] and ['a1'] are not related. *)
Example effective_id_singleton_list :
  effective_id (Multiple ["a1"%string]) ≠ effective_id (Single "a1"%string)
  ∧ ground_truth_relations
      {[ "r1"%string := Multiple ["a1"%string];
         "r2"%string := Single "a1"%string ]}
      [example_region_a; example_region_b]
    = Ok [(1, 0, 0); (1, 1, 1)]%nat.
Proof. split; [discriminate|vm_compute; reflexivity]. Qed.

(** ** Input and target of one page *)

Section BuildProperties.

Variable get_data_from_pagexml : string -> result PageData.
Variable basename : string -> string.
Variable get_img_from_page_path : string -> option string.
Variable swt_data : Type.
Variable stroke_width_transform : string -> list TextLine -> result swt_data.
Variable base_node_feature :
  PageData -> swt_data -> TextRegion -> result (list pyval).
Variable position : Type.
Variable round_base : list position -> list position.
Variable Delaunay : list position -> result (list nat * list nat).
Variable node_centers : PageData -> list (list pyval) -> list position.
Variable intersects : LineString -> LineString -> bool.
Variable polygon_bounding_box : list point -> Z * Z.
Variable np_array_float32 : list (list pyval) -> result (list (list pyval)).

Abbreviation build :=
  (build_input_and_target get_data_from_pagexml basename
     get_img_from_page_path swt_data stroke_width_transform
     base_node_feature position round_base Delaunay node_centers
     intersects polygon_bounding_box np_array_float32).

Abbreviation edge_set :=
  (build_interacting_nodes position round_base Delaunay node_centers
     np_array_float32).

Lemma build_interacting_nodes_small interaction page num_nodes features :
  (num_nodes < 4)%nat →
  edge_set interaction page num_nodes features
  = Ok (fully_connected_edges num_nodes).
Proof.
  intros Hsmall. unfold build_interacting_nodes.
  apply Nat.ltb_lt in Hsmall. by rewrite Hsmall, orb_true_r.
Qed.

Lemma build_interacting_nodes_fully page num_nodes features :
  edge_set "fully" page num_nodes features
  = Ok (fully_connected_edges num_nodes).
Proof. reflexivity. Qed.

(** C8: on a page with fewer than four surviving regions the delaunay
    mode builds what the fully mode builds, the edge list being that of
    [fully_connected_edges]. *)
Theorem delaunay_small_page_is_fully
    page_path separators external_data sim_feat_extractor page :
  get_data_from_pagexml page_path = Ok page →
  (2 ≤ length (surviving_regions polygon_bounding_box page) < 4)%nat →
  build page_path "delaunay" separators external_data sim_feat_extractor
  = build page_path "fully" separators external_data sim_feat_extractor
  ∧ ∀ features,
      edge_set "delaunay" page
        (length (surviving_regions polygon_bounding_box page)) features
      = edge_set "fully" page
          (length (surviving_regions polygon_bounding_box page)) features.
Proof.
  intros Hdata [Hlo Hhi]. split.
  - unfold build_input_and_target.
    change (str_in "delaunay" ["fully"; "delaunay"]) with true.
    change (str_in "fully" ["fully"; "delaunay"]) with true.
    cbn [negb]. destruct (negb (str_in separators _)); [done|].
    rewrite Hdata. res_simpl. unfold surviving_regions in Hlo, Hhi.
    destruct (pd_text_regions page) as [text_regions|]; [|done].
    rewrite discard_text_regions_and_lines_spec. res_simpl.
    destruct (_ <=? 1)%nat; [done|].
    destruct (get_textline_stroke_widths_heights_dist_trafo _ _ _ _ _ _)
      as [swt|]; res_simpl; [|done].
    destruct (mapM _ _) as [features|]; res_simpl; [|done].
    by rewrite !build_interacting_nodes_small.
  - intros features. by rewrite !build_interacting_nodes_small.
Qed.

(** Without an image file the build raises, whatever the other
    collaborators do, as soon as two regions survive. *)
Lemma build_raises_without_image
    page_path interaction separators external_data sim_feat_extractor page :
  str_in interaction ["fully"; "delaunay"]%string = true →
  str_in separators ["line"; "bb"]%string = true →
  get_data_from_pagexml page_path = Ok page →
  (2 ≤ length (surviving_regions polygon_bounding_box page))%nat →
  get_img_from_page_path page_path = None →
  build page_path interaction separators external_data sim_feat_extractor
  = Raise ValueError.
Proof.
  intros Hinteraction Hseparators Hdata Hlen Himg.
  unfold build_input_and_target.
  rewrite Hinteraction, Hseparators, Hdata. res_simpl. cbn [negb].
  unfold surviving_regions in Hlen.
  destruct (pd_text_regions page) as [text_regions|]; [|simpl in Hlen; lia].
  rewrite discard_text_regions_and_lines_spec. res_simpl.
  destruct (Nat.leb_spec (length (filter (λ tr, survives polygon_bounding_box tr)
                                    text_regions)) 1); [lia|].
  unfold get_textline_stroke_widths_heights_dist_trafo. by rewrite Himg.
Qed.

(** The build returns [None] for a page with fewer than two surviving
    regions. *)
Lemma build_returns_None
    page_path interaction separators external_data sim_feat_extractor page :
  str_in interaction ["fully"; "delaunay"]%string = true →
  str_in separators ["line"; "bb"]%string = true →
  get_data_from_pagexml page_path = Ok page →
  (length (surviving_regions polygon_bounding_box page) ≤ 1)%nat →
  build page_path interaction separators external_data sim_feat_extractor
  = Ok None.
Proof.
  intros Hinteraction Hseparators Hdata Hlen.
  unfold build_input_and_target.
  rewrite Hinteraction, Hseparators, Hdata. res_simpl. cbn [negb].
  unfold surviving_regions in Hlen.
  destruct (pd_text_regions page) as [text_regions|]; [|done].
  rewrite discard_text_regions_and_lines_spec. res_simpl.
  apply Nat.leb_le in Hlen. by rewrite Hlen.
Qed.

End BuildProperties.

(** ** The batch driver *)

Section BatchProperties.

Variable build : string -> result (option GraphData).

Lemma batch_app_nil st : batch_app st (batch_of build []) = st.
Proof. destruct st. unfold batch_app. simpl. by rewrite !app_nil_r. Qed.

Lemma batch_app_empty st :
  batch_app {| written := []; skipped_pages := [] |} st = st.
Proof. by destruct st. Qed.

Lemma batch_of_cons page_path rest :
  batch_of build (page_path :: rest)
  = batch_app
      match build page_path with
      | Ok (Some graph) =>
          {| written := [(page_path, graph)]; skipped_pages := [] |}
      | Ok None => {| written := []; skipped_pages := [page_path] |}
      | Raise _ => {| written := []; skipped_pages := [] |}
      end
      (batch_of build rest).
Proof.
  unfold batch_of, batch_app. cbn [written skipped_pages]. f_equal.
  - cbn [omap list_omap]. by destruct (build page_path) as [[graph|]|e].
  - rewrite filter_cons.
    destruct (build page_path) as [[graph|]|e] eqn:Hbuild;
      case_decide as Hnone; unfold returns_None in Hnone;
      rewrite Hbuild in Hnone; simpl in Hnone; try done.
Qed.

Lemma batch_app_assoc st1 st2 st3 :
  batch_app (batch_app st1 st2) st3 = batch_app st1 (batch_app st2 st3).
Proof. unfold batch_app. simpl. by rewrite !app_assoc. Qed.

Lemma feature_json_loop_outcome page_paths :
  ∀ st,
    feature_json_loop build page_paths st
    = match first_raise build page_paths with
      | None => (batch_app st (batch_of build page_paths), Ok ())
      | Some (before, e) => (batch_app st (batch_of build before), Raise e)
      end.
Proof.
  induction page_paths as [|page_path rest IH]; intros st.
  - simpl. by rewrite batch_app_nil.
  - cbn [feature_json_loop first_raise].
    pose proof (batch_of_cons page_path) as Hcons.
    destruct (build page_path) as [[graph|]|e].
    + rewrite IH. destruct (first_raise build rest) as [[before e]|];
        rewrite Hcons, <- batch_app_assoc; do 2 f_equal;
        unfold batch_app; cbn [written skipped_pages]; by rewrite app_nil_r.
    + rewrite IH. destruct (first_raise build rest) as [[before e]|];
        rewrite Hcons, <- batch_app_assoc; do 2 f_equal;
        unfold batch_app; cbn [written skipped_pages]; by rewrite app_nil_r.
    + by rewrite batch_app_nil.
Qed.

Lemma first_raise_app before page_path rest e :
  Forall (λ p, is_ok (build p) = true) before →
  build page_path = Raise e →
  first_raise build (before ++ page_path :: rest) = Some (before, e).
Proof.
  intros Hok Hraise. induction Hok as [|p before Hp _ IH]; simpl.
  - by rewrite Hraise.
  - destruct (build p); [|done]. by rewrite IH.
Qed.

Lemma first_raise_None page_paths :
  Forall (λ p, is_ok (build p) = true) page_paths →
  first_raise build page_paths = None.
Proof.
  induction 1 as [|p rest Hp _ IH]; simpl; [done|].
  destruct (build p); [|done]. by rewrite IH.
Qed.

(** C2, as amended: the driver records as skipped the pages for which the
    build returns [None] and writes the pages that build, up to the first
    page whose build raises; that exception ends the batch, the pages
    after it are not processed. *)
Theorem generate_feature_jsons_outcome page_paths :
  generate_feature_jsons build page_paths
  = match first_raise build page_paths with
    | None => (batch_of build page_paths, Ok ())
    | Some (before, e) => (batch_of build before, Raise e)
    end.
Proof.
  unfold generate_feature_jsons. rewrite feature_json_loop_outcome.
  destruct (first_raise build page_paths) as [[before e]|];
    by rewrite batch_app_empty.
Qed.

Corollary generate_feature_jsons_stops before page_path rest e :
  Forall (λ p, is_ok (build p) = true) before →
  build page_path = Raise e →
  generate_feature_jsons build (before ++ page_path :: rest)
  = (batch_of build before, Raise e).
Proof.
  intros Hok Hraise. unfold generate_feature_jsons.
  by rewrite feature_json_loop_outcome, (first_raise_app _ _ _ e),
    batch_app_empty.
Qed.

Corollary generate_feature_jsons_completes page_paths :
  Forall (λ p, is_ok (build p) = true) page_paths →
  generate_feature_jsons build page_paths = (batch_of build page_paths, Ok ()).
Proof.
  intros Hok. unfold generate_feature_jsons.
  by rewrite feature_json_loop_outcome, first_raise_None, batch_app_empty.
Qed.

End BatchProperties.

(** The example pages: the three regions of [page1.xml] are fully connected
    in both modes, every edge separated by the bar gets the separator
    block of the chosen strategy. *)
Example example_build_page1 :
  match example_build "delaunay" "bb" "page1.xml" with
  | Ok (Some graph) =>
      interacting_nodes graph
      = [(0, 1); (0, 2); (1, 0); (1, 2); (2, 0); (2, 1)]%nat
      ∧ edge_features graph
        = [[PNum 0; PNum 1]; [PNum 0; PNum 0]; [PNum 0; PNum 1];
           [PNum 0; PNum 1]; [PNum 0; PNum 0]; [PNum 0; PNum 1]]
      ∧ gt_num_relations graph = 9%nat
  | _ => False
  end.
Proof. vm_compute. repeat split; reflexivity. Qed.

Lemma delaunay_small_page_is_fully_witness :
  example_get_data_from_pagexml "page1.xml" = Ok example_page1
  ∧ (2 ≤ length (surviving_regions example_polygon_bounding_box example_page1)
     < 4)%nat
  ∧ example_build "delaunay" "line" "page1.xml"
    = example_build "fully" "line" "page1.xml"
  ∧ ∀ features : list (list pyval),
      build_interacting_nodes unit (λ positions, positions)
        (λ _, Raise QhullError) (λ _ _, []) (λ rows, Ok rows)
        "delaunay" example_page1
        (length (surviving_regions example_polygon_bounding_box example_page1))
        features
      = build_interacting_nodes unit (λ positions, positions)
          (λ _, Raise QhullError) (λ _ _, []) (λ rows, Ok rows)
          "fully" example_page1
          (length (surviving_regions example_polygon_bounding_box example_page1))
          features.
Proof.
  split; [reflexivity|]. split; [vm_compute; lia|].
  apply (delaunay_small_page_is_fully
           example_get_data_from_pagexml (λ path, path)
           example_get_img_from_page_path unit (λ _ _, Ok ())
           (λ _ _ _, Ok []) unit (λ positions, positions)
           (λ _, Raise QhullError) (λ _ _, [])
           segments_intersect example_polygon_bounding_box (λ rows, Ok rows)
           "page1.xml" "line" [] None example_page1).
  - reflexivity.
  - vm_compute. lia.
Defined.

(** The two fatal conditions of the specification: no image file, and a
    triangulation that raises on the rounded and on the raw positions. *)
Example example_build_no_image :
  example_build "delaunay" "line" "page_no_image.xml" = Raise ValueError.
Proof. vm_compute. reflexivity. Qed.

Example example_build_delaunay_fails :
  example_build "delaunay" "line" "page4.xml" = Raise QhullError.
Proof. vm_compute. reflexivity. Qed.

Example example_build_empty :
  example_build "delaunay" "line" "page_empty.xml" = Ok None.
Proof. vm_compute. reflexivity. Qed.

(** The claim of C2 fails: the page without image is first in the batch,
    its exception leaves the driver, nothing is recorded as skipped and
    [page1.xml] is never built. *)
Lemma generate_feature_jsons_aborts :
  generate_feature_jsons (example_build "delaunay" "line")
    ["page_no_image.xml"; "page1.xml"]%string
  = ({| written := []; skipped_pages := [] |}, Raise ValueError)
  ∧ is_ok (example_build "delaunay" "line" "page1.xml") = true
  ∧ ¬ skips_failing_pages (example_build "delaunay" "line")
        ["page_no_image.xml"; "page1.xml"]%string.
Proof.
  assert (generate_feature_jsons (example_build "delaunay" "line")
            ["page_no_image.xml"; "page1.xml"]%string
          = ({| written := []; skipped_pages := [] |}, Raise ValueError))
    as Hrun by (vm_compute; reflexivity).
  split; [done|]. split; [vm_compute; reflexivity|].
  unfold skips_failing_pages. rewrite Hrun. by intros [? _].
Qed.

(** The same batch with the triangulation failing on its first page. *)
Example generate_feature_jsons_aborts_delaunay :
  generate_feature_jsons (example_build "delaunay" "line")
    ["page4.xml"; "page1.xml"]%string
  = ({| written := []; skipped_pages := [] |}, Raise QhullError).
Proof. vm_compute. reflexivity. Qed.

(** A page for which the build returns [None] is skipped and the batch goes
    on. *)
Example generate_feature_jsons_skips_empty :
  skipped_pages
    (generate_feature_jsons (example_build "delaunay" "line")
       ["page_empty.xml"; "page1.xml"]%string).1
  = ["page_empty.xml"%string]
  ∧ fst <$> written
              (generate_feature_jsons (example_build "delaunay" "line")
                 ["page_empty.xml"; "page1.xml"]%string).1
    = ["page1.xml"%string].
Proof. split; vm_compute; reflexivity. Qed.

(** * Further properties *)

(** * Further properties *)

(** ** Bounding boxes *)

Lemma list_min_le z zs : list_min z zs <= z ∧ ∀ x, x ∈ zs → list_min z zs <= x.
Proof.
  unfold list_min. revert z. induction zs as [|y zs IH]; intros z; simpl.
  - split; [lia|]. intros x Hx. by apply elem_of_nil in Hx.
  - destruct (IH (Z.min z y)) as [Hz Hzs]. split; [lia|].
    intros x Hx. apply elem_of_cons in Hx as [->|Hx]; [lia|by apply Hzs].
Qed.

Lemma list_max_ge z zs : z <= list_max z zs ∧ ∀ x, x ∈ zs → x <= list_max z zs.
Proof.
  unfold list_max. revert z. induction zs as [|y zs IH]; intros z; simpl.
  - split; [lia|]. intros x Hx. by apply elem_of_nil in Hx.
  - destruct (IH (Z.max z y)) as [Hz Hzs]. split; [lia|].
    intros x Hx. apply elem_of_cons in Hx as [->|Hx]; [lia|by apply Hzs].
Qed.

Lemma list_min_elem z zs : list_min z zs ∈ z :: zs.
Proof.
  unfold list_min. revert z. induction zs as [|y zs IH]; intros z; simpl.
  - by left.
  - specialize (IH (Z.min z y)). apply elem_of_cons in IH as [Heq|Hin].
    + rewrite Heq. destruct (Z.min_spec z y) as [[_ ->]|[_ ->]];
        [left|right; left]; done.
    + right. by right.
Qed.

Lemma list_max_elem z zs : list_max z zs ∈ z :: zs.
Proof.
  unfold list_max. revert z. induction zs as [|y zs IH]; intros z; simpl.
  - by left.
  - specialize (IH (Z.max z y)). apply elem_of_cons in IH as [Heq|Hin].
    + rewrite Heq. destruct (Z.max_spec z y) as [[_ ->]|[_ ->]];
        [right; left|left]; done.
    + right. by right.
Qed.

(** X1: the box returned by [get_bounding_box] contains every point of the
    list, and each of its four bounds is the coordinate of one of the
    points. *)
Theorem get_bounding_box_tight points min_x max_x min_y max_y :
  get_bounding_box points = Ok (min_x, max_x, min_y, max_y) →
  (∀ p, p ∈ points → min_x <= p.1 <= max_x ∧ min_y <= p.2 <= max_y)
  ∧ min_x ∈ points.*1 ∧ max_x ∈ points.*1
  ∧ min_y ∈ points.*2 ∧ max_y ∈ points.*2.
Proof.
  destruct points as [|p ps]; [done|]. simpl. intros [= <- <- <- <-].
  split.
  - intros q Hq.
    destruct (list_min_le p.1 ps.*1) as [Hx1 Hx2],
      (list_max_ge p.1 ps.*1) as [Hx3 Hx4],
      (list_min_le p.2 ps.*2) as [Hy1 Hy2],
      (list_max_ge p.2 ps.*2) as [Hy3 Hy4].
    apply elem_of_cons in Hq as [->|Hq]; [lia|].
    pose proof (list_elem_of_fmap_2 fst _ _ Hq) as Hq1.
    pose proof (list_elem_of_fmap_2 snd _ _ Hq) as Hq2.
    specialize (Hx2 _ Hq1). specialize (Hx4 _ Hq1).
    specialize (Hy2 _ Hq2). specialize (Hy4 _ Hq2). lia.
  - repeat split.
    + apply list_min_elem.
    + apply list_max_elem.
    + apply list_min_elem.
    + apply list_max_elem.
Qed.

Lemma get_bounding_box_tight_witness :
  get_bounding_box [(3, 7); (1, 9); (5, 2)] = Ok (1, 5, 2, 9)
  ∧ ((∀ p, p ∈ [(3, 7); (1, 9); (5, 2)] → 1 <= p.1 <= 5 ∧ 2 <= p.2 <= 9)
     ∧ 1 ∈ [(3, 7); (1, 9); (5, 2)].*1 ∧ 5 ∈ [(3, 7); (1, 9); (5, 2)].*1
     ∧ 2 ∈ [(3, 7); (1, 9); (5, 2)].*2 ∧ 9 ∈ [(3, 7); (1, 9); (5, 2)].*2).
Proof.
  split; [reflexivity|].
  apply (get_bounding_box_tight [(3, 7); (1, 9); (5, 2)]). reflexivity.
Defined.

(** ** The bounding-box strategy *)

Lemma is_vertically_separated_disjoint
    min_x_a max_x_a min_y_a max_y_a min_x_b max_x_b min_y_b max_y_b
    min_x_sep max_x_sep min_y_sep max_y_sep :
  is_vertically_separated min_x_a max_x_a min_y_a max_y_a
    min_x_b max_x_b min_y_b max_y_b min_x_sep max_x_sep min_y_sep max_y_sep
  = true →
  max_x_a <= min_x_b ∨ max_x_b <= min_x_a.
Proof. rewrite is_vertically_separated_true. lia. Qed.

Lemma bb_rule_check_flags bb_a bb_b bb_sep orientation h v :
  bb_rule_check bb_a bb_b bb_sep orientation h v
  = (h || negb (String.eqb orientation "vertical")
          && horizontal_rule bb_a bb_b bb_sep,
     v || String.eqb orientation "vertical" && vertical_rule bb_a bb_b bb_sep).
Proof.
  destruct bb_a as [[[? ?] ?] ?], bb_b as [[[? ?] ?] ?],
    bb_sep as [[[? ?] ?] ?].
  unfold bb_rule_check, horizontal_rule, vertical_rule.
  destruct (String.eqb orientation "vertical"); simpl;
    match goal with |- context [ if ?c then _ else _ ] => destruct c end;
    by rewrite ?orb_true_r, ?orb_false_r.
Qed.

Lemma bb_loop_vertical_off bb_a bb_b seps :
  x_ranges_overlap bb_a bb_b →
  ∀ h v h' v', bb_loop bb_a bb_b seps h v = Ok (h', v') → v' = v.
Proof.
  intros Hoverlap. induction seps as [|s rest IH]; intros h v h' v'; simpl.
  - by intros [= _ <-].
  - destruct (get_bounding_box (sr_points s)) as [bb_sep|]; res_simpl; [|done].
    rewrite bb_rule_check_flags.
    assert (vertical_rule bb_a bb_b bb_sep = false) as ->.
    { destruct bb_a as [[[? ?] ?] ?], bb_b as [[[? ?] ?] ?],
        bb_sep as [[[? ?] ?] ?]. unfold vertical_rule.
      unfold x_ranges_overlap in Hoverlap. simpl in Hoverlap.
      apply not_true_is_false. intros Hsep.
      apply is_vertically_separated_disjoint in Hsep. lia. }
    rewrite andb_false_r, orb_false_r.
    match goal with |- context [ if ?c then _ else _ ] => destruct c end.
    + by intros [= _ <-].
    + apply IH.
Qed.

(** X2: two regions whose x-ranges share more than a boundary point are
    never reported as vertically separated by the bounding-box strategy,
    whatever the separator regions. *)
Theorem bb_strategy_no_vertical_on_overlap a b seps bb_a bb_b feature :
  get_bounding_box (tr_points a) = Ok bb_a →
  get_bounding_box (tr_points b) = Ok bb_b →
  x_ranges_overlap bb_a bb_b →
  get_edge_separator_feature_bb a b seps = Ok feature →
  feature !! 1%nat = Some 0%Q.
Proof.
  intros Ha Hb Hoverlap. unfold get_edge_separator_feature_bb.
  rewrite Ha, Hb. res_simpl.
  destruct (bb_loop bb_a bb_b seps false false) as [[h v]|] eqn:Hloop;
    res_simpl; [|done].
  apply (bb_loop_vertical_off _ _ _ Hoverlap) in Hloop as ->.
  by intros [= <-].
Qed.

Lemma bb_strategy_no_vertical_on_overlap_witness :
  get_bounding_box (tr_points example_region_a) = Ok (0, 10, 0, 10)
  ∧ get_bounding_box (tr_points example_region_on_bar) = Ok (17, 27, 45, 55)
  ∧ get_bounding_box (tr_points example_region_left) = Ok (0, 10, 45, 55)
  ∧ x_ranges_overlap (0, 10, 0, 10) (0, 10, 45, 55)
  ∧ get_edge_separator_feature_bb example_region_a example_region_left
      [example_vertical_bar] = Ok [0%Q; 0%Q]
  ∧ [0%Q; 0%Q] !! 1%nat = Some 0%Q.
Proof.
  split; [reflexivity|]. split; [reflexivity|]. split; [reflexivity|].
  split; [unfold x_ranges_overlap; simpl; lia|].
  split; [vm_compute; reflexivity|].
  apply (bb_strategy_no_vertical_on_overlap example_region_a
           example_region_left [example_vertical_bar]
           (0, 10, 0, 10) (0, 10, 45, 55)).
  - reflexivity.
  - reflexivity.
  - unfold x_ranges_overlap; simpl; lia.
  - vm_compute. reflexivity.
Defined.

(** With a polygon on every separator, the loop and its early exit compute
    the disjunction of the rules over the separators. *)
Lemma bb_loop_flags bb_a bb_b seps :
  Forall (λ s, sr_points s ≠ []) seps →
  ∀ h v,
    bb_loop bb_a bb_b seps h v
    = Ok (h || existsb (bb_sets_horizontal bb_a bb_b) seps,
          v || existsb (bb_sets_vertical bb_a bb_b) seps).
Proof.
  induction 1 as [|s rest Hs _ IH]; intros h v; simpl.
  - by rewrite !orb_false_r.
  - unfold bb_sets_horizontal at 1, bb_sets_vertical at 1.
    destruct (get_bounding_box (sr_points s)) as [bb_sep|] eqn:Hbb.
    + res_simpl. rewrite bb_rule_check_flags.
      set (H := negb _ && _). set (V := String.eqb _ _ && _).
      rewrite !orb_assoc.
      destruct ((h || H) && (v || V)) eqn:Hboth.
      * by apply andb_true_iff in Hboth as [-> ->].
      * by rewrite IH.
    + destruct (sr_points s); [done|by inversion Hbb].
Qed.

(** X3: when every separator region has a polygon, the feature of the
    bounding-box strategy does not depend on the order of the separator
    regions: the early exit never changes the answer. *)
Theorem bb_strategy_order_independent a b seps seps' :
  Forall (λ s, sr_points s ≠ []) seps →
  seps ≡ₚ seps' →
  get_edge_separator_feature_bb a b seps
  = get_edge_separator_feature_bb a b seps'.
Proof.
  intros Hpoly Hperm. unfold get_edge_separator_feature_bb.
  destruct (get_bounding_box (tr_points a)) as [bb_a|]; res_simpl; [|done].
  destruct (get_bounding_box (tr_points b)) as [bb_b|]; res_simpl; [|done].
  rewrite !bb_loop_flags by (by rewrite <- ?Hperm). res_simpl.
  assert (∀ f, existsb f seps = existsb f seps') as Hex.
  { intros f. apply eq_true_iff_eq. rewrite !existsb_exists.
    split; intros (s & Hin & Hs); exists s; split; try done;
      apply list_elem_of_In; apply list_elem_of_In in Hin;
      by rewrite ?Hperm in *. }
  by rewrite !Hex.
Qed.

Lemma bb_strategy_order_independent_witness :
  Forall (λ s, sr_points s ≠ []) [example_vertical_bar; example_wide_bar]
  ∧ [example_vertical_bar; example_wide_bar]
    ≡ₚ [example_wide_bar; example_vertical_bar]
  ∧ get_edge_separator_feature_bb example_region_a example_region_b
      [example_vertical_bar; example_wide_bar]
    = get_edge_separator_feature_bb example_region_a example_region_b
        [example_wide_bar; example_vertical_bar].
Proof.
  assert (Forall (λ s, sr_points s ≠ [])
            [example_vertical_bar; example_wide_bar]) as Hpoly
    by (repeat constructor; discriminate).
  split; [exact Hpoly|]. split; [apply perm_swap|].
  apply (bb_strategy_order_independent example_region_a example_region_b
           [example_vertical_bar; example_wide_bar]
           [example_wide_bar; example_vertical_bar] Hpoly).
  apply perm_swap.
Defined.

(** Without that condition the order matters: the early exit can hide a
    separator without polygon. *)
Example bb_strategy_order_matters_without_polygon :
  let rule := {| sr_id := "s5"; sr_points := [(5, 4); (45, 4); (45, 6); (5, 6)];
                 sr_orientation := Some "horizontal"%string |} in
  let empty := {| sr_id := "s6"; sr_points := []; sr_orientation := None |} in
  get_edge_separator_feature_bb example_region_a example_region_b
    [example_vertical_bar; rule; empty] = Ok [1%Q; 1%Q]
  ∧ get_edge_separator_feature_bb example_region_a example_region_b
      [empty; example_vertical_bar; rule] = Raise IndexError.
Proof. split; vm_compute; reflexivity. Qed.

(** ** Closing of polygons by the line strategy *)

Lemma point_eqb_eq p q : point_eqb p q = true ↔ p = q.
Proof.
  destruct p as [x y], q as [x' y']. unfold point_eqb. simpl.
  rewrite andb_true_iff, !Z.eqb_eq. split; [intros [-> ->]|intros [= -> ->]]; done.
Qed.

Lemma point_eqb_refl p : point_eqb p p = true.
Proof. by apply point_eqb_eq. Qed.

Lemma last_snoc {A} (l : list A) (x d : A) : List.last (l ++ [x]) d = x.
Proof. apply last_last. Qed.

Lemma line_poly_intersection_closed intersects line p0 ps :
  List.last (p0 :: ps) p0 = p0 →
  line_poly_intersection intersects line (p0 :: ps)
  = Ok (existsb (λ '(p1, p2), intersects line (line_string_of_points p1 p2))
          (polygon_segments (p0 :: ps)),
        p0 :: ps).
Proof.
  intros Hlast. unfold line_poly_intersection.
  by rewrite Hlast, point_eqb_refl.
Qed.

(** X4: [line_poly_intersection] raises only on the empty list; otherwise
    the list it leaves behind is closed, at most one point longer than the
    list it was given, and a second call on that list gives the same
    answer and leaves it as it is. *)
Theorem line_poly_intersection_closes intersects line polygon :
  match line_poly_intersection intersects line polygon with
  | Raise e => e = IndexError ∧ polygon = []
  | Ok (hit, polygon') =>
      closed_polygon polygon'
      ∧ (polygon' = polygon
         ∨ ∃ p0, head polygon = Some p0 ∧ polygon' = polygon ++ [p0])
      ∧ line_poly_intersection intersects line polygon' = Ok (hit, polygon')
  end.
Proof.
  destruct polygon as [|p0 ps]; [done|].
  destruct (point_eqb p0 (List.last (p0 :: ps) p0)) eqn:Hclosed.
  - assert (List.last (p0 :: ps) p0 = p0) as Hlast
      by (symmetry; by apply point_eqb_eq).
    rewrite line_poly_intersection_closed by done. split; [|split].
    + by exists p0.
    + by left.
    + by apply line_poly_intersection_closed.
  - assert (line_poly_intersection intersects line (p0 :: ps)
            = Ok (existsb (λ '(p1, p2),
                             intersects line (line_string_of_points p1 p2))
                    (polygon_segments ((p0 :: ps) ++ [p0])),
                  (p0 :: ps) ++ [p0])) as ->
      by (unfold line_poly_intersection; by rewrite Hclosed).
    split; [|split].
    + exists p0. split; [done|]. apply last_snoc.
    + right. by exists p0.
    + rewrite <- app_comm_cons. apply line_poly_intersection_closed.
      rewrite app_comm_cons. apply last_snoc.
Qed.

Lemma line_poly_intersection_close intersects line polygon :
  polygon ≠ [] →
  line_poly_intersection intersects line polygon
  = Ok (existsb (λ '(p1, p2), intersects line (line_string_of_points p1 p2))
          (polygon_segments (close_polygon polygon)),
        close_polygon polygon).
Proof. by destruct polygon. Qed.

Lemma close_polygon_closed p0 ps :
  List.last (p0 :: ps) p0 = p0 → close_polygon (p0 :: ps) = p0 :: ps.
Proof. intros Hlast. unfold close_polygon. by rewrite Hlast, point_eqb_refl. Qed.

Lemma close_polygon_idem polygon :
  close_polygon (close_polygon polygon) = close_polygon polygon.
Proof.
  destruct polygon as [|p0 ps]; [done|].
  destruct (point_eqb p0 (List.last (p0 :: ps) p0)) eqn:Hclosed.
  - by rewrite !close_polygon_closed by (symmetry; by apply point_eqb_eq).
  - assert (close_polygon (p0 :: ps) = (p0 :: ps) ++ [p0]) as ->
      by (unfold close_polygon; by rewrite Hclosed).
    rewrite <- app_comm_cons. apply close_polygon_closed.
    rewrite app_comm_cons. apply last_snoc.
Qed.

Lemma close_polygon_nil polygon : close_polygon polygon = [] ↔ polygon = [].
Proof.
  split; [|by intros ->]. destruct polygon as [|p0 ps]; [done|].
  unfold close_polygon. by destruct (negb _).
Qed.

Lemma list_min_snoc z zs : list_min z (zs ++ [z]) = list_min z zs.
Proof.
  unfold list_min. rewrite foldl_app. simpl.
  pose proof (list_min_le z zs) as [Hle _]. unfold list_min in Hle. lia.
Qed.

Lemma list_max_snoc z zs : list_max z (zs ++ [z]) = list_max z zs.
Proof.
  unfold list_max. rewrite foldl_app. simpl.
  pose proof (list_max_ge z zs) as [Hle _]. unfold list_max in Hle. lia.
Qed.

(** Closing a polygon does not change its bounding box. *)
Lemma get_bounding_box_close polygon :
  get_bounding_box (close_polygon polygon) = get_bounding_box polygon.
Proof.
  destruct polygon as [|p0 ps]; [done|]. unfold close_polygon.
  destruct (negb _); [|done]. rewrite <- app_comm_cons. simpl.
  by rewrite !fmap_app, !list_min_snoc, !list_max_snoc.
Qed.

Lemma close_separator_idem s :
  close_separator (close_separator s) = close_separator s.
Proof.
  unfold close_separator, set_points_list. simpl.
  by rewrite close_polygon_idem.
Qed.

(** One step of the loop on a separator whose polygon is already closed:
    the same flags, and the separator stays as it is. *)
Lemma line_step_close_separator intersects tr_segment s h v :
  line_step intersects tr_segment (close_separator s) h v
  = (λ r : bool * bool * bool * SeparatorRegion, (r.1, close_separator s))
    <$> line_step intersects tr_segment s h v.
Proof.
  unfold line_step. cbn [close_separator set_points_list sr_points].
  rewrite get_bounding_box_close.
  destruct (get_bounding_box (sr_points s))
    as [[[[min_x max_x] min_y] max_y]|] eqn:Hbb; res_simpl; [|done].
  assert (sr_points s ≠ []) as Hne by (by destruct (sr_points s)).
  case_box_test prior box; [|done].
  destruct (prior || _); [|done].
  rewrite !line_poly_intersection_close
    by (done || by rewrite close_polygon_nil).
  rewrite close_polygon_idem. res_simpl.
  unfold get_orientation, separator_region_eq_str, close_separator,
    set_points_list.
  cbn [sr_orientation sr_id sr_points].
  repeat match goal with
         | |- context [ if ?c then _ else _ ] => destruct c
         end; reflexivity.
Qed.

Lemma line_step_out intersects tr_segment s h v h1 v1 hit s1 :
  line_step intersects tr_segment s h v = Ok (h1, v1, hit, s1) →
  closes s s1.
Proof.
  unfold line_step.
  destruct (get_bounding_box (sr_points s))
    as [[[[min_x max_x] min_y] max_y]|] eqn:Hbb; res_simpl; [|done].
  assert (sr_points s ≠ []) as Hne by (by destruct (sr_points s)).
  case_box_test prior box; [|done].
  destruct (prior || _); [|intros [= _ _ _ <-]; by left].
  rewrite line_poly_intersection_close by done. res_simpl.
  intros Hstep. right. unfold close_separator.
  repeat match type of Hstep with
         | (if ?c then _ else _) = _ => destruct c
         end; by inversion Hstep.
Qed.

Lemma closes_step intersects tr_segment s0 s h v h1 v1 hit s1 :
  closes s0 s →
  line_step intersects tr_segment s h v = Ok (h1, v1, hit, s1) →
  closes s0 s1.
Proof.
  intros [->| ->] Hstep; [by eapply line_step_out|].
  apply line_step_out in Hstep as [->| ->]; right; [done|].
  by rewrite close_separator_idem.
Qed.

Lemma line_step_idem intersects tr_segment s h v h1 v1 hit s1 :
  line_step intersects tr_segment s h v = Ok (h1, v1, hit, s1) →
  line_step intersects tr_segment s1 h v = Ok (h1, v1, hit, s1).
Proof.
  intros Hstep. destruct (line_step_out _ _ _ _ _ _ _ _ _ Hstep) as [->| ->];
    [done|].
  rewrite line_step_close_separator, Hstep. res_simpl. done.
Qed.

Lemma line_step_closes_flags intersects tr_segment s s' h v :
  closes s s' →
  fst <$> line_step intersects tr_segment s' h v
  = fst <$> line_step intersects tr_segment s h v.
Proof.
  intros [->| ->]; [done|]. rewrite line_step_close_separator.
  by destruct (line_step intersects tr_segment s h v) as [[[[? ?] ?] ?]|].
Qed.

Lemma line_loop_idem intersects tr_segment seps :
  ∀ h v h1 v1 seps1,
    line_loop intersects tr_segment seps h v = Ok (h1, v1, seps1) →
    line_loop intersects tr_segment seps1 h v = Ok (h1, v1, seps1).
Proof.
  induction seps as [|s rest IH]; intros h v h1 v1 seps1; simpl.
  - by intros [= <- <- <-].
  - destruct (line_step _ _ s h v) as [[[[h' v'] hit] s']|] eqn:Hstep;
      res_simpl; [|done].
    apply line_step_idem in Hstep.
    destruct (hit && (h' && v')) eqn:Hbreak.
    + intros [= <- <- <-]. simpl. rewrite Hstep. res_simpl. by rewrite Hbreak.
    + destruct (line_loop _ _ rest h' v') as [[[h'' v''] rest']|] eqn:Hloop;
        res_simpl; [|done].
      intros [= <- <- <-]. simpl. rewrite Hstep. res_simpl. rewrite Hbreak.
      by rewrite (IH _ _ _ _ _ Hloop).
Qed.

Lemma line_loop_closes_flags intersects tr_segment seps seps' :
  Forall2 closes seps seps' →
  ∀ h v,
    fst <$> line_loop intersects tr_segment seps' h v
    = fst <$> line_loop intersects tr_segment seps h v.
Proof.
  induction 1 as [|s s' rest rest' Hs _ IH]; intros h v; simpl; [done|].
  pose proof (line_step_closes_flags intersects tr_segment s s' h v Hs) as Hflags.
  destruct (line_step _ _ s h v) as [[[[h1 v1] hit1] s1]|],
    (line_step _ _ s' h v) as [[[[h2 v2] hit2] s2]|];
    simplify_eq/=; try done.
  destruct (hit1 && (h1 && v1)); [done|].
  specialize (IH h1 v1).
  destruct (line_loop _ _ rest h1 v1) as [[[? ?] ?]|],
    (line_loop _ _ rest' h1 v1) as [[[? ?] ?]|];
    simplify_eq/=; done.
Qed.

Lemma line_loop_out intersects tr_segment seps0 seps :
  Forall2 closes seps0 seps →
  ∀ h v h1 v1 seps1,
    line_loop intersects tr_segment seps h v = Ok (h1, v1, seps1) →
    Forall2 closes seps0 seps1.
Proof.
  induction 1 as [|s0 s rest0 rest Hs Hrest IH]; intros h v h1 v1 seps1; simpl.
  - intros [= _ _ <-]. constructor.
  - destruct (line_step _ _ s h v) as [[[[h' v'] hit] s']|] eqn:Hstep;
      res_simpl; [|done].
    pose proof (closes_step _ _ _ _ _ _ _ _ _ _ Hs Hstep) as Hs'.
    destruct (hit && (h' && v')).
    + intros [= _ _ <-]. by constructor.
    + destruct (line_loop _ _ rest h' v') as [[[h'' v''] rest']|] eqn:Hloop;
        res_simpl; [|done].
      intros [= _ _ <-]. constructor; [done|]. by eapply IH.
Qed.

Lemma Forall2_closes_refl seps : Forall2 closes seps seps.
Proof. induction seps; constructor; [by left|done]. Qed.

(** X5: a second call of the line strategy on the same pair of regions
    returns the same feature and changes nothing further. *)
Theorem line_strategy_second_call intersects a b seps feature seps1 :
  get_edge_separator_feature_line intersects a b seps = Ok (feature, seps1) →
  get_edge_separator_feature_line intersects a b seps1 = Ok (feature, seps1).
Proof.
  unfold get_edge_separator_feature_line.
  destruct (get_bounding_box (tr_points a))
    as [[[[min_x_a max_x_a] min_y_a] max_y_a]|]; res_simpl; [|done].
  destruct (get_bounding_box (tr_points b))
    as [[[[min_x_b max_x_b] min_y_b] max_y_b]|]; res_simpl; [|done].
  match goal with
  | |- context [ line_loop ?i ?seg seps false false ] =>
      destruct (line_loop i seg seps false false) as [[[h v] seps']|] eqn:Hloop
  end; res_simpl; [|done].
  intros [= <- <-]. by rewrite (line_loop_idem _ _ _ _ _ _ _ _ Hloop).
Qed.

(** X6: the feature of a pair of regions does not depend on the polygons
    closed by an earlier call for another pair. *)
Theorem line_strategy_after_earlier_call intersects a b c d seps g seps1 :
  get_edge_separator_feature_line intersects c d seps = Ok (g, seps1) →
  fst <$> get_edge_separator_feature_line intersects a b seps1
  = fst <$> get_edge_separator_feature_line intersects a b seps.
Proof.
  intros Hcall.
  assert (Forall2 closes seps seps1) as Hcloses.
  { revert Hcall. unfold get_edge_separator_feature_line.
    destruct (get_bounding_box (tr_points c))
      as [[[[? ?] ?] ?]|]; res_simpl; [|done].
    destruct (get_bounding_box (tr_points d))
      as [[[[? ?] ?] ?]|]; res_simpl; [|done].
    match goal with
    | |- context [ line_loop ?i ?seg seps false false ] =>
        destruct (line_loop i seg seps false false) as [[[h v] seps']|] eqn:Hloop
    end; res_simpl; [|done].
    intros [= _ <-].
    by eapply line_loop_out; [apply Forall2_closes_refl|]. }
  unfold get_edge_separator_feature_line.
  destruct (get_bounding_box (tr_points a))
    as [[[[min_x_a max_x_a] min_y_a] max_y_a]|]; res_simpl; [|done].
  destruct (get_bounding_box (tr_points b))
    as [[[[min_x_b max_x_b] min_y_b] max_y_b]|]; res_simpl; [|done].
  match goal with
  | |- context [ line_loop ?i ?seg seps false false ] =>
      pose proof (line_loop_closes_flags i seg _ _ Hcloses false false) as Hflags;
      destruct (line_loop i seg seps false false) as [[[h v] seps']|],
        (line_loop i seg seps1 false false) as [[[h' v'] seps'']|]
  end; simplify_eq/=; done.
Qed.

Lemma line_strategy_second_call_witness :
  get_edge_separator_feature_line segments_intersect
    example_region_a example_region_b [example_open_bar]
  = Ok ([0%Q; 1%Q], [close_separator example_open_bar])
  ∧ get_edge_separator_feature_line segments_intersect
      example_region_a example_region_b [close_separator example_open_bar]
    = Ok ([0%Q; 1%Q], [close_separator example_open_bar]).
Proof.
  split; [vm_compute; reflexivity|].
  apply (line_strategy_second_call segments_intersect
           example_region_a example_region_b [example_open_bar]).
  vm_compute. reflexivity.
Defined.

Lemma line_strategy_after_earlier_call_witness :
  get_edge_separator_feature_line segments_intersect
    example_region_a example_region_b [example_open_bar]
  = Ok ([0%Q; 1%Q], [close_separator example_open_bar])
  ∧ fst <$> get_edge_separator_feature_line segments_intersect
              example_region_left example_region_on_bar
              [close_separator example_open_bar]
    = fst <$> get_edge_separator_feature_line segments_intersect
                example_region_left example_region_on_bar [example_open_bar].
Proof.
  split; [vm_compute; reflexivity|].
  apply (line_strategy_after_earlier_call segments_intersect
           example_region_left example_region_on_bar
           example_region_a example_region_b [example_open_bar] [0%Q; 1%Q]).
  vm_compute. reflexivity.
Defined.

Lemma get_bounding_box_ok points :
  points ≠ [] → ∃ bb, get_bounding_box points = Ok bb.
Proof. destruct points; [done|]. intros _. by eexists. Qed.

Lemma line_step_total intersects tr_segment s h v :
  sr_points s ≠ [] →
  ∃ h1 v1 hit s1, line_step intersects tr_segment s h v = Ok (h1, v1, hit, s1).
Proof.
  intros Hne. unfold line_step.
  destruct (get_bounding_box_ok _ Hne)
    as [[[[min_x max_x] min_y] max_y] ->]. res_simpl.
  rewrite (line_poly_intersection_close _ _ [_; _; _; _]) by done. res_simpl.
  destruct (existsb _ _ || _); [|by repeat eexists].
  rewrite line_poly_intersection_close by done. res_simpl.
  repeat match goal with
         | |- context [ if ?c then _ else _ ] => destruct c
         end; by repeat eexists.
Qed.

Lemma line_loop_total intersects tr_segment seps :
  Forall (λ s, sr_points s ≠ []) seps →
  ∀ h v, ∃ h1 v1 seps1,
    line_loop intersects tr_segment seps h v = Ok (h1, v1, seps1).
Proof.
  induction 1 as [|s rest Hs _ IH]; intros h v; simpl; [by repeat eexists|].
  destruct (line_step_total intersects tr_segment s h v Hs)
    as (h1 & v1 & hit & s1 & ->). res_simpl.
  destruct (hit && (h1 && v1)); [by repeat eexists|].
  destruct (IH h1 v1) as (h2 & v2 & rest' & ->). res_simpl.
  by repeat eexists.
Qed.

Lemma bb_loop_total bb_a bb_b seps :
  Forall (λ s, sr_points s ≠ []) seps →
  ∀ h v, ∃ h1 v1, bb_loop bb_a bb_b seps h v = Ok (h1, v1).
Proof.
  induction 1 as [|s rest Hs _ IH]; intros h v; simpl; [by repeat eexists|].
  destruct (get_bounding_box_ok _ Hs) as [bb_s ->]. res_simpl.
  destruct (bb_rule_check bb_a bb_b bb_s (bb_orientation s bb_s) h v)
    as [h1 v1].
  destruct (h1 && v1); [by repeat eexists|]. apply IH.
Qed.

(** X7: on regions and separators that all have a polygon, both
    strategies return: the feature is a pair of binary flags, and the
    line strategy leaves every separator as it was or with its polygon
    closed. *)
Theorem separator_strategies_return intersects a b seps :
  tr_points a ≠ [] → tr_points b ≠ [] →
  Forall (λ s, sr_points s ≠ []) seps →
  (∃ h v, get_edge_separator_feature_bb a b seps
          = Ok [float_of_bool h; float_of_bool v])
  ∧ ∃ h v seps1,
      get_edge_separator_feature_line intersects a b seps
      = Ok ([float_of_bool h; float_of_bool v], seps1)
      ∧ Forall2 closes seps seps1.
Proof.
  intros Ha Hb Hseps.
  unfold get_edge_separator_feature_bb, get_edge_separator_feature_line.
  destruct (get_bounding_box_ok _ Ha)
    as [[[[min_x_a max_x_a] min_y_a] max_y_a] ->].
  destruct (get_bounding_box_ok _ Hb)
    as [[[[min_x_b max_x_b] min_y_b] max_y_b] ->]. res_simpl. split.
  - destruct (bb_loop_total (min_x_a, max_x_a, min_y_a, max_y_a)
                (min_x_b, max_x_b, min_y_b, max_y_b) seps Hseps false false)
      as (h & v & ->). res_simpl. by exists h, v.
  - match goal with
    | |- context [ line_loop ?i ?seg seps false false ] =>
        destruct (line_loop_total i seg seps Hseps false false)
          as (h & v & seps1 & Hloop)
    end.
    rewrite Hloop. res_simpl. exists h, v, seps1. split; [done|].
    by eapply line_loop_out; [apply Forall2_closes_refl|].
Qed.

Lemma separator_strategies_return_witness :
  (∃ h v, get_edge_separator_feature_bb example_region_a example_region_b
            [example_open_bar]
          = Ok [float_of_bool h; float_of_bool v])
  ∧ ∃ h v seps1,
      get_edge_separator_feature_line segments_intersect
        example_region_a example_region_b [example_open_bar]
      = Ok ([float_of_bool h; float_of_bool v], seps1)
      ∧ Forall2 closes [example_open_bar] seps1.
Proof.
  apply (separator_strategies_return segments_intersect
           example_region_a example_region_b [example_open_bar]).
  - discriminate.
  - discriminate.
  - repeat constructor. discriminate.
Defined.

(** ** Topology builders *)

Ltac res_simpl_in H :=
  cbn [mbind result_bind mret result_ret fmap result_fmap] in H.

(** X8: the fully connected edge set lists every ordered pair of distinct
    nodes below [num_nodes] exactly once; with an edge it has the reverse
    edge. *)
Theorem fully_connected_edges_set N :
  NoDup (fully_connected_edges N)
  ∧ (∀ i j, (i, j) ∈ fully_connected_edges N ↔ (i < N ∧ j < N ∧ i ≠ j)%nat)
  ∧ (∀ i j, (i, j) ∈ fully_connected_edges N → (j, i) ∈ fully_connected_edges N).
Proof.
  rewrite fully_connected_edges_nested_loops.
  split; [|split].
  - unfold fully_connected_nested_loops. apply NoDup_bind.
    + intros i i' e _ _ Hi Hi'.
      apply list_elem_of_bind in Hi as (j & Hj & _).
      apply list_elem_of_bind in Hi' as (j' & Hj' & _).
      repeat case_bool_decide; try by apply elem_of_nil in Hj.
      * by apply elem_of_nil in Hj'.
      * apply list_elem_of_singleton in Hj, Hj'. congruence.
    + intros i _. apply NoDup_bind.
      * intros j j' e _ _ Hj Hj'.
        repeat case_bool_decide; try by apply elem_of_nil in Hj.
        -- by apply elem_of_nil in Hj'.
        -- apply list_elem_of_singleton in Hj, Hj'. congruence.
      * intros j _. case_bool_decide; [constructor|apply NoDup_singleton].
      * apply NoDup_seq.
    + apply NoDup_seq.
  - apply elem_of_nested_loops.
  - intros i j. rewrite !elem_of_nested_loops. lia.
Qed.

Lemma mapM_result_Ok {A B} (f : A → result B) (l : list A) ys :
  mapM f l = Ok ys → Forall2 (λ x y, f x = Ok y) l ys.
Proof.
  revert ys. induction l as [|x l IH]; intros ys; simpl.
  - intros [= <-]. constructor.
  - destruct (f x) as [y|] eqn:Hfx; res_simpl; [|done].
    destruct (mapM f l) as [k|]; res_simpl; [|done].
    intros [= <-]. constructor; [done|by apply IH].
Qed.

Lemma mapM_result_Raise {A B} (f : A → result B) (l : list A) e :
  mapM f l = Raise e → ∃ x, x ∈ l ∧ f x = Raise e.
Proof.
  induction l as [|x l IH]; simpl; [done|].
  destruct (f x) as [y|e'] eqn:Hfx; res_simpl.
  - destruct (mapM f l) as [k|e']; res_simpl; [done|].
    intros [= <-]. destruct IH as (x' & Hin & Hx'); [done|].
    exists x'. split; [by right|done].
  - intros [= <-]. exists x. split; [by left|done].
Qed.

Lemma elem_of_take_drop {A} (l : list A) lo m x :
  x ∈ take m (drop lo l)
  ↔ ∃ k, (lo ≤ k < lo + m)%nat ∧ l !! k = Some x.
Proof.
  rewrite list_elem_of_lookup. split.
  - intros [j Hj]. apply lookup_take_Some in Hj as [Hj Hlt].
    rewrite lookup_drop in Hj. exists (lo + j)%nat. split; [lia|done].
  - intros (k & Hk & Hx). exists (k - lo)%nat.
    apply lookup_take_Some. split; [|lia].
    rewrite lookup_drop. by replace (lo + (k - lo))%nat with k by lia.
Qed.

Section DelaunayProperties.

Variable position : Type.
Variable round_base : list position -> list position.
Variable Delaunay : list position -> result (list nat * list nat).

(** X9: when [delaunay_edges] returns, its edges are the neighbour lists of
    the triangulation it used, the one of the rounded positions or, after
    a [QhullError], the one of the raw positions: [(v, n)] is an edge iff
    [v] is a node and [n] stands in [indices] between the pointers of [v]
    and [v + 1]. *)
Theorem delaunay_edges_decode num_nodes node_positions edges :
  delaunay_edges position round_base Delaunay num_nodes node_positions
  = Ok edges →
  ∃ indice_pointer indices,
    (Delaunay (round_base node_positions) = Ok (indice_pointer, indices)
     ∨ (Delaunay (round_base node_positions) = Raise QhullError
        ∧ Delaunay node_positions = Ok (indice_pointer, indices)))
    ∧ (0 < num_nodes < length indice_pointer)%nat
    ∧ ∀ v n,
        (v, n) ∈ edges
        ↔ (v < num_nodes)%nat
          ∧ ∃ lo hi k,
              indice_pointer !! v = Some lo
              ∧ indice_pointer !! S v = Some hi
              ∧ (lo ≤ k < hi)%nat ∧ indices !! k = Some n.
Proof.
  unfold delaunay_edges. intros Hrun.
  assert (∃ indice_pointer indices,
            (Delaunay (round_base node_positions) = Ok (indice_pointer, indices)
             ∨ (Delaunay (round_base node_positions) = Raise QhullError
                ∧ Delaunay node_positions = Ok (indice_pointer, indices)))
            ∧ (mapM (delaunay_interaction indice_pointer indices)
                 (seq 0 num_nodes)
               ≫= λ rows, if bool_decide (num_nodes = 0%nat)
                          then Raise ValueError else Ok (concat rows))
              = Ok edges) as (indice_pointer & indices & Htri & Hdecode).
  { destruct (Delaunay (round_base node_positions)) as [[ip ix]|[]] eqn:Hsmooth;
      res_simpl_in Hrun; try done.
    - exists ip, ix. split; [by left|done].
    - destruct (Delaunay node_positions) as [[ip ix]|] eqn:Hraw;
        res_simpl_in Hrun; [|done].
      exists ip, ix. split; [by right|done]. }
  clear Hrun. exists indice_pointer, indices. split; [done|].
  destruct (mapM _ _) as [rows|] eqn:Hrows; res_simpl_in Hdecode; [|done].
  case_bool_decide as Hzero; [done|]. injection Hdecode as <-.
  apply mapM_result_Ok in Hrows.
  assert (∀ v row, rows !! v = Some row →
            ∃ lo hi, indice_pointer !! v = Some lo
                     ∧ indice_pointer !! S v = Some hi
                     ∧ row = pair v <$> take (hi - lo) (drop lo indices))
    as Hrow.
  { intros v row Hv.
    destruct (Forall2_lookup_r _ _ _ _ _ Hrows Hv) as (v' & Hv' & Hdec).
    apply lookup_seq in Hv' as [-> _]. simpl in Hdec.
    unfold delaunay_interaction in Hdec.
    destruct (indice_pointer !! v) as [lo|]; [|done].
    destruct (indice_pointer !! S v) as [hi|]; [|done].
    exists lo, hi. by inversion Hdec. }
  assert (length rows = num_nodes) as Hlen
    by (by rewrite <- (Forall2_length _ _ _ Hrows), length_seq).
  split.
  - split; [lia|].
    destruct (lookup_lt_is_Some_2 rows (num_nodes - 1)) as [row Hlast];
      [rewrite Hlen; lia|].
    destruct (Hrow _ _ Hlast) as (lo & hi & _ & Hhi & _).
    apply lookup_lt_Some in Hhi. lia.
  - intros v n. rewrite list_elem_of_In, in_concat. split.
    + intros (row & Hin & Hvn). apply list_elem_of_In in Hin, Hvn.
      apply list_elem_of_lookup in Hin as [v' Hv'].
      pose proof (lookup_lt_Some _ _ _ Hv') as Hlt.
      destruct (Hrow _ _ Hv') as (lo & hi & Hlo & Hhi & ->).
      apply list_elem_of_fmap in Hvn as (n' & [= -> ->] & Hn).
      split; [by rewrite <- Hlen|]. apply elem_of_take_drop in Hn as (k & Hk & Hn).
      exists lo, hi, k. repeat split; try done; lia.
    + intros (Hv & lo & hi & k & Hlo & Hhi & Hk & Hn).
      destruct (lookup_lt_is_Some_2 rows v) as [row Hv']; [by rewrite Hlen|].
      destruct (Hrow _ _ Hv') as (lo' & hi' & Hlo' & Hhi' & ->).
      exists (pair v <$> take (hi' - lo') (drop lo' indices)).
      split; [by apply list_elem_of_In, list_elem_of_lookup_2 with v|].
      apply list_elem_of_In, list_elem_of_fmap. exists n. split; [done|].
      apply elem_of_take_drop. exists k. split; [|done].
      rewrite Hlo in Hlo'. rewrite Hhi in Hhi'. simplify_eq. lia.
Qed.

(** X10: [delaunay_edges] raises [QhullError] exactly when the triangulation
    raises it on the rounded and again on the raw positions. *)
Theorem delaunay_edges_QhullError num_nodes node_positions :
  delaunay_edges position round_base Delaunay num_nodes node_positions
  = Raise QhullError
  ↔ Delaunay (round_base node_positions) = Raise QhullError
    ∧ Delaunay node_positions = Raise QhullError.
Proof.
  unfold delaunay_edges.
  assert (∀ ip ix,
            (mapM (delaunay_interaction ip ix) (seq 0 num_nodes)
             ≫= λ rows, if bool_decide (num_nodes = 0%nat)
                        then Raise ValueError else Ok (concat rows))
            ≠ Raise QhullError) as Hdecode.
  { intros ip ix. destruct (mapM _ _) as [rows|e] eqn:Hrows; res_simpl.
    - by case_bool_decide.
    - apply mapM_result_Raise in Hrows as (v & _ & Hv).
      unfold delaunay_interaction in Hv.
      destruct (ip !! v), (ip !! S v); by inversion Hv. }
  split.
  - destruct (Delaunay (round_base node_positions)) as [[ip ix]|[]];
      res_simpl; try done; try (intros H; by apply Hdecode in H).
    destruct (Delaunay node_positions) as [[ip ix]|e]; res_simpl.
    + intros H. by apply Hdecode in H.
    + by intros [= ->].
  - by intros [-> ->].
Qed.

End DelaunayProperties.

Lemma delaunay_edges_decode_witness :
  delaunay_edges nat (λ _, []) example_Delaunay 3 [1; 2; 3]%nat
  = Ok [(0, 1); (0, 2); (1, 0); (1, 2); (2, 0); (2, 1)]%nat
  ∧ ∃ indice_pointer indices,
      (example_Delaunay [] = Ok (indice_pointer, indices)
       ∨ (example_Delaunay [] = Raise QhullError
          ∧ example_Delaunay [1; 2; 3]%nat = Ok (indice_pointer, indices)))
      ∧ (0 < 3 < length indice_pointer)%nat
      ∧ ∀ v n,
          (v, n) ∈ [(0, 1); (0, 2); (1, 0); (1, 2); (2, 0); (2, 1)]%nat
          ↔ (v < 3)%nat
            ∧ ∃ lo hi k,
                indice_pointer !! v = Some lo
                ∧ indice_pointer !! S v = Some hi
                ∧ (lo ≤ k < hi)%nat ∧ indices !! k = Some n.
Proof.
  split; [vm_compute; reflexivity|].
  apply (delaunay_edges_decode nat (λ _, []) example_Delaunay 3
           [1; 2; 3]%nat).
  vm_compute. reflexivity.
Defined.

(** ** Discard pass, continued *)

Section DiscardMore.

Variable polygon_bounding_box : list point -> Z * Z.

Lemma collected_ids_survivors text_lines_given trs :
  Forall (λ tr, survives polygon_bounding_box tr) trs →
  collected_ids polygon_bounding_box text_lines_given trs = [].
Proof.
  unfold collected_ids. induction 1 as [|tr trs Htr _ IH]; [done|].
  rewrite bind_cons, IH. unfold survives in Htr.
  apply Is_true_true, andb_true_iff in Htr as [Hno Hsmall].
  apply negb_true_iff in Hno, Hsmall. by rewrite Hno, Hsmall.
Qed.

Lemma elem_of_collected_ids id trs :
  id ∈ collected_ids polygon_bounding_box true trs
  ↔ ∃ tr, tr ∈ trs ∧ has_no_text tr = false
          ∧ too_small polygon_bounding_box tr = true
          ∧ id ∈ tl_id <$> tr_text_lines tr.
Proof.
  unfold collected_ids. rewrite list_elem_of_bind. split.
  - intros (tr & Hid & Htr). exists tr.
    destruct (has_no_text tr); [by apply elem_of_nil in Hid|].
    destruct (too_small polygon_bounding_box tr);
      [done|by apply elem_of_nil in Hid].
  - intros (tr & Htr & Hno & Hsmall & Hid). exists tr.
    by rewrite Hno, Hsmall.
Qed.

(** X11: the discard pass never raises; it returns a sublist of the regions
    it was given, and a second pass over its own result changes neither
    the regions nor the lines. *)
Theorem discard_idempotent text_regions text_lines :
  ∃ text_regions' text_lines',
    discard_text_regions_and_lines polygon_bounding_box text_regions text_lines
    = Ok (text_regions', text_lines')
    ∧ text_regions' `sublist_of` text_regions
    ∧ discard_text_regions_and_lines polygon_bounding_box
        text_regions' text_lines'
      = Ok (text_regions', text_lines').
Proof.
  eexists _, _. split; [apply discard_text_regions_and_lines_spec|].
  split; [apply sublist_filter|].
  rewrite discard_text_regions_and_lines_spec.
  rewrite collected_ids_survivors.
  - f_equal. f_equal. by apply list_filter_filter_l.
  - apply Forall_forall. intros tr Htr.
    by apply list_elem_of_filter in Htr as [? _].
Qed.

(** X12: from a given line list the pass drops exactly the lines whose id
    is the id of a line of a region that has text and is too small; the
    other lines stay, in their order. *)
Theorem discard_lines text_regions lines text_regions' text_lines' :
  discard_text_regions_and_lines polygon_bounding_box text_regions (Some lines)
  = Ok (text_regions', text_lines') →
  ∃ lines',
    text_lines' = Some lines'
    ∧ lines' `sublist_of` lines
    ∧ ∀ line,
        line ∈ lines'
        ↔ line ∈ lines
          ∧ ¬ ∃ tr, tr ∈ text_regions ∧ has_no_text tr = false
                    ∧ too_small polygon_bounding_box tr = true
                    ∧ tl_id line ∈ tl_id <$> tr_text_lines tr.
Proof.
  rewrite discard_text_regions_and_lines_spec. intros [= _ <-].
  destruct lines as [|line0 lines].
  - exists []. cbn [truthy_list].
    assert (collected_ids polygon_bounding_box false text_regions = []) as ->.
    { unfold collected_ids. induction text_regions as [|tr trs IH]; [done|].
      rewrite bind_cons, IH.
      by destruct (has_no_text tr), (too_small polygon_bounding_box tr). }
    split; [done|]. split; [done|]. intros line. split.
    + by intros ?%elem_of_nil.
    + by intros [?%elem_of_nil _].
  - cbn [truthy_list].
    exists (filter (λ line,
                      tl_id line ∉ collected_ids polygon_bounding_box true
                                    text_regions) (line0 :: lines)).
    split; [|split].
    + destruct (collected_ids polygon_bounding_box true text_regions) eqn:Hids;
        [|done].
      simpl. f_equal. symmetry.
      induction (line0 :: lines) as [|l ls IH]; [done|].
      rewrite filter_cons_True by apply not_elem_of_nil. by rewrite IH.
    + apply sublist_filter.
    + intros line. rewrite list_elem_of_filter, elem_of_collected_ids. tauto.
Qed.

End DiscardMore.


Lemma discard_lines_witness :
  discard_text_regions_and_lines (λ _, (5, 5)) [example_region_a]
    (Some [example_empty_line; example_line "r1l1" "Lorem"])
  = Ok ([], Some [example_empty_line])
  ∧ ∃ lines',
      Some [example_empty_line] = Some lines'
      ∧ lines' `sublist_of` [example_empty_line; example_line "r1l1" "Lorem"]
      ∧ ∀ line,
          line ∈ lines'
          ↔ line ∈ [example_empty_line; example_line "r1l1" "Lorem"]
            ∧ ¬ ∃ tr, tr ∈ [example_region_a] ∧ has_no_text tr = false
                      ∧ too_small (λ _, (5, 5)) tr = true
                      ∧ tl_id line ∈ tl_id <$> tr_text_lines tr.
Proof.
  split; [vm_compute; reflexivity|].
  apply (discard_lines (λ _, (5, 5)) [example_region_a]
           [example_empty_line; example_line "r1l1" "Lorem"] []).
  vm_compute. reflexivity.
Defined.

(** ** Ground-truth relations, continued *)

Lemma tr_gt_article_ids_length article_dict text_regions ids :
  tr_gt_article_ids article_dict text_regions = Ok ids →
  length ids = length text_regions.
Proof.
  revert ids. induction text_regions as [|tr rest IH]; intros ids; simpl.
  - by intros [= <-].
  - destruct (article_dict !! tr_id tr); [|done].
    destruct (tr_gt_article_ids article_dict rest); [|done].
    res_simpl. intros [= <-]. simpl. f_equal. by apply IH.
Qed.

(** X13: the relation list is transitive; it holds the entry (1, i, i) of
    every region, no entry twice, and only entries (1, i, j) between two
    regions of the page, so that it has at least one entry per region and
    at most one per ordered pair of regions. *)
Theorem ground_truth_relations_transitive article_dict text_regions rels :
  ground_truth_relations article_dict text_regions = Ok rels →
  (∀ i j k, (1%nat, i, j) ∈ rels → (1%nat, j, k) ∈ rels → (1%nat, i, k) ∈ rels)
  ∧ (∀ i, (i < length text_regions)%nat → (1%nat, i, i) ∈ rels)
  ∧ NoDup rels
  ∧ (∀ l i j, (l, i, j) ∈ rels
              → l = 1%nat ∧ (i < length text_regions)%nat
                ∧ (j < length text_regions)%nat)
  ∧ (length text_regions ≤ length rels
     ≤ length text_regions * length text_regions)%nat.
Proof.
  unfold ground_truth_relations.
  destruct (tr_gt_article_ids article_dict text_regions) as [ids|] eqn:Hids;
    res_simpl; [|done].
  intros [= <-]. apply tr_gt_article_ids_length in Hids as <-.
  split; [|split; [|split; [apply NoDup_build_gt|split]]].
  - intros i j k. rewrite !elem_of_build_gt.
    intros (_ & a & Hi & Hj) (_ & b & Hj' & Hk).
    split; [done|]. exists a. split; [done|]. congruence.
  - intros i Hi. apply elem_of_build_gt. split; [done|].
    destruct (lookup_lt_is_Some_2 ids i Hi) as [a Ha]. by exists a.
  - intros l i j (-> & a & Hi & Hj)%elem_of_build_gt.
    apply lookup_lt_Some in Hi, Hj. by repeat split.
  - split.
    + transitivity (length ((λ i, (1%nat, i, i)) <$> seq 0 (length ids))).
      { by rewrite length_fmap, length_seq. }
      apply submseteq_length, NoDup_submseteq.
      * apply NoDup_fmap_2; [by intros ?? [= ->]|apply NoDup_seq].
      * intros x (i & -> & Hi)%list_elem_of_fmap. apply elem_of_seq in Hi.
        apply elem_of_build_gt. split; [done|].
        destruct (lookup_lt_is_Some_2 ids i) as [a Ha]; [lia|]. by exists a.
    + transitivity (length ((λ ij : nat * nat, (1%nat, ij.1, ij.2))
                              <$> (i ← seq 0 (length ids);
                                   pair i <$> seq 0 (length ids)))).
      * apply submseteq_length, NoDup_submseteq; [apply NoDup_build_gt|].
        intros [[l i] j] (-> & a & Hi & Hj)%elem_of_build_gt.
        apply list_elem_of_fmap. exists (i, j). split; [done|].
        apply list_elem_of_bind. exists i. split.
        -- apply list_elem_of_fmap. exists j. split; [done|].
           apply elem_of_seq. apply lookup_lt_Some in Hj. lia.
        -- apply elem_of_seq. apply lookup_lt_Some in Hi. lia.
      * rewrite length_fmap.
        assert (∀ (l : list nat) n,
                  length (i ← l; pair i <$> seq 0 n) = (length l * n)%nat)
          as Hlen.
        { intros l n. induction l as [|x l IH]; [done|].
          rewrite bind_cons, length_app, IH, length_fmap, length_seq.
          simpl. lia. }
        by rewrite Hlen, length_seq.
Qed.

(** X14: the builder of the relations raises only [KeyError], and exactly
    when one of the regions has no entry in the article dictionary. *)
Theorem ground_truth_relations_KeyError article_dict text_regions e :
  ground_truth_relations article_dict text_regions = Raise e
  ↔ e = KeyError
    ∧ ∃ tr, tr ∈ text_regions ∧ article_dict !! tr_id tr = None.
Proof.
  unfold ground_truth_relations. split.
  - destruct (tr_gt_article_ids article_dict text_regions) as [ids|e'] eqn:Hids;
      res_simpl; [done|]. intros [= ->].
    revert Hids. induction text_regions as [|tr rest IH]; simpl; [done|].
    destruct (article_dict !! tr_id tr) eqn:Htr.
    + destruct (tr_gt_article_ids article_dict rest) as [|e']; res_simpl;
        [done|]. intros [= ->]. destruct IH as (-> & tr' & Hin & Hnone); [done|].
      split; [done|]. exists tr'. split; [by right|done].
    + intros [= <-]. split; [done|]. exists tr. split; [by left|done].
  - intros (-> & tr & Hin & Hnone).
    destruct (tr_gt_article_ids article_dict text_regions) as [ids|e'] eqn:Hids;
      res_simpl.
    + pose proof (tr_gt_article_ids_lookup _ _ _ Hids) as Hlookup.
      apply list_elem_of_lookup in Hin as [k Hk].
      specialize (Hlookup k). rewrite Hk in Hlookup. simpl in Hlookup.
      rewrite Hnone in Hlookup. simpl in Hlookup.
      apply lookup_ge_None in Hlookup. apply lookup_lt_Some in Hk.
      apply tr_gt_article_ids_length in Hids. lia.
    + f_equal. clear -Hids. revert Hids.
      induction text_regions as [|tr rest IH]; simpl; [done|].
      destruct (article_dict !! tr_id tr); [|by intros [= <-]].
      destruct (tr_gt_article_ids article_dict rest); res_simpl; [done|].
      intros [= <-]. by apply IH.
Qed.

(** ** External feature blocks, continued *)

Lemma except_KeyError_cases {A} (body handler : result A) :
  except_KeyError body handler
  = match body with Raise KeyError => handler | r => r end.
Proof. done. Qed.

Lemma py_getitem_raise v k e :
  py_getitem v k = Raise e → e = KeyError ∨ e = TypeError.
Proof.
  unfold py_getitem. destruct v; try (intros [= <-]; by right).
  destruct (dict_get d k); [done|]. intros [= <-]. by left.
Qed.

Lemma py_extend_result feature v :
  match py_extend feature v with
  | Ok feature' => feature `prefix_of` feature'
  | Raise e => e = TypeError
  end.
Proof.
  unfold py_extend, py_iter.
  destruct v; res_simpl; try done; by apply prefix_app_r.
Qed.


Lemma ground_truth_relations_transitive_witness :
  ground_truth_relations example_article_dict
    [example_region_a; example_region_b]
  = Ok [(1, 0, 0); (1, 0, 1); (1, 1, 0); (1, 1, 1)]%nat
  ∧ (∀ i j k,
       (1%nat, i, j) ∈ [(1, 0, 0); (1, 0, 1); (1, 1, 0); (1, 1, 1)]%nat →
       (1%nat, j, k) ∈ [(1, 0, 0); (1, 0, 1); (1, 1, 0); (1, 1, 1)]%nat →
       (1%nat, i, k) ∈ [(1, 0, 0); (1, 0, 1); (1, 1, 0); (1, 1, 1)]%nat)
  ∧ (∀ i, (i < length [example_region_a; example_region_b])%nat →
          (1%nat, i, i) ∈ [(1, 0, 0); (1, 0, 1); (1, 1, 0); (1, 1, 1)]%nat)
  ∧ NoDup [(1, 0, 0); (1, 0, 1); (1, 1, 0); (1, 1, 1)]%nat
  ∧ (∀ l i j, (l, i, j) ∈ [(1, 0, 0); (1, 0, 1); (1, 1, 0); (1, 1, 1)]%nat
              → l = 1%nat
                ∧ (i < length [example_region_a; example_region_b])%nat
                ∧ (j < length [example_region_a; example_region_b])%nat)
  ∧ (length [example_region_a; example_region_b]
     ≤ length [(1, 0, 0); (1, 0, 1); (1, 1, 0); (1, 1, 1)]%nat
     ≤ length [example_region_a; example_region_b]
       * length [example_region_a; example_region_b])%nat.
Proof.
  split; [vm_compute; reflexivity|].
  apply (ground_truth_relations_transitive example_article_dict
           [example_region_a; example_region_b]).
  vm_compute. reflexivity.
Defined.

(** A step that may also raise [KeyError], before the handler. *)
Lemma node_lookup_result table key feature :
  match (entry ← py_getitem table key; py_extend feature entry) with
  | Ok feature' => feature `prefix_of` feature'
  | Raise e => e = KeyError ∨ e = TypeError
  end.
Proof.
  destruct (py_getitem table key) as [entry|e] eqn:Hget; res_simpl.
  - pose proof (py_extend_result feature entry) as Hext.
    destruct (py_extend feature entry); [done|by right].
  - by apply py_getitem_raise in Hget.
Qed.

Lemma node_external_step_result page_key region_id ext feature :
  extends_or_TypeError feature
    (node_external_step page_key region_id ext feature).
Proof.
  unfold node_external_step, extends_or_TypeError.
  destruct (py_getitem ext page_key) as [ext_page|e] eqn:Hpage.
  2: { apply py_getitem_raise in Hpage as [-> | ->]; done. }
  destruct (py_contains "node_features" ext_page) as [[]|e] eqn:Hhas;
    res_simpl; [|done|].
  2: { unfold py_contains in Hhas. by destruct ext_page; inversion Hhas. }
  destruct (py_getitem ext_page "node_features") as [table|e] eqn:Htable;
    res_simpl.
  - destruct (py_getitem table region_id) as [entry|e] eqn:Hget; res_simpl.
    + pose proof (py_extend_result feature entry) as Hentry.
      destruct (py_extend feature entry) as [|e]; [done|]. by rewrite Hentry.
    + apply py_getitem_raise in Hget as [-> | ->]; [|done]. simpl.
      destruct (py_getitem table "default") as [default|e] eqn:Hdef; res_simpl.
      * by apply prefix_app_r.
      * apply py_getitem_raise in Hdef as [-> | ->]; [|done].
        by apply prefix_app_r.
  - apply py_getitem_raise in Htable as [-> | ->]; [|done].
    simpl. by apply prefix_app_r.
Qed.

Lemma edge_external_step_result page_key id_a id_b ext feature :
  extends_or_TypeError feature
    (edge_external_step page_key id_a id_b ext feature).
Proof.
  unfold edge_external_step, extends_or_TypeError.
  destruct (py_getitem ext page_key) as [ext_page|e] eqn:Hpage.
  2: { apply py_getitem_raise in Hpage as [-> | ->]; done. }
  destruct (py_contains "edge_features" ext_page) as [[]|e] eqn:Hhas;
    res_simpl; [|done|].
  2: { unfold py_contains in Hhas. by destruct ext_page; inversion Hhas. }
  assert (extends_or_TypeError feature
            (except_KeyError
               (table ← py_getitem ext_page "edge_features";
                default ← py_getitem table "default";
                py_extend feature default)
               (Ok (feature ++ [PNum (1 # 2)])))) as Hdefault.
  { unfold extends_or_TypeError.
    destruct (py_getitem ext_page "edge_features") as [table|e] eqn:Htable;
      res_simpl.
    - pose proof (node_lookup_result table "default" feature) as Hentry.
      destruct (py_getitem table "default" ≫= _) as [|e]; [done|].
      destruct Hentry as [-> | ->]; [|done]. simpl. by apply prefix_app_r.
    - apply py_getitem_raise in Htable as [-> | ->]; [|done].
      simpl. by apply prefix_app_r. }
  unfold extends_or_TypeError in Hdefault.
  destruct (py_getitem ext_page "edge_features") as [table|e] eqn:Htable;
    res_simpl.
  - destruct (py_getitem table id_a) as [row|e] eqn:Hrow; res_simpl.
    + pose proof (node_lookup_result row id_b feature) as Hentry.
      destruct (py_getitem row id_b ≫= _) as [|e]; [done|].
      by destruct Hentry as [-> | ->].
    + by apply py_getitem_raise in Hrow as [-> | ->].
  - by apply py_getitem_raise in Htable as [-> | ->].
Qed.

Lemma node_external_features_result page_key region_id external_data :
  ∀ feature,
    extends_or_TypeError feature
      (node_external_features page_key region_id external_data feature).
Proof.
  induction external_data as [|ext rest IH]; intros feature; simpl; [done|].
  pose proof (node_external_step_result page_key region_id ext feature)
    as Hstep.
  destruct (node_external_step page_key region_id ext feature)
    as [feature'|e]; res_simpl; [|done].
  specialize (IH feature'). unfold extends_or_TypeError in *.
  destruct (node_external_features _ _ rest feature'); [|done].
  by etrans.
Qed.

Lemma edge_external_features_result page_key id_a id_b external_data :
  ∀ feature,
    extends_or_TypeError feature
      (edge_external_features page_key id_a id_b external_data feature).
Proof.
  induction external_data as [|ext rest IH]; intros feature; simpl; [done|].
  pose proof (edge_external_step_result page_key id_a id_b ext feature)
    as Hstep.
  destruct (edge_external_step page_key id_a id_b ext feature)
    as [feature'|e]; res_simpl; [|done].
  specialize (IH feature'). unfold extends_or_TypeError in *.
  destruct (edge_external_features _ _ _ rest feature'); [|done].
  by etrans.
Qed.

(** X15: whatever the external sources contain, the external blocks never
    let a [KeyError] escape and never touch what the feature vector
    already holds: they return an extension of it, or raise a
    [TypeError]. *)
Theorem external_features_extend
    page_key region_id id_a id_b external_data feature :
  extends_or_TypeError feature
    (node_external_features page_key region_id external_data feature)
  ∧ extends_or_TypeError feature
      (edge_external_features page_key id_a id_b external_data feature).
Proof.
  split.
  - apply node_external_features_result.
  - apply edge_external_features_result.
Qed.

(** X16: the first tier.  When the node table of a source has an entry
    for the region that is a list, the node step appends its items;
    independently, when the edge table has a list entry for the pair, the
    edge step appends its items. *)
Theorem external_entry_appended
    page_key region_id id_a id_b ext node_table edge_table row items items'
    node_feature edge_feature :
  (has_feature_table ext page_key "node_features" node_table →
   dict_get node_table region_id = Some (PList items) →
   node_external_step page_key region_id ext node_feature
   = Ok (node_feature ++ items))
  ∧ (has_feature_table ext page_key "edge_features" edge_table →
     dict_get edge_table id_a = Some (PDict row) →
     dict_get row id_b = Some (PList items') →
     edge_external_step page_key id_a id_b ext edge_feature
     = Ok (edge_feature ++ items')).
Proof.
  split.
  - intros (ext_page & Hpage & Hntable) Hentry.
    unfold node_external_step. rewrite Hpage.
    rewrite (py_contains_key _ _ _ Hntable). res_simpl.
    unfold py_getitem. rewrite Hntable. res_simpl. by rewrite Hentry.
  - intros (ext_page & Hpage & Hetable) Hrow Hcell.
    unfold edge_external_step. rewrite Hpage.
    rewrite (py_contains_key _ _ _ Hetable). res_simpl.
    unfold py_getitem. rewrite Hetable. res_simpl. rewrite Hrow. res_simpl.
    by rewrite Hcell.
Qed.

(** X17: the second tier.  When the node table has no entry for the
    region but a default, the node step appends the default as one value,
    whatever it is; independently, when the lookup of the pair in the edge
    table fails and the table has a default, the edge step appends the
    items of the default, and raises a [TypeError] when the default is a
    number. *)
Theorem external_default_tier
    page_key region_id id_a id_b ext node_table edge_table default default'
    node_feature edge_feature :
  (has_feature_table ext page_key "node_features" node_table →
   dict_get node_table region_id = None →
   dict_get node_table "default" = Some default →
   node_external_step page_key region_id ext node_feature
   = Ok (node_feature ++ [default]))
  ∧ (has_feature_table ext page_key "edge_features" edge_table →
     pair_lookup_fails edge_table id_a id_b →
     dict_get edge_table "default" = Some default' →
     edge_external_step page_key id_a id_b ext edge_feature
     = py_extend edge_feature default'
     ∧ (∀ q, default' = PNum q →
             edge_external_step page_key id_a id_b ext edge_feature
             = Raise TypeError)).
Proof.
  split.
  { intros (ext_page & Hpage & Hntable) Hentry Hdefault.
    unfold node_external_step. rewrite Hpage.
    rewrite (py_contains_key _ _ _ Hntable). res_simpl.
    unfold py_getitem. rewrite Hntable. res_simpl.
    by rewrite Hentry, Hdefault. }
  intros (ext_page & Hpage & Hetable) Hpair Hdefault'.
  assert (edge_external_step page_key id_a id_b ext edge_feature
          = py_extend edge_feature default') as Hedge.
  { unfold edge_external_step. rewrite Hpage.
    rewrite (py_contains_key _ _ _ Hetable). res_simpl.
    assert (py_getitem (PDict ext_page) "edge_features" = Ok (PDict edge_table))
      as Hget by (unfold py_getitem; by rewrite Hetable).
    assert (py_getitem (PDict edge_table) "default" = Ok default')
      as Hget' by (unfold py_getitem; by rewrite Hdefault').
    rewrite !Hget. res_simpl. rewrite Hget'. res_simpl.
    assert (except_KeyError (py_extend edge_feature default')
              (Ok (edge_feature ++ [PNum (1 # 2)]))
            = py_extend edge_feature default') as Hhandler.
    { pose proof (py_extend_result edge_feature default') as Hext.
      destruct (py_extend edge_feature default') as [|e]; [done|].
      by rewrite Hext. }
    rewrite Hhandler. unfold pair_lookup_fails in Hpair.
    destruct (dict_get edge_table id_a) as [row|] eqn:Hrow.
    - assert (py_getitem (PDict edge_table) id_a = Ok row) as ->
        by (unfold py_getitem; by rewrite Hrow).
      res_simpl. destruct row; try done.
      unfold py_getitem. by rewrite Hpair.
    - assert (py_getitem (PDict edge_table) id_a = Raise KeyError) as ->
        by (unfold py_getitem; by rewrite Hrow).
      done. }
  split; [done|]. intros q ->. by rewrite Hedge.
Qed.

Lemma external_entry_appended_witness :
  node_external_step "page1.xml" "r1" example_external_full [PNum 1]
  = Ok ([PNum 1] ++ [PNum (3 # 10)])
  ∧ edge_external_step "page1.xml" "r1" "r2" example_external_full
      [PNum 0; PNum 1]
    = Ok ([PNum 0; PNum 1] ++ [PNum (7 # 10)]).
Proof.
  destruct (external_entry_appended "page1.xml" "r1" "r1" "r2"
              example_external_full
              [("r1", PList [PNum (3 # 10)]); ("default", PNum (1 # 4))]%string
              [("r1", PDict [("r2", PList [PNum (7 # 10)])]);
               ("default", PList [PNum (1 # 2)])]%string
              [("r2", PList [PNum (7 # 10)])]%string
              [PNum (3 # 10)] [PNum (7 # 10)] [PNum 1] [PNum 0; PNum 1])
    as [Hnode Hedge].
  split.
  - apply Hnode.
    + eexists. split; reflexivity.
    + reflexivity.
  - apply Hedge.
    + eexists. split; reflexivity.
    + reflexivity.
    + reflexivity.
Defined.

Lemma external_default_tier_witness :
  node_external_step "page1.xml" "r9" example_external_full [PNum 1]
  = Ok ([PNum 1] ++ [PNum (1 # 4)])
  ∧ edge_external_step "page1.xml" "r1" "r3" example_external_full
      [PNum 0; PNum 1]
    = py_extend [PNum 0; PNum 1] (PList [PNum (1 # 2)])
  ∧ (∀ q, PList [PNum (1 # 2)] = PNum q →
          edge_external_step "page1.xml" "r1" "r3" example_external_full
            [PNum 0; PNum 1]
          = Raise TypeError).
Proof.
  destruct (external_default_tier "page1.xml" "r9" "r1" "r3"
              example_external_full
              [("r1", PList [PNum (3 # 10)]); ("default", PNum (1 # 4))]%string
              [("r1", PDict [("r2", PList [PNum (7 # 10)])]);
               ("default", PList [PNum (1 # 2)])]%string
              (PNum (1 # 4)) (PList [PNum (1 # 2)])
              [PNum 1] [PNum 0; PNum 1])
    as [Hnode Hedge].
  split.
  - apply Hnode.
    + eexists. split; reflexivity.
    + reflexivity.
    + reflexivity.
  - apply Hedge.
    + eexists. split; reflexivity.
    + reflexivity.
    + reflexivity.
Defined.

(** ** The edge loop *)

Lemma edge_similarity_feature_prefix id_a id_b tb_sim_dict feature feature' :
  edge_similarity_feature id_a id_b tb_sim_dict feature = Ok feature' →
  feature `prefix_of` feature'.
Proof.
  unfold edge_similarity_feature.
  assert (∀ table key r,
            (entry ← py_getitem table key; py_extend feature entry) = Ok r →
            feature `prefix_of` r) as Hlookup.
  { intros table key r Hr.
    pose proof (node_lookup_result table key feature) as Hres.
    by rewrite Hr in Hres. }
  destruct (py_getitem tb_sim_dict "edge_features") as [table|e]; res_simpl.
  - destruct (py_getitem table id_a) as [row|e]; res_simpl.
    + destruct (py_getitem row id_b ≫= _) as [r|e] eqn:Hr.
      * intros [= <-]. by eapply Hlookup.
      * destruct e; try done. simpl.
        destruct (py_getitem table "default" ≫= _) as [r|e] eqn:Hd.
        -- intros [= <-]. by eapply Hlookup.
        -- destruct e; try done. intros [= <-]. by apply prefix_app_r.
    + destruct e; try done. simpl.
      destruct (py_getitem table "default" ≫= _) as [r|e] eqn:Hd.
      * intros [= <-]. by eapply Hlookup.
      * destruct e; try done. intros [= <-]. by apply prefix_app_r.
  - destruct e; try done. simpl. intros [= <-]. by apply prefix_app_r.
Qed.

Lemma line_strategy_closes intersects a b seps0 seps feature seps1 :
  Forall2 closes seps0 seps →
  get_edge_separator_feature_line intersects a b seps = Ok (feature, seps1) →
  Forall2 closes seps0 seps1
  ∧ ∃ seps1', get_edge_separator_feature_line intersects a b seps0
              = Ok (feature, seps1').
Proof.
  intros Hcloses. unfold get_edge_separator_feature_line.
  destruct (get_bounding_box (tr_points a))
    as [[[[min_x_a max_x_a] min_y_a] max_y_a]|]; res_simpl; [|done].
  destruct (get_bounding_box (tr_points b))
    as [[[[min_x_b max_x_b] min_y_b] max_y_b]|]; res_simpl; [|done].
  match goal with
  | |- context [ line_loop ?i ?seg seps false false ] =>
      pose proof (line_loop_closes_flags i seg _ _ Hcloses false false) as Hflags;
      pose proof (line_loop_out i seg _ _ Hcloses false false) as Hout;
      destruct (line_loop i seg seps false false) as [[[h v] seps']|],
        (line_loop i seg seps0 false false) as [[[h0 v0] seps0']|]
  end; simplify_eq/=; try done.
  intros [= <- <-]. split; [by eapply Hout|]. by eexists.
Qed.

Section EdgeLoopProperties.

Variable basename : string -> string.
Variable intersects : LineString -> LineString -> bool.

(** X18: on a page without separator regions, without similarity
    dictionary and without external data, every row of the edge loop is
    [0.0, 0.0], one row per edge, provided both ends of every edge are
    regions of the page. *)
Theorem edge_rows_without_separators
    page_path separators text_regions edges separator_regions :
  separator_regions = None ∨ separator_regions = Some [] →
  Forall (λ e : edge, (e.1 < length text_regions
                       ∧ e.2 < length text_regions)%nat) edges →
  edge_features_loop basename intersects page_path separators text_regions
    None [] edges separator_regions
  = Ok (replicate (length edges) [PNum 0; PNum 0]).
Proof.
  intros Hnone. induction 1 as [|[i j] edges [Hi Hj] _ IH]; [done|].
  cbn [edge_features_loop]. unfold py_index.
  destruct (lookup_lt_is_Some_2 text_regions i Hi) as [tr_a ->].
  destruct (lookup_lt_is_Some_2 text_regions j Hj) as [tr_b ->]. res_simpl.
  assert (edge_separator_feature intersects separators tr_a tr_b
            separator_regions
          = Ok ([PNum 0; PNum 0], separator_regions)) as ->
    by (by destruct Hnone as [-> | ->]).
  res_simpl. cbn [edge_external_features]. res_simpl. by rewrite IH.
Qed.

Lemma edge_features_loop_line page_path text_regions tb_sim_dict
    external_data seps edges :
  seps ≠ [] →
  ∀ seps_cur rows,
    Forall2 closes seps seps_cur →
    edge_features_loop basename intersects page_path "line" text_regions
      tb_sim_dict external_data edges (Some seps_cur) = Ok rows →
    Forall2 (line_row intersects text_regions seps) edges rows.
Proof.
  intros Hne. induction edges as [|[i j] edges IH]; intros seps_cur rows Hcur.
  - intros [= <-]. constructor.
  - cbn [edge_features_loop]. unfold py_index.
    destruct (text_regions !! i) as [tr_a|] eqn:Hi; res_simpl; [|done].
    destruct (text_regions !! j) as [tr_b|] eqn:Hj; res_simpl; [|done].
    unfold edge_separator_feature.
    destruct seps_cur as [|s_cur seps_cur'];
      [apply Forall2_nil_inv_r in Hcur; by subst|].
    change (String.eqb "line" "line") with true. cbn iota.
    destruct (get_edge_separator_feature_line intersects tr_a tr_b
                (s_cur :: seps_cur')) as [[feature seps_next]|] eqn:Hline;
      res_simpl; [|done].
    destruct (line_strategy_closes _ _ _ _ _ _ _ Hcur Hline)
      as [Hnext [seps' Hline0]].
    match goal with
    | |- context [ match tb_sim_dict with _ => _ end ] =>
        destruct (match tb_sim_dict with
                  | Some d =>
                      if py_truthy d
                      then edge_similarity_feature (tr_id tr_a) (tr_id tr_b) d
                             (PNum <$> feature)
                      else Ok (PNum <$> feature)
                  | None => Ok (PNum <$> feature)
                  end) as [ef1|] eqn:Hsim
    end; res_simpl; [|done].
    assert ((PNum <$> feature) `prefix_of` ef1) as Hpre1.
    { destruct tb_sim_dict as [d|]; [|by inversion Hsim].
      destruct (py_truthy d); [|by inversion Hsim].
      by eapply edge_similarity_feature_prefix. }
    pose proof (edge_external_features_result (basename page_path)
                  (tr_id tr_a) (tr_id tr_b) external_data ef1) as Hext.
    destruct (edge_external_features _ _ _ external_data ef1) as [ef2|];
      res_simpl; [|done].
    simpl in Hext.
    destruct (edge_features_loop _ _ _ _ _ _ _ edges (Some seps_next))
      as [rows'|] eqn:Hrest; res_simpl; [|done].
    intros [= <-]. constructor.
    + exists tr_a, tr_b, feature, seps'. repeat split; try done. by etrans.
    + by eapply IH.
Qed.

(** X19: in line mode every row of the edge loop begins with the feature
    the line strategy computes on the separator regions as the page gave
    them: the polygons closed while earlier edges were handled change no
    row. *)
Theorem edge_rows_line_mode page_path text_regions tb_sim_dict
    external_data seps edges rows :
  seps ≠ [] →
  edge_features_loop basename intersects page_path "line" text_regions
    tb_sim_dict external_data edges (Some seps) = Ok rows →
  Forall2 (line_row intersects text_regions seps) edges rows.
Proof.
  intros Hne Hloop.
  by eapply edge_features_loop_line; [|apply Forall2_closes_refl|].
Qed.

End EdgeLoopProperties.

Lemma edge_rows_without_separators_witness :
  edge_features_loop (λ path, path) segments_intersect "page1.xml" "line"
    [example_region_a; example_region_b] None [] [(0, 1); (1, 0)]%nat None
  = Ok (replicate (length [(0, 1); (1, 0)]%nat) [PNum 0; PNum 0]).
Proof.
  apply (edge_rows_without_separators (λ path, path) segments_intersect
           "page1.xml" "line" [example_region_a; example_region_b]
           [(0, 1); (1, 0)]%nat None).
  - left. reflexivity.
  - repeat constructor.
Defined.

Lemma edge_rows_line_mode_witness :
  edge_features_loop (λ path, path) segments_intersect "page1.xml" "line"
    [example_region_a; example_region_b] None [example_external_full]
    [(0, 1); (1, 0)]%nat (Some [example_open_bar])
  = Ok [[PNum 0; PNum 1; PNum (7 # 10)]; [PNum 0; PNum 1; PNum (1 # 2)]]
  ∧ Forall2 (line_row segments_intersect
               [example_region_a; example_region_b] [example_open_bar])
      [(0, 1); (1, 0)]%nat
      [[PNum 0; PNum 1; PNum (7 # 10)]; [PNum 0; PNum 1; PNum (1 # 2)]].
Proof.
  split; [vm_compute; reflexivity|].
  apply (edge_rows_line_mode (λ path, path) segments_intersect "page1.xml"
           [example_region_a; example_region_b] None [example_external_full]
           [example_open_bar] [(0, 1); (1, 0)]%nat).
  - discriminate.
  - vm_compute. reflexivity.
Defined.

(** ** Regions aligned with a horizontal separator *)

Lemma aligned_rule_check_true bb_a bb_b bb_s :
  aligned_rule_check bb_a bb_b bb_s = true
  ↔ y_between bb_a bb_b bb_s ∧ x_aligned bb_a bb_s ∧ x_aligned bb_b bb_s.
Proof.
  destruct bb_a as [[[min_x_a max_x_a] min_y_a] max_y_a],
    bb_b as [[[min_x_b max_x_b] min_y_b] max_y_b],
    bb_s as [[[min_x_s max_x_s] min_y_s] max_y_s].
  unfold aligned_rule_check, y_between, x_aligned. cbn [fst snd].
  repeat match goal with
         | |- context [ ?a <=? ?b ] => destruct (Z.leb_spec a b)
         | |- context [ ?a >=? ?b ] =>
             rewrite (Z.geb_leb a b); destruct (Z.leb_spec b a)
         end; cbn; split; (done || lia).
Qed.

Lemma aligned_rule_check_comm bb_a bb_b bb_s :
  aligned_rule_check bb_a bb_b bb_s = aligned_rule_check bb_b bb_a bb_s.
Proof.
  apply eq_true_iff_eq. rewrite !aligned_rule_check_true.
  unfold y_between. tauto.
Qed.

Lemma aligned_loop_comm bb_a bb_b separator_regions :
  aligned_loop bb_a bb_b separator_regions
  = aligned_loop bb_b bb_a separator_regions.
Proof.
  induction separator_regions as [|s rest IH]; [done|].
  cbn [aligned_loop]. destruct (get_bounding_box (sr_points s)); [|done].
  res_simpl. by rewrite IH, aligned_rule_check_comm.
Qed.

Lemma aligned_loop_spec bb_a bb_b separator_regions r :
  aligned_loop bb_a bb_b separator_regions = Ok r →
  r ≠ Some false
  ∧ (r = Some true
     ↔ ∃ s bb_s, s ∈ separator_regions ∧ horizontal_separator s bb_s
                 ∧ aligned_rule_check bb_a bb_b bb_s = true).
Proof.
  induction separator_regions as [|s rest IH]; cbn [aligned_loop].
  - intros [= <-]. split; [done|]. split; [done|].
    intros (s & _ & Hs & _). by apply elem_of_nil in Hs.
  - destruct (get_bounding_box (sr_points s)) as [bb_s|] eqn:Hbb;
      res_simpl; [|done].
    assert (∀ s' bb', s' ∈ s :: rest → horizontal_separator s' bb' →
              aligned_rule_check bb_a bb_b bb' = true →
              (bb_orientation s bb_s ≠ "vertical"%string
               ∧ aligned_rule_check bb_a bb_b bb_s = true)
              ∨ ∃ s' bb', s' ∈ rest ∧ horizontal_separator s' bb'
                          ∧ aligned_rule_check bb_a bb_b bb' = true)
      as Hcases.
    { intros s' bb' [->|Hin]%elem_of_cons [Hbb' Hor] Hrule.
      - left. rewrite Hbb in Hbb'. by injection Hbb' as ->.
      - right. by exists s', bb'. }
    destruct (String.eqb_spec (bb_orientation s bb_s) "vertical")
      as [Hvert|Hhor].
    + intros [Hfalse Hiff]%IH. split; [done|]. rewrite Hiff. split.
      * intros (s' & bb' & Hin & Hs'). exists s', bb'.
        split; [by right|done].
      * intros (s' & bb' & Hin & Hs' & Hrule).
        by destruct (Hcases s' bb' Hin Hs' Hrule) as [[? _]|?].
    + destruct (aligned_rule_check bb_a bb_b bb_s) eqn:Hrule.
      * intros [= <-]. split; [done|]. split; [|done]. intros _.
        exists s, bb_s. split; [by left|]. by split.
      * intros [Hfalse Hiff]%IH. split; [done|]. rewrite Hiff. split.
        -- intros (s' & bb' & Hin & Hs'). exists s', bb'.
           split; [by right|done].
        -- intros (s' & bb' & Hin & Hs' & Hrule').
           by destruct (Hcases s' bb' Hin Hs' Hrule') as [[_ ?]|?].
Qed.

Lemma aligned_separation_has_separator
    text_region_a text_region_b separator_regions :
  is_aligned_horizontally_separated text_region_a text_region_b
    separator_regions = Ok (Some true) →
  ∃ s bb_a bb_b bb_s,
    s ∈ separator_regions
    ∧ get_bounding_box (tr_points text_region_a) = Ok bb_a
    ∧ get_bounding_box (tr_points text_region_b) = Ok bb_b
    ∧ horizontal_separator s bb_s
    ∧ y_between bb_a bb_b bb_s
    ∧ x_aligned bb_a bb_s ∧ x_aligned bb_b bb_s.
Proof.
  unfold is_aligned_horizontally_separated.
  destruct (get_bounding_box (tr_points text_region_a)) as [bb_a|];
    res_simpl; [|done].
  destruct (get_bounding_box (tr_points text_region_b)) as [bb_b|];
    res_simpl; [|done].
  intros [_ Hiff]%aligned_loop_spec.
  destruct (proj1 Hiff eq_refl)
    as (s & bb_s & Hin & Hs & Hrule%aligned_rule_check_true).
  by exists s, bb_a, bb_b, bb_s.
Qed.


Section HeadingProperties.

Variable lower : string -> string.

(** X21: both alignment tests are symmetric in the two text regions:
    exchanging them changes neither the value nor the exception. *)
Theorem aligned_tests_symmetric
    text_region_a text_region_b separator_regions :
  is_aligned_horizontally_separated text_region_a text_region_b
    separator_regions
  = is_aligned_horizontally_separated text_region_b text_region_a
      separator_regions
  ∧ is_aligned_heading_separated lower text_region_a text_region_b
    = is_aligned_heading_separated lower text_region_b text_region_a.
Proof.
  split.
  - unfold is_aligned_horizontally_separated.
    destruct (get_bounding_box (tr_points text_region_a)) as [bb_a|e] eqn:Ha,
      (get_bounding_box (tr_points text_region_b)) as [bb_b|e'] eqn:Hb;
      res_simpl; try done.
    + apply aligned_loop_comm.
    + apply get_bounding_box_raise in Ha, Hb. congruence.
  - unfold is_aligned_heading_separated.
    destruct (is_heading lower text_region_a),
      (is_heading lower text_region_b); cbn [andb orb negb]; try done.
    all: destruct (get_bounding_box (tr_points text_region_a))
           as [[[[min_x_a max_x_a] min_y_a] max_y_a]|e] eqn:Ha,
         (get_bounding_box (tr_points text_region_b))
           as [[[[min_x_b max_x_b] min_y_b] max_y_b]|e'] eqn:Hb;
      res_simpl; try done;
      try (apply get_bounding_box_raise in Ha, Hb; congruence).
    all: by rewrite (andb_comm (min_x_a <=? max_x_b)).
Qed.

End HeadingProperties.

Lemma aligned_text_regions_spec min_x_s max_x_s text_regions ids :
  aligned_text_regions min_x_s max_x_s text_regions = Ok ids →
  ids `sublist_of` (tr_id <$> text_regions)
  ∧ ∀ tr bb, tr ∈ text_regions → get_bounding_box (tr_points tr) = Ok bb →
      min_x_s ≤ bb.1.1.2 → bb.1.1.1 ≤ max_x_s → tr_id tr ∈ ids.
Proof.
  revert ids. induction text_regions as [|tr0 rest IH]; intros ids.
  - intros [= <-]. split; [done|]. intros tr bb Hin.
    by apply elem_of_nil in Hin.
  - cbn [aligned_text_regions].
    destruct (get_bounding_box (tr_points tr0))
      as [[[[min_x_a max_x_a] min_y_a] max_y_a]|] eqn:Hbb; res_simpl; [|done].
    destruct (aligned_text_regions min_x_s max_x_s rest) as [ids'|];
      res_simpl; [|done].
    destruct (IH ids' eq_refl) as [Hsub Hin']. rewrite Z.geb_leb.
    destruct (Z.leb_spec min_x_s max_x_a), (Z.leb_spec min_x_a max_x_s);
      cbn [andb]; intros [= <-]; (split; [by constructor|]);
      intros tr bb [->|Hin]%elem_of_cons Htr Hlo Hhi;
      try (rewrite Hbb in Htr; injection Htr as <-; cbn [fst snd] in *);
      try lia; try (by left); try (right); by eapply Hin'.
Qed.

Lemma separator_aligned_loop_cons s rest text_regions aligned aligned' :
  separator_aligned_loop (s :: rest) text_regions aligned = Ok aligned' →
  ((∀ bb_s, ¬ horizontal_separator s bb_s)
   ∧ separator_aligned_loop rest text_regions aligned = Ok aligned')
  ∨ ∃ bb_s ids,
      horizontal_separator s bb_s
      ∧ aligned_text_regions bb_s.1.1.1 bb_s.1.1.2 text_regions = Ok ids
      ∧ separator_aligned_loop rest text_regions (<[sr_id s := ids]> aligned)
        = Ok aligned'.
Proof.
  cbn [separator_aligned_loop]. unfold get_orientation.
  case_decide as Htag.
  { intros Hloop. left. split; [|done]. intros bb_s [_ Hor]. apply Hor.
    unfold bb_orientation, get_orientation. by rewrite Htag. }
  destruct (get_bounding_box (sr_points s))
    as [[[[min_x_s max_x_s] min_y_s] max_y_s]|] eqn:Hbb; res_simpl; [|done].
  destruct (match sr_orientation s with
            | Some _ => false
            | None => negb (ratio_lt_5 (bb_width min_y_s max_y_s)
                              (bb_width min_x_s max_x_s))
            end) eqn:Hratio.
  { intros Hloop. left. split; [|done]. intros bb_s [Hbb' Hor]. apply Hor.
    rewrite Hbb in Hbb'. injection Hbb' as <-.
    unfold bb_orientation, get_orientation.
    destruct (sr_orientation s); [done|].
    apply negb_true_iff in Hratio. by rewrite Hratio. }
  destruct (aligned_text_regions min_x_s max_x_s text_regions)
    as [ids|] eqn:Hids; res_simpl; [|done].
  intros Hloop. right. exists (min_x_s, max_x_s, min_y_s, max_y_s), ids.
  split; [|done]. split; [done|].
  unfold bb_orientation, get_orientation.
  destruct (sr_orientation s) as [o|]; [congruence|].
  apply negb_false_iff in Hratio. by rewrite Hratio.
Qed.

Lemma horizontal_separator_inj s bb_s bb_s' :
  horizontal_separator s bb_s → horizontal_separator s bb_s' → bb_s = bb_s'.
Proof. intros [Hbb _] [Hbb' _]. congruence. Qed.

Lemma separator_aligned_loop_keys text_regions separator_regions :
  ∀ aligned aligned',
    separator_aligned_loop separator_regions text_regions aligned
    = Ok aligned' →
    ∀ id, is_Some (aligned' !! id)
          ↔ is_Some (aligned !! id)
            ∨ ∃ s bb_s, s ∈ separator_regions ∧ sr_id s = id
                        ∧ horizontal_separator s bb_s.
Proof.
  induction separator_regions as [|s rest IH]; intros aligned aligned'.
  - intros [= <-] id. split; [by left|].
    intros [?|(s & ? & Hin & _)]; [done|]. by apply elem_of_nil in Hin.
  - intros [[Hskip Hloop]|(bb_s & ids & Hs & Hids & Hloop)]
      %separator_aligned_loop_cons id; rewrite (IH _ _ Hloop).
    + split.
      * intros [?|(s0 & bb & Hin & Hs0)]; [by left|right].
        exists s0, bb. split; [by right|done].
      * intros [?|(s0 & bb & [->|Hin]%elem_of_cons & Hid & Hs0)];
          [by left| |right; by exists s0, bb].
        by destruct (Hskip bb).
    + rewrite lookup_insert_is_Some. split.
      * intros [[<-|[_ ?]]|(s0 & bb & Hin & Hs0)]; [right|by left|right].
        -- exists s, bb_s. split; [by left|done].
        -- exists s0, bb. split; [by right|done].
      * intros [?|(s0 & bb & [->|Hin]%elem_of_cons & Hid & Hs0)].
        -- left. destruct (decide (sr_id s = id)); [by left|by right].
        -- left. by left.
        -- right. by exists s0, bb.
Qed.

Lemma separator_aligned_loop_values text_regions separator_regions :
  ∀ aligned aligned',
    separator_aligned_loop separator_regions text_regions aligned
    = Ok aligned' →
    map_Forall (λ _ ids, ids `sublist_of` (tr_id <$> text_regions)) aligned →
    map_Forall (λ _ ids, ids `sublist_of` (tr_id <$> text_regions)) aligned'.
Proof.
  induction separator_regions as [|s rest IH]; intros aligned aligned'.
  - by intros [= <-].
  - intros [[Hskip Hloop]|(bb_s & ids & Hs & Hids & Hloop)]
      %separator_aligned_loop_cons Hall; [by eapply IH|].
    eapply IH; [done|]. apply map_Forall_insert_2; [|done].
    by apply aligned_text_regions_spec in Hids as [? _].
Qed.

Lemma separator_aligned_loop_frame text_regions separator_regions :
  ∀ aligned aligned' id,
    separator_aligned_loop separator_regions text_regions aligned
    = Ok aligned' →
    id ∉ sr_id <$> separator_regions →
    aligned' !! id = aligned !! id.
Proof.
  induction separator_regions as [|s rest IH]; intros aligned aligned' id.
  - by intros [= <-].
  - rewrite fmap_cons, not_elem_of_cons.
    intros [[Hskip Hloop]|(bb_s & ids & Hs & Hids & Hloop)]
      %separator_aligned_loop_cons [Hne Hfresh].
    + by eapply IH.
    + rewrite (IH _ _ _ Hloop Hfresh). by rewrite lookup_insert_ne.
Qed.

Lemma separator_aligned_loop_entry text_regions separator_regions :
  ∀ aligned aligned' s bb_s,
    separator_aligned_loop separator_regions text_regions aligned
    = Ok aligned' →
    NoDup (sr_id <$> separator_regions) →
    s ∈ separator_regions → horizontal_separator s bb_s →
    ∃ ids, aligned' !! sr_id s = Some ids
           ∧ aligned_text_regions bb_s.1.1.1 bb_s.1.1.2 text_regions = Ok ids.
Proof.
  induction separator_regions as [|s0 rest IH]; intros aligned aligned' s bb_s.
  - intros _ _ Hin. by apply elem_of_nil in Hin.
  - rewrite fmap_cons, NoDup_cons.
    intros [[Hskip Hloop]|(bb_s0 & ids & Hs0 & Hids & Hloop)]
      %separator_aligned_loop_cons [Hfresh Hnodup] [->|Hin]%elem_of_cons Hs;
      try (by eapply IH).
    + by destruct (Hskip bb_s).
    + rewrite (horizontal_separator_inj _ _ _ Hs Hs0). exists ids.
      split; [|done].
      rewrite (separator_aligned_loop_frame _ _ _ _ _ Hloop Hfresh).
      by rewrite lookup_insert_eq.
Qed.

(** X22: the dictionary of [get_separator_aligned_regions] has one key
    for the id of every separator treated as horizontal and no other key,
    and every value is a sublist of the text-region ids in page order. *)
Theorem get_separator_aligned_regions_keys
    separator_regions text_regions aligned :
  get_separator_aligned_regions separator_regions text_regions = Ok aligned →
  (∀ id, is_Some (aligned !! id)
         ↔ ∃ s bb_s, s ∈ separator_regions ∧ sr_id s = id
                     ∧ horizontal_separator s bb_s)
  ∧ ∀ id ids, aligned !! id = Some ids →
              ids `sublist_of` (tr_id <$> text_regions).
Proof.
  unfold get_separator_aligned_regions. intros Hloop. split.
  - intros id. rewrite (separator_aligned_loop_keys _ _ _ _ Hloop).
    rewrite lookup_empty. split; [|by right].
    by intros [[? ?]|?].
  - apply (separator_aligned_loop_values _ _ _ _ Hloop), map_Forall_empty.
Qed.

(** X23: when the separators have distinct ids, two text regions of the
    page that [is_aligned_horizontally_separated] reports as separated
    are both listed under one separator by
    [get_separator_aligned_regions]. *)
Theorem aligned_separated_regions_listed
    separator_regions text_regions text_region_a text_region_b aligned :
  NoDup (sr_id <$> separator_regions) →
  text_region_a ∈ text_regions → text_region_b ∈ text_regions →
  is_aligned_horizontally_separated text_region_a text_region_b
    separator_regions = Ok (Some true) →
  get_separator_aligned_regions separator_regions text_regions = Ok aligned →
  ∃ s ids, s ∈ separator_regions ∧ aligned !! sr_id s = Some ids
           ∧ tr_id text_region_a ∈ ids ∧ tr_id text_region_b ∈ ids.
Proof.
  intros Hnodup Ha Hb Hsep Haligned.
  apply aligned_separation_has_separator in Hsep
    as (s & bb_a & bb_b & bb_s & Hin & Hbb_a & Hbb_b & Hs & _ & Hxa & Hxb).
  destruct (separator_aligned_loop_entry _ _ _ _ _ _ Haligned Hnodup Hin Hs)
    as (ids & Hget & Hids).
  apply aligned_text_regions_spec in Hids as [_ Hmem].
  destruct Hxa, Hxb. exists s, ids. repeat split; try done.
  - by eapply Hmem.
  - by eapply Hmem.
Qed.


Lemma get_separator_aligned_regions_keys_witness :
  get_separator_aligned_regions
    [example_vertical_bar; example_horizontal_rule]
    [example_region_a; example_region_b; example_region "r3" 0 40]
  = Ok {[ "s5"%string := ["r1"; "r2"; "r3"]%string ]}
  ∧ (∀ id,
       is_Some (({[ "s5"%string := ["r1"; "r2"; "r3"]%string ]}
                 : gmap string (list string)) !! id)
       ↔ ∃ s bb_s, s ∈ [example_vertical_bar; example_horizontal_rule]
                   ∧ sr_id s = id ∧ horizontal_separator s bb_s)
  ∧ ∀ id ids,
      ({[ "s5"%string := ["r1"; "r2"; "r3"]%string ]}
       : gmap string (list string)) !! id = Some ids →
      ids `sublist_of`
        (tr_id <$> [example_region_a; example_region_b;
                    example_region "r3" 0 40]).
Proof.
  split; [vm_compute; reflexivity|].
  apply (get_separator_aligned_regions_keys
           [example_vertical_bar; example_horizontal_rule]
           [example_region_a; example_region_b; example_region "r3" 0 40]).
  vm_compute. reflexivity.
Defined.

Lemma aligned_separated_regions_listed_witness :
  ∃ s ids,
    s ∈ [example_vertical_bar; example_horizontal_rule]
    ∧ ({[ "s5"%string := ["r1"; "r2"; "r3"]%string ]}
       : gmap string (list string)) !! sr_id s = Some ids
    ∧ tr_id example_region_a ∈ ids
    ∧ tr_id (example_region "r3" 0 40) ∈ ids.
Proof.
  apply (aligned_separated_regions_listed
           [example_vertical_bar; example_horizontal_rule]
           [example_region_a; example_region_b; example_region "r3" 0 40]).
  - by apply (bool_decide_unpack _).
  - by left.
  - right. right. by left.
  - vm_compute. reflexivity.
  - vm_compute. reflexivity.
Defined.

(** ** The graph of a page *)

Section GraphProperties.

Variable get_data_from_pagexml : string -> result PageData.
Variable basename : string -> string.
Variable get_img_from_page_path : string -> option string.
Variable swt_data : Type.
Variable stroke_width_transform : string -> list TextLine -> result swt_data.
Variable base_node_feature :
  PageData -> swt_data -> TextRegion -> result (list pyval).
Variable position : Type.
Variable round_base : list position -> list position.
Variable Delaunay : list position -> result (list nat * list nat).
Variable node_centers : PageData -> list (list pyval) -> list position.
Variable intersects : LineString -> LineString -> bool.
Variable polygon_bounding_box : list point -> Z * Z.
Variable np_array_float32 : list (list pyval) -> result (list (list pyval)).

Abbreviation build :=
  (build_input_and_target get_data_from_pagexml basename
     get_img_from_page_path swt_data stroke_width_transform
     base_node_feature position round_base Delaunay node_centers
     intersects polygon_bounding_box np_array_float32).

Lemma edge_features_loop_in_range
    page_path separators text_regions tb_sim_dict external_data edges :
  ∀ separator_regions rows,
    edge_features_loop basename intersects page_path separators text_regions
      tb_sim_dict external_data edges separator_regions = Ok rows →
    Forall (λ e : edge, (e.1 < length text_regions
                         ∧ e.2 < length text_regions)%nat) edges.
Proof.
  induction edges as [|[i j] edges IH]; intros separator_regions rows;
    [by constructor|].
  cbn [edge_features_loop]. unfold py_index.
  destruct (text_regions !! i) as [tr_a|] eqn:Hi; res_simpl; [|done].
  destruct (text_regions !! j) as [tr_b|] eqn:Hj; res_simpl; [|done].
  destruct (edge_separator_feature intersects separators tr_a tr_b
              separator_regions) as [[feature seps']|]; res_simpl; [|done].
  match goal with
  | |- context [ match tb_sim_dict with _ => _ end ] =>
      destruct (match tb_sim_dict with
                | Some d =>
                    if py_truthy d
                    then edge_similarity_feature (tr_id tr_a) (tr_id tr_b) d
                           feature
                    else Ok feature
                | None => Ok feature
                end) as [ef1|]
  end; res_simpl; [|done].
  destruct (edge_external_features _ _ _ external_data ef1) as [ef2|];
    res_simpl; [|done].
  destruct (edge_features_loop _ _ _ _ _ _ _ edges seps')
    as [rows'|] eqn:Hrest; res_simpl; [|done].
  intros _. constructor; [|by eapply IH].
  split; by eapply lookup_lt_Some.
Qed.

(** X24: a graph that [build_input_and_target] returns is well formed: it
    has one node per region that survives the discard pass and at least
    two of them, both ends of every edge are nodes, the two counters are
    the lengths of their lists, and the relations are those of regions
    with equal effective article id. *)
Theorem build_graph_well_formed
    page_path interaction separators external_data sim_feat_extractor graph :
  build page_path interaction separators external_data sim_feat_extractor
  = Ok (Some graph) →
  ∃ page,
    get_data_from_pagexml page_path = Ok page
    ∧ num_nodes graph = length (surviving_regions polygon_bounding_box page)
    ∧ (2 ≤ num_nodes graph)%nat
    ∧ num_interacting_nodes graph = length (interacting_nodes graph)
    ∧ Forall (λ e : edge, (e.1 < num_nodes graph ∧ e.2 < num_nodes graph)%nat)
        (interacting_nodes graph)
    ∧ gt_num_relations graph = length (gt_relations graph)
    ∧ ∀ l i j,
        (l, i, j) ∈ gt_relations graph
        ↔ l = 1%nat
          ∧ same_article (pd_article_dict page)
              (surviving_regions polygon_bounding_box page) i j.
Proof.
  unfold build_input_and_target.
  destruct (negb (str_in interaction ["fully"; "delaunay"]%string)); [done|].
  destruct (negb (str_in separators ["line"; "bb"]%string)); [done|].
  destruct (get_data_from_pagexml page_path) as [page|]; res_simpl; [|done].
  destruct (pd_text_regions page) as [text_regions|] eqn:Hregions; [|done].
  rewrite discard_text_regions_and_lines_spec. res_simpl.
  set (trs := filter (λ tr, survives polygon_bounding_box tr) text_regions).
  destruct (Nat.leb_spec (length trs) 1) as [|Hlen]; [done|].
  destruct (get_textline_stroke_widths_heights_dist_trafo _ _ _ _ _ _)
    as [swt|]; res_simpl; [|done].
  destruct (mapM _ trs) as [rows|]; res_simpl; [|done].
  destruct (build_interacting_nodes _ _ _ _ _ _ _ _ _) as [edges|];
    res_simpl; [|done].
  destruct (match sim_feat_extractor with
            | Some run => Some <$> run trs
            | None => Ok None
            end) as [tb_sim_dict|]; res_simpl; [|done].
  destruct (edge_features_loop _ _ _ _ _ _ _ edges _) as [erows|] eqn:Hedges;
    res_simpl; [|done].
  destruct (ground_truth_relations _ trs) as [rels|] eqn:Hrels;
    res_simpl; [|done].
  destruct (np_array_float32 rows) as [rows'|]; res_simpl; [|done].
  destruct (np_array_float32 erows) as [erows'|]; res_simpl; [|done].
  intros [= <-]. exists page. unfold surviving_regions. rewrite Hregions.
  cbn [num_nodes interacting_nodes num_interacting_nodes gt_relations
       gt_num_relations]. fold trs.
  split; [done|]. split; [done|]. split; [lia|]. split; [done|].
  split; [by eapply edge_features_loop_in_range|]. split; [done|].
  intros l i j. by apply elem_of_ground_truth_relations.
Qed.

(** X25: [build_input_and_target] returns [None] for one reason only: both
    modes are valid, the page was read, and at most one of its regions
    survives the discard pass. *)
Theorem build_None_iff
    page_path interaction separators external_data sim_feat_extractor :
  build page_path interaction separators external_data sim_feat_extractor
  = Ok None
  ↔ str_in interaction ["fully"; "delaunay"]%string = true
    ∧ str_in separators ["line"; "bb"]%string = true
    ∧ ∃ page,
        get_data_from_pagexml page_path = Ok page
        ∧ (length (surviving_regions polygon_bounding_box page) ≤ 1)%nat.
Proof.
  split.
  - unfold build_input_and_target.
    destruct (str_in interaction ["fully"; "delaunay"]%string); [|done].
    destruct (str_in separators ["line"; "bb"]%string); [|done].
    cbn [negb].
    destruct (get_data_from_pagexml page_path) as [page|]; res_simpl; [|done].
    intros Hbuild. do 2 (split; [done|]). exists page. split; [done|].
    revert Hbuild. unfold surviving_regions.
    destruct (pd_text_regions page) as [text_regions|]; [|simpl; lia].
    rewrite discard_text_regions_and_lines_spec. res_simpl.
    set (trs := filter (λ tr, survives polygon_bounding_box tr) text_regions).
    destruct (Nat.leb_spec (length trs) 1) as [|Hlen]; [done|].
    destruct (get_textline_stroke_widths_heights_dist_trafo _ _ _ _ _ _)
      as [swt|]; res_simpl; [|done].
    destruct (mapM _ trs) as [rows|]; res_simpl; [|done].
    destruct (build_interacting_nodes _ _ _ _ _ _ _ _ _) as [edges|];
      res_simpl; [|done].
    destruct (match sim_feat_extractor with
              | Some run => Some <$> run trs
              | None => Ok None
              end) as [tb_sim_dict|]; res_simpl; [|done].
    destruct (edge_features_loop _ _ _ _ _ _ _ edges _) as [erows|];
      res_simpl; [|done].
    destruct (ground_truth_relations _ trs) as [rels|]; res_simpl; [|done].
    destruct (np_array_float32 rows) as [rows'|]; res_simpl; [|done].
    by destruct (np_array_float32 erows) as [erows'|].
  - intros (Hinteraction & Hseparators & page & Hdata & Hlen).
    by eapply build_returns_None.
Qed.

End GraphProperties.

Lemma build_graph_well_formed_witness :
  example_build "fully" "line" "page1.xml" = Ok (Some example_graph1)
  ∧ ∃ page,
      example_get_data_from_pagexml "page1.xml" = Ok page
      ∧ num_nodes example_graph1
        = length (surviving_regions example_polygon_bounding_box page)
      ∧ (2 ≤ num_nodes example_graph1)%nat
      ∧ num_interacting_nodes example_graph1
        = length (interacting_nodes example_graph1)
      ∧ Forall (λ e : edge, (e.1 < num_nodes example_graph1
                             ∧ e.2 < num_nodes example_graph1)%nat)
          (interacting_nodes example_graph1)
      ∧ gt_num_relations example_graph1 = length (gt_relations example_graph1)
      ∧ ∀ l i j,
          (l, i, j) ∈ gt_relations example_graph1
          ↔ l = 1%nat
            ∧ same_article (pd_article_dict page)
                (surviving_regions example_polygon_bounding_box page) i j.
Proof.
  split; [vm_compute; reflexivity|].
  apply (build_graph_well_formed
           example_get_data_from_pagexml (λ path, path)
           example_get_img_from_page_path unit (λ _ _, Ok ())
           (λ _ _ _, Ok []) unit (λ positions, positions)
           (λ _, Raise QhullError) (λ _ _, [])
           segments_intersect example_polygon_bounding_box (λ rows, Ok rows)
           "page1.xml" "fully" "line" [] None).
  vm_compute. reflexivity.
Defined.

(** ** The batch driver: order and counts *)

Section BatchCounts.

Variable build : string -> result (option GraphData).

Lemma batch_of_sublists page_paths :
  (fst <$> written (batch_of build page_paths)) `sublist_of` page_paths
  ∧ skipped_pages (batch_of build page_paths) `sublist_of` page_paths
  ∧ (length (written (batch_of build page_paths))
     + length (skipped_pages (batch_of build page_paths))
     ≤ length page_paths)%nat.
Proof.
  unfold batch_of. cbn [written skipped_pages].
  split; [|split; [apply sublist_filter|]].
  - induction page_paths as [|p rest IH]; [done|]. cbn [omap list_omap].
    destruct (build p) as [[graph|]|e]; by constructor.
  - induction page_paths as [|p rest IH]; [done|].
    cbn [omap list_omap].
    destruct (build p) as [[graph|]|e] eqn:Hp;
      [rewrite filter_cons_False | rewrite filter_cons_True
      | rewrite filter_cons_False];
      try (unfold returns_None; rewrite Hp; simpl; tauto); simpl; lia.
Qed.

Lemma batch_of_all_ok page_paths :
  first_raise build page_paths = None →
  (length (written (batch_of build page_paths))
   + length (skipped_pages (batch_of build page_paths))
   = length page_paths)%nat.
Proof.
  unfold batch_of. cbn [written skipped_pages].
  induction page_paths as [|p rest IH]; [done|].
  cbn [first_raise omap list_omap].
  destruct (build p) as [[graph|]|e] eqn:Hp; [| |done];
    (destruct (first_raise build rest) as [[before e]|]; [done|]);
    intros _; specialize (IH eq_refl);
    [rewrite filter_cons_False | rewrite filter_cons_True];
    try (unfold returns_None; rewrite Hp; simpl; tauto); simpl; lia.
Qed.

Lemma first_raise_prefix page_paths before e :
  first_raise build page_paths = Some (before, e) →
  first_raise build before = None
  ∧ ∃ page_path rest,
      page_paths = before ++ page_path :: rest ∧ build page_path = Raise e.
Proof.
  revert before. induction page_paths as [|p rest IH]; intros before; [done|].
  cbn [first_raise]. destruct (build p) as [r|e'] eqn:Hp.
  - destruct (first_raise build rest) as [[before' e'']|]; [|done].
    intros [= <- <-]. destruct (IH _ eq_refl) as (Hnone & q & rest' & -> & Hq).
    split; [cbn [first_raise]; by rewrite Hp, Hnone|]. by exists q, rest'.
  - intros [= <- <-]. split; [done|]. by exists p, rest.
Qed.

(** X26: the driver keeps the order of the batch and counts every page
    once: the pages written and the pages skipped are sublists of
    [page_paths], together as many as the pages processed, and they are
    all of the batch exactly when the driver returns normally. *)
Theorem generate_feature_jsons_counts page_paths :
  let '(st, outcome) := generate_feature_jsons build page_paths in
  (fst <$> written st) `sublist_of` page_paths
  ∧ skipped_pages st `sublist_of` page_paths
  ∧ (length (written st) + length (skipped_pages st) ≤ length page_paths)%nat
  ∧ (outcome = Ok ()
     ↔ (length (written st) + length (skipped_pages st)
        = length page_paths)%nat).
Proof.
  unfold generate_feature_jsons. rewrite feature_json_loop_outcome.
  destruct (first_raise build page_paths) as [[before e]|] eqn:Hfirst;
    rewrite batch_app_empty.
  - destruct (first_raise_prefix _ _ _ Hfirst)
      as (Hnone & page_path & rest & -> & Hraise).
    destruct (batch_of_sublists before) as (Hw & Hs & Hlen).
    split; [by apply sublist_inserts_r|].
    split; [by apply sublist_inserts_r|].
    rewrite length_app. cbn [length]. split; [lia|]. split; [done|lia].
  - destruct (batch_of_sublists page_paths) as (Hw & Hs & Hlen).
    do 3 (split; [done|]). split; [|done].
    intros _. by apply batch_of_all_ok.
Qed.

End BatchCounts.
